(** * Chip-8: a shallow embedding of [main.py] (the [disassemble] function and
    the [Chip8] class) and the properties of its instruction cycle.

    Python integers are unbounded, so every number is a [Z]; the bit
    operators of Python on integers ([&], [|], [^], [<<], [>>]) are those of
    [Z] ([Z.land], [Z.lor], [Z.lxor], [Z.shiftl], [Z.shiftr]), and [//], [%]
    with a positive divisor are [Z.div] and [Z.modulo].  Python lists are
    [list]s, indexed the way Python indexes them. *)

From Stdlib Require Import ZArith Lia Ascii String.
From stdpp Require Import base list numbers strings.

Local Open Scope Z_scope.

(** ** Python lists *)

Section pylist.
Context {A : Type}.

(** [l[i]] accepts [0 <= i < len(l)], and [-len(l) <= i < 0] counting from
    the end; any other index raises [IndexError]. *)
Definition py_index (l : list A) (i : Z) : option nat :=
  let len := Z.of_nat (length l) in
  if bool_decide (0 ≤ i < len) then Some (Z.to_nat i)
  else if bool_decide (- len ≤ i < 0) then Some (Z.to_nat (len + i))
  else None.

Definition getitem (l : list A) (i : Z) : option A :=
  k ← py_index l i; l !! k.

Definition setitem (l : list A) (i : Z) (v : A) : option (list A) :=
  k ← py_index l i; Some (<[k:=v]> l).

(** [l.pop()] *)
Definition list_pop (l : list A) : option (A * list A) :=
  match reverse l with
  | [] => None
  | top :: below => Some (top, reverse below)
  end.
End pylist.

(** [range(n)] *)
Definition range (n : Z) : list Z := seqZ 0 n.

(** ** The machine state: the attributes of a [Chip8] object *)

Record Chip8 : Type := mkChip8 {
  memory : list Z;
  V : list Z;
  I : Z;
  pc : Z;
  stack : list Z;
  delay_timer : Z;
  sound_timer : Z;
  display : list (list Z);
  keys : list Z
}.

Definition set_memory (m : list Z) (s : Chip8) : Chip8 :=
  mkChip8 m (V s) (I s) (pc s) (stack s) (delay_timer s) (sound_timer s)
          (display s) (keys s).
Definition set_V (v : list Z) (s : Chip8) : Chip8 :=
  mkChip8 (memory s) v (I s) (pc s) (stack s) (delay_timer s) (sound_timer s)
          (display s) (keys s).
Definition set_I (i : Z) (s : Chip8) : Chip8 :=
  mkChip8 (memory s) (V s) i (pc s) (stack s) (delay_timer s) (sound_timer s)
          (display s) (keys s).
Definition set_pc (p : Z) (s : Chip8) : Chip8 :=
  mkChip8 (memory s) (V s) (I s) p (stack s) (delay_timer s) (sound_timer s)
          (display s) (keys s).
Definition set_stack (st : list Z) (s : Chip8) : Chip8 :=
  mkChip8 (memory s) (V s) (I s) (pc s) st (delay_timer s) (sound_timer s)
          (display s) (keys s).
Definition set_delay_timer (t : Z) (s : Chip8) : Chip8 :=
  mkChip8 (memory s) (V s) (I s) (pc s) (stack s) t (sound_timer s)
          (display s) (keys s).
Definition set_sound_timer (t : Z) (s : Chip8) : Chip8 :=
  mkChip8 (memory s) (V s) (I s) (pc s) (stack s) (delay_timer s) t
          (display s) (keys s).
Definition set_display (d : list (list Z)) (s : Chip8) : Chip8 :=
  mkChip8 (memory s) (V s) (I s) (pc s) (stack s) (delay_timer s)
          (sound_timer s) d (keys s).
Definition set_keys (k : list Z) (s : Chip8) : Chip8 :=
  mkChip8 (memory s) (V s) (I s) (pc s) (stack s) (delay_timer s)
          (sound_timer s) (display s) k.

(** ** Statements: state passing with exceptions

    A method body mutates the object and either finishes or raises; what it
    has written before raising stays written. *)

Inductive exn : Type :=
  | IndexError                 (* list index out of range, pop from empty list *)
  | UnknownOpcode (opcode : Z) (* Exception(f"Unknown opcode {opcode:04X}") *).

Inductive outcome (A : Type) : Type :=
  | Ok (a : A)
  | Raise (e : exn).
Arguments Ok {A} a.
Arguments Raise {A} e.

Definition M (A : Type) : Type := Chip8 → outcome A * Chip8.

#[global] Instance M_ret : MRet M := λ A a s, (Ok a, s).
#[global] Instance M_bind : MBind M := λ A B f m s,
  match m s with
  | (Ok a, s') => f a s'
  | (Raise e, s') => (Raise e, s')
  end.

Definition raise {A} (e : exn) : M A := λ s, (Raise e, s).
Definition gets {A} (f : Chip8 → A) : M A := λ s, (Ok (f s), s).
Definition modify (f : Chip8 → Chip8) : M unit := λ s, (Ok tt, f s).
Definition lift {A} (o : option A) : M A :=
  match o with Some a => mret a | None => raise IndexError end.

(** [for x in xs: body] *)
Fixpoint for_ {A} (xs : list A) (body : A → M unit) : M unit :=
  match xs with
  | [] => mret tt
  | x :: rest => body x;; for_ rest body
  end.

(** ** Attribute accesses *)

(** [self.memory[addr]] *)
Definition mem_read (addr : Z) : M Z :=
  m ← gets memory; lift (getitem m addr).
(** [self.memory[addr] = v] *)
Definition mem_write (addr v : Z) : M unit :=
  m ← gets memory; m' ← lift (setitem m addr v); modify (set_memory m').
(** [self.V[i]] *)
Definition getV (i : Z) : M Z :=
  v ← gets V; lift (getitem v i).
(** [self.V[i] = b] *)
Definition setV (i b : Z) : M unit :=
  v ← gets V; v' ← lift (setitem v i b); modify (set_V v').
(** [self.keys[i]] *)
Definition get_key (i : Z) : M Z :=
  k ← gets keys; lift (getitem k i).
(** [self.display[py][px]] *)
Definition get_pixel (py px : Z) : M Z :=
  d ← gets display; row ← lift (getitem d py); lift (getitem row px).
(** [self.display[py][px] ^= 1]: the row list is updated in place *)
Definition xor_pixel (py px : Z) : M unit :=
  d ← gets display; row ← lift (getitem d py);
  old ← lift (getitem row px);
  row' ← lift (setitem row px (Z.lxor old 1));
  d' ← lift (setitem d py row');
  modify (set_display d').
(** [self.stack.append(a)] *)
Definition stack_append (a : Z) : M unit :=
  modify (λ s, set_stack (stack s ++ [a]) s).
(** [self.stack.pop()] *)
Definition stack_pop : M Z :=
  st ← gets stack; '(top, below) ← lift (list_pop st);
  modify (set_stack below);; mret top.

(** ** [Chip8.__init__] *)

Definition fontset : list Z :=
  [ 0xF0;0x90;0x90;0x90;0xF0;   (* 0 *)
    0x20;0x60;0x20;0x20;0x70;   (* 1 *)
    0xF0;0x10;0xF0;0x80;0xF0;   (* 2 *)
    0xF0;0x10;0xF0;0x10;0xF0;   (* 3 *)
    0x90;0x90;0xF0;0x10;0x10;   (* 4 *)
    0xF0;0x80;0xF0;0x10;0xF0;   (* 5 *)
    0xF0;0x80;0xF0;0x90;0xF0;   (* 6 *)
    0xF0;0x10;0x20;0x40;0x40;   (* 7 *)
    0xF0;0x90;0xF0;0x90;0xF0;   (* 8 *)
    0xF0;0x90;0xF0;0x10;0xF0;   (* 9 *)
    0xF0;0x90;0xF0;0x90;0x90;   (* A *)
    0xE0;0x90;0xE0;0x90;0xE0;   (* B *)
    0xF0;0x80;0x80;0x80;0xF0;   (* C *)
    0xE0;0x90;0x90;0x90;0xE0;   (* D *)
    0xF0;0x80;0xF0;0x80;0xF0;   (* E *)
    0xF0;0x80;0xF0;0x80;0x80 ]. (* F *)

Definition MEMORY_SIZE : Z := 4096.

Definition blank_display : list (list Z) := replicate 32 (replicate 64 0).

(** The object before the font is copied in: every attribute at its initial
    value. *)
Definition blank : Chip8 :=
  {| memory := replicate (Z.to_nat MEMORY_SIZE) 0;
     V := replicate 16 0;
     I := 0;
     pc := 0x200;
     stack := [];
     delay_timer := 0;
     sound_timer := 0;
     display := blank_display;
     keys := replicate 16 0 |}.

(** [for i in range(len(fontset)): self.memory[i] = fontset[i]] *)
Definition load_fontset : M unit :=
  for_ (range (Z.of_nat (length fontset)))
       (λ i, b ← lift (getitem fontset i); mem_write i b).

Definition init : Chip8 := snd (load_fontset blank).

(** ** [Chip8.load_rom]: [rom] is the content of the file at [path]

    [for i, byte in enumerate(rom): self.memory[0x200 + i] = byte] *)
Definition enumerate {A} (l : list A) : list (Z * A) :=
  zip (seqZ 0 (Z.of_nat (length l))) l.

Definition load_rom (rom : list Z) : M unit :=
  for_ (enumerate rom) (λ '(i, byte), mem_write (0x200 + i) byte).

(** ** [Chip8.cycle] *)

(** The fetch: [(self.memory[self.pc] << 8) | self.memory[self.pc + 1]] *)
Definition fetch : M Z :=
  p ← gets pc; hi ← mem_read p;
  p ← gets pc; lo ← mem_read (p + 1);
  mret (Z.lor (Z.shiftl hi 8) lo).

(** [self.pc += d] *)
Definition pc_add (d : Z) : M unit := modify (λ s, set_pc (pc s + d) s).

(** The 8xy_ group (the register-to-register operations). *)
Definition exec_8 (x y n : Z) : M unit :=
  if n =? 0x0 then vy ← getV y; setV x vy
  else if n =? 0x1 then vx ← getV x; vy ← getV y; setV x (Z.lor vx vy)
  else if n =? 0x2 then vx ← getV x; vy ← getV y; setV x (Z.land vx vy)
  else if n =? 0x3 then vx ← getV x; vy ← getV y; setV x (Z.lxor vx vy)
  else if n =? 0x4 then
    vx ← getV x; vy ← getV y;
    let result := vx + vy in
    setV 0xF (if 0xFF <? result then 1 else 0);;
    setV x (Z.land result 0xFF)
  else if n =? 0x5 then
    vx ← getV x; vy ← getV y;
    setV 0xF (if vy <? vx then 1 else 0);;
    vx ← getV x; vy ← getV y;
    setV x (Z.land (vx - vy) 0xFF)
  else if n =? 0x6 then
    vx ← getV x;
    setV 0xF (Z.land vx 0x1);;
    vx ← getV x;
    setV x (Z.shiftr vx 1)
  else if n =? 0x7 then
    vy ← getV y; vx ← getV x;
    setV 0xF (if vx <? vy then 1 else 0);;
    vy ← getV y; vx ← getV x;
    setV x (Z.land (vy - vx) 0xFF)
  else if n =? 0xE then
    vx ← getV x;
    setV 0xF (Z.shiftr (Z.land vx 0x80) 7);;
    vx ← getV x;
    setV x (Z.land (Z.shiftl vx 1) 0xFF)
  else mret tt.

(** Dxyn: the sprite blit.  [plot] is the body of the inner loop on a set
    bit: test the pixel, flag the collision, flip the pixel. *)
Definition plot (py px : Z) : M unit :=
  p ← get_pixel py px;
  (if p =? 1 then setV 0xF 1 else mret tt);;
  xor_pixel py px.

Definition draw_row (vx vy row sprite : Z) : M unit :=
  for_ (range 8) (λ col,
    if negb (Z.land sprite (Z.shiftr 0x80 col) =? 0) then
      let px := (vx + col) `mod` 64 in
      let py := (vy + row) `mod` 32 in
      plot py px
    else mret tt).

Definition exec_D (x y n : Z) : M unit :=
  vx ← getV x; vy ← getV y;
  setV 0xF 0;;
  for_ (range n) (λ row,
    i ← gets I; sprite ← mem_read (i + row);
    draw_row vx vy row sprite).

(** The Ex__ group (skips on the key state). *)
Definition exec_E (x kk : Z) : M unit :=
  if kk =? 0x9E then
    vx ← getV x; k ← get_key vx;
    if k =? 1 then pc_add 2 else mret tt
  else if kk =? 0xA1 then
    vx ← getV x; k ← get_key vx;
    if k =? 0 then pc_add 2 else mret tt
  else mret tt.

(** Fx0A: [for i in range(16): if self.keys[i]: pressed = i; break] *)
Fixpoint scan_keys (candidates : list Z) : M (option Z) :=
  match candidates with
  | [] => mret None
  | i :: rest =>
      k ← get_key i;
      if negb (k =? 0) then mret (Some i) else scan_keys rest
  end.

(** The Fx__ group. *)
Definition exec_F (x kk : Z) : M unit :=
  if kk =? 0x07 then dt ← gets delay_timer; setV x dt
  else if kk =? 0x0A then
    pressed ← scan_keys (range 16);
    match pressed with
    | None => pc_add (-2)
    | Some i => setV x i
    end
  else if kk =? 0x15 then vx ← getV x; modify (set_delay_timer vx)
  else if kk =? 0x18 then vx ← getV x; modify (set_sound_timer vx)
  else if kk =? 0x1E then
    i ← gets I; vx ← getV x; modify (set_I (Z.land (i + vx) 0xFFF))
  else if kk =? 0x29 then vx ← getV x; modify (set_I (vx * 5))
  else if kk =? 0x33 then
    value ← getV x;
    i ← gets I; mem_write i (value `div` 100);;
    i ← gets I; mem_write (i + 1) ((value `div` 10) `mod` 10);;
    i ← gets I; mem_write (i + 2) (value `mod` 10)
  else if kk =? 0x55 then
    for_ (range (x + 1)) (λ i, vi ← getV i; a ← gets I; mem_write (a + i) vi)
  else if kk =? 0x65 then
    for_ (range (x + 1)) (λ i, a ← gets I; b ← mem_read (a + i); setV i b)
  else mret tt.

(** The decode and the dispatch.  [rnd] is the value that
    [random.randint(0, 255)] returns if the instruction asks for one. *)
Definition execute (rnd : Z) (opcode : Z) : M unit :=
  let nnn := Z.land opcode 0x0FFF in
  let n := Z.land opcode 0x000F in
  let x := Z.shiftr (Z.land opcode 0x0F00) 8 in
  let y := Z.shiftr (Z.land opcode 0x00F0) 4 in
  let kk := Z.land opcode 0x00FF in
  if opcode =? 0x00E0 then modify (set_display blank_display)
  else if opcode =? 0x00EE then ret ← stack_pop; modify (set_pc ret)
  else if Z.land opcode 0xF000 =? 0x0000 then mret tt
  else if Z.land opcode 0xF000 =? 0x1000 then modify (set_pc nnn)
  else if Z.land opcode 0xF000 =? 0x2000 then
    p ← gets pc; stack_append p;; modify (set_pc nnn)
  else if Z.land opcode 0xF000 =? 0x3000 then
    vx ← getV x; if vx =? kk then pc_add 2 else mret tt
  else if Z.land opcode 0xF000 =? 0x4000 then
    vx ← getV x; if negb (vx =? kk) then pc_add 2 else mret tt
  else if Z.land opcode 0xF000 =? 0x5000 then
    if n =? 0 then
      vx ← getV x; vy ← getV y; if vx =? vy then pc_add 2 else mret tt
    else mret tt
  else if Z.land opcode 0xF000 =? 0x6000 then setV x kk
  else if Z.land opcode 0xF000 =? 0x7000 then
    vx ← getV x; setV x (Z.land (vx + kk) 0xFF)
  else if Z.land opcode 0xF000 =? 0x8000 then exec_8 x y n
  else if Z.land opcode 0xF000 =? 0x9000 then
    if n =? 0 then
      vx ← getV x; vy ← getV y; if negb (vx =? vy) then pc_add 2 else mret tt
    else mret tt
  else if Z.land opcode 0xF000 =? 0xA000 then modify (set_I nnn)
  else if Z.land opcode 0xF000 =? 0xB000 then
    v0 ← getV 0; modify (set_pc (nnn + v0))
  else if Z.land opcode 0xF000 =? 0xC000 then setV x (Z.land rnd kk)
  else if Z.land opcode 0xF000 =? 0xD000 then exec_D x y n
  else if Z.land opcode 0xF000 =? 0xE000 then exec_E x kk
  else if Z.land opcode 0xF000 =? 0xF000 then exec_F x kk
  else raise (UnknownOpcode opcode).

Definition cycle (rnd : Z) : M unit :=
  opcode ← fetch;
  pc_add 2;;
  execute rnd opcode.

(** ** [disassemble] *)

Local Open Scope string_scope.
Local Open Scope Z_scope.

Definition hex_digit (d : Z) : ascii :=
  match d with
  | 0 => "0" | 1 => "1" | 2 => "2" | 3 => "3" | 4 => "4" | 5 => "5"
  | 6 => "6" | 7 => "7" | 8 => "8" | 9 => "9" | 10 => "A" | 11 => "B"
  | 12 => "C" | 13 => "D" | 14 => "E" | _ => "F"
  end%char.

(** The hexadecimal digits of [v > 0], most significant first, in front of
    [acc]; [fuel] bounds the number of digits. *)
Fixpoint hex_digits (fuel : nat) (v : Z) (acc : string) : string :=
  match fuel with
  | O => acc
  | S fuel' =>
      if v =? 0 then acc
      else hex_digits fuel' (v `div` 16) (String (hex_digit (v `mod` 16)) acc)
  end.

Definition zeros (k : nat) : string := string_of_list_ascii (replicate k "0"%char).

(** The format specification [0wX] of an f-string, and [X] for [width = 0]:
    upper-case hexadecimal, a minus sign for a negative number, zeros between
    the sign and the digits up to [width] characters. *)
Definition format_X (width : nat) (v : Z) : string :=
  let a := Z.abs v in
  let digits := if a =? 0 then "0" else hex_digits (S (Z.to_nat (Z.log2 a))) a "" in
  let sign := if v <? 0 then "-" else "" in
  sign +:+ zeros (width - String.length sign - String.length digits) +:+ digits.

(** The chain of [if]/[elif] of [disassemble]: [Some] where it returns, [None]
    where control leaves the chain without a [return]. *)
Definition disassemble_cases (opcode : Z) : option string :=
  let nnn := Z.land opcode 0x0FFF in
  let n := Z.land opcode 0x000F in
  let x := Z.shiftr (Z.land opcode 0x0F00) 8 in
  let y := Z.shiftr (Z.land opcode 0x00F0) 4 in
  let kk := Z.land opcode 0x00FF in
  let Vx := "V" +:+ format_X 0 x in
  let Vy := "V" +:+ format_X 0 y in
  if opcode =? 0x00E0 then Some "CLS"
  else if opcode =? 0x00EE then Some "RET"
  else if Z.land opcode 0xF000 =? 0x1000 then Some ("JP " +:+ format_X 3 nnn)
  else if Z.land opcode 0xF000 =? 0x2000 then Some ("CALL " +:+ format_X 3 nnn)
  else if Z.land opcode 0xF000 =? 0x3000 then
    Some ("SE " +:+ Vx +:+ ", " +:+ format_X 2 kk)
  else if Z.land opcode 0xF000 =? 0x4000 then
    Some ("SNE " +:+ Vx +:+ ", " +:+ format_X 2 kk)
  else if (Z.land opcode 0xF000 =? 0x5000) && (n =? 0) then
    Some ("SE " +:+ Vx +:+ ", " +:+ Vy)
  else if Z.land opcode 0xF000 =? 0x6000 then
    Some ("LD " +:+ Vx +:+ ", " +:+ format_X 2 kk)
  else if Z.land opcode 0xF000 =? 0x7000 then
    Some ("ADD " +:+ Vx +:+ ", " +:+ format_X 2 kk)
  else if Z.land opcode 0xF000 =? 0x8000 then
    if n =? 0x0 then Some ("LD " +:+ Vx +:+ ", " +:+ Vy)
    else if n =? 0x1 then Some ("OR " +:+ Vx +:+ ", " +:+ Vy)
    else if n =? 0x2 then Some ("AND " +:+ Vx +:+ ", " +:+ Vy)
    else if n =? 0x3 then Some ("XOR " +:+ Vx +:+ ", " +:+ Vy)
    else if n =? 0x4 then Some ("ADD " +:+ Vx +:+ ", " +:+ Vy)
    else if n =? 0x5 then Some ("SUB " +:+ Vx +:+ ", " +:+ Vy)
    else if n =? 0x6 then Some ("SHR " +:+ Vx)
    else if n =? 0x7 then Some ("SUBN " +:+ Vx +:+ ", " +:+ Vy)
    else if n =? 0xE then Some ("SHL " +:+ Vx)
    else None
  else if (Z.land opcode 0xF000 =? 0x9000) && (n =? 0) then
    Some ("SNE " +:+ Vx +:+ ", " +:+ Vy)
  else if Z.land opcode 0xF000 =? 0xA000 then Some ("LD I, " +:+ format_X 3 nnn)
  else if Z.land opcode 0xF000 =? 0xB000 then Some ("JP V0, " +:+ format_X 3 nnn)
  else if Z.land opcode 0xF000 =? 0xC000 then
    Some ("RND " +:+ Vx +:+ ", " +:+ format_X 2 kk)
  else if Z.land opcode 0xF000 =? 0xD000 then
    Some ("DRW " +:+ Vx +:+ ", " +:+ Vy +:+ ", " +:+ format_X 0 n)
  else if Z.land opcode 0xF000 =? 0xE000 then
    if kk =? 0x9E then Some ("SKP " +:+ Vx)
    else if kk =? 0xA1 then Some ("SKNP " +:+ Vx)
    else None
  else if Z.land opcode 0xF000 =? 0xF000 then
    if kk =? 0x07 then Some ("LD " +:+ Vx +:+ ", DT")
    else if kk =? 0x0A then Some ("LD " +:+ Vx +:+ ", K")
    else if kk =? 0x15 then Some ("LD DT, " +:+ Vx)
    else if kk =? 0x18 then Some ("LD ST, " +:+ Vx)
    else if kk =? 0x1E then Some ("ADD I, " +:+ Vx)
    else if kk =? 0x29 then Some ("LD F, " +:+ Vx)
    else if kk =? 0x33 then Some ("LD B, " +:+ Vx)
    else if kk =? 0x55 then Some ("LD [I], V0-" +:+ Vx)
    else if kk =? 0x65 then Some ("LD V0-" +:+ Vx +:+ ", [I]")
    else None
  else None.

Definition disassemble (opcode : Z) : string :=
  match disassemble_cases opcode with
  | Some text => text
  | None => "UNKNOWN " +:+ format_X 4 opcode
  end.

(** The case table of the disassembler as a list of patterns: an opcode
    matches [(mask, bits)] when [opcode & mask == bits]. *)
Definition case_table : list (Z * Z) :=
  [ (0xFFFF, 0x00E0); (0xFFFF, 0x00EE); (0xF000, 0x1000); (0xF000, 0x2000);
    (0xF000, 0x3000); (0xF000, 0x4000); (0xF00F, 0x5000); (0xF000, 0x6000);
    (0xF000, 0x7000); (0xF00F, 0x8000); (0xF00F, 0x8001); (0xF00F, 0x8002);
    (0xF00F, 0x8003); (0xF00F, 0x8004); (0xF00F, 0x8005); (0xF00F, 0x8006);
    (0xF00F, 0x8007); (0xF00F, 0x800E); (0xF00F, 0x9000); (0xF000, 0xA000);
    (0xF000, 0xB000); (0xF000, 0xC000); (0xF000, 0xD000); (0xF0FF, 0xE09E);
    (0xF0FF, 0xE0A1); (0xF0FF, 0xF007); (0xF0FF, 0xF00A); (0xF0FF, 0xF015);
    (0xF0FF, 0xF018); (0xF0FF, 0xF01E); (0xF0FF, 0xF029); (0xF0FF, 0xF033);
    (0xF0FF, 0xF055); (0xF0FF, 0xF065) ].

Definition in_case_table (opcode : Z) : bool :=
  existsb (λ '(mask, bits), Z.land opcode mask =? bits) case_table.

(** Four upper-case hexadecimal digits, one per nibble. *)
Definition hex4 (opcode : Z) : string :=
  String (hex_digit (Z.land (Z.shiftr opcode 12) 0xF))
    (String (hex_digit (Z.land (Z.shiftr opcode 8) 0xF))
      (String (hex_digit (Z.land (Z.shiftr opcode 4) 0xF))
        (String (hex_digit (Z.land opcode 0xF)) ""))).

(** [check z] for the [k] integers from [z] on. *)
Fixpoint all_from (k : nat) (z : Z) (check : Z → bool) : bool :=
  match k with
  | O => true
  | S k' => check z && all_from k' (z + 1) check
  end.

(** What [disassemble] has to return on an opcode, as a decidable check: off
    the case table the text is UNKNOWN and the four digits, on it the text
    is a mnemonic (it does not start with UNKNOWN). *)
Definition disassemble_check (opcode : Z) : bool :=
  if in_case_table opcode
  then negb (String.prefix "UNKNOWN" (disassemble opcode))
  else String.eqb (disassemble opcode) ("UNKNOWN " +:+ hex4 opcode).

Local Close Scope string_scope.

(** ** The host's calls into the core *)

(** [App.update_loop]: [for _ in range(10): self.chip8.cycle()], one random
    value at hand for each cycle. *)
Definition cycles (rnds : list Z) : M unit := for_ rnds cycle.

(** [App.key_press] and [App.key_release]: [self.chip8.keys[k] = 1] and
    [self.chip8.keys[k] = 0], for [k] a value of the key map. *)
Definition key_event (k : Z) (pressed : bool) : M unit :=
  ks ← gets keys;
  ks' ← lift (setitem ks k (if pressed then 1 else 0));
  modify (set_keys ks').

(** What [App.load_rom] tells the user. *)
Inductive load_result : Type :=
  | Loaded
  | TooLarge                (* showerror: ROM file is too large for Chip-8 memory! *)
  | LoadRaised (e : exn).

(** [App.load_rom], from the file's content on; [chip8] is the attribute
    [self.chip8] of the application ([None] before the first ROM). *)
Definition App_load_rom (rom : list Z) (chip8 : option Chip8)
    : load_result * option Chip8 :=
  if MEMORY_SIZE - 0x200 <? Z.of_nat (length rom) then (TooLarge, chip8)
  else
    match load_rom rom init with
    | (Ok _, c) => (Loaded, Some c)
    | (Raise e, c) => (LoadRaised e, Some c)
    end.

(** ** Reading a state *)

(** The value of register [i]. *)
Definition reg (s : Chip8) (i : Z) : Z := default 0 (getitem (V s) i).

(** The pixel of row [py] and column [px]. *)
Definition pixel (s : Chip8) (py px : Z) : Z :=
  default 0 (row ← getitem (display s) py; getitem row px).

(** The lists have the lengths [__init__] gives them. *)
Record shaped (s : Chip8) : Prop := mkShaped {
  shaped_memory : length (memory s) = 4096%nat;
  shaped_V : length (V s) = 16%nat;
  shaped_keys : length (keys s) = 16%nat;
  shaped_display : length (display s) = 32%nat;
  shaped_rows : Forall (λ row, length row = 64%nat) (display s)
}.

(** ** Opcodes the dispatch of [cycle] has no instruction for

    The high nibble selects a group of [cycle]; inside the groups 5, 8, 9,
    E and F the sub-field selects the instruction, and these are the
    sub-fields without one. *)
Definition unmatched (opcode : Z) : bool :=
  let hi := Z.land opcode 0xF000 in
  let n := Z.land opcode 0x000F in
  let kk := Z.land opcode 0x00FF in
  ((hi =? 0x5000) && negb (n =? 0))
  || ((hi =? 0x9000) && negb (n =? 0))
  || ((hi =? 0x8000) && negb (bool_decide (n ∈ [0; 1; 2; 3; 4; 5; 6; 7; 0xE])))
  || ((hi =? 0xE000) && negb (bool_decide (kk ∈ [0x9E; 0xA1])))
  || ((hi =? 0xF000) &&
      negb (bool_decide
              (kk ∈ [0x07; 0x0A; 0x15; 0x18; 0x1E; 0x29; 0x33; 0x55; 0x65]))).

(** ** Programs and states used as examples *)

(** Seventeen CALLs, each to the instruction after it. *)
Definition call_chain_rom : list Z :=
  [ 0x22;0x02; 0x22;0x04; 0x22;0x06; 0x22;0x08; 0x22;0x0A; 0x22;0x0C;
    0x22;0x0E; 0x22;0x10; 0x22;0x12; 0x22;0x14; 0x22;0x16; 0x22;0x18;
    0x22;0x1A; 0x22;0x1C; 0x22;0x1E; 0x22;0x20; 0x22;0x22 ].

(** The machine after sixteen of them. *)
Definition sixteen_calls : Chip8 :=
  snd (cycles (replicate 16 0) (snd (load_rom call_chain_rom init))).

(** A machine about to run 8008, an opcode of the 8 group without an
    instruction. *)
Definition at_8008 : Chip8 := snd (load_rom [0x80; 0x08] init).

(** ** The arithmetic group as the instruction table defines it

    The flag and the result of 8xy4 (ADD), 8xy5 (SUB) and 8xy7 (SUBN) on the
    operands [vx] and [vy]: the carry or not-borrow condition, and the sum or
    difference truncated to 8 bits. *)
Definition alu_flag (n vx vy : Z) : Z :=
  if n =? 4 then (if 255 <? vx + vy then 1 else 0)
  else if n =? 5 then (if vy <? vx then 1 else 0)
  else (if vx <? vy then 1 else 0).

Definition alu_result (n vx vy : Z) : Z :=
  if n =? 4 then (vx + vy) `mod` 256
  else if n =? 5 then (vx - vy) `mod` 256
  else (vy - vx) `mod` 256.

(** LD VF, 3; LD V0, 4; ADD VF, V0, and the machine before the ADD. *)
Definition add_to_vf_rom : list Z := [0x6F; 0x03; 0x60; 0x04; 0x8F; 0x04].
Definition before_add_to_vf : Chip8 :=
  snd (cycles [0; 0] (snd (load_rom add_to_vf_rom init))).

(** LD V0, 5; LD V1, 3; SUB V0, V1, and the machine before the SUB. *)
Definition sub_rom : list Z := [0x60; 0x05; 0x61; 0x03; 0x80; 0x15].
Definition before_sub : Chip8 :=
  snd (cycles [0; 0] (snd (load_rom sub_rom init))).

(** LD V0, 5; LD VF, 3; SUB V0, VF, and the machine before the SUB. *)
Definition sub_vf_rom : list Z := [0x60; 0x05; 0x6F; 0x03; 0x80; 0xF5].
Definition before_sub_vf : Chip8 :=
  snd (cycles [0; 0] (snd (load_rom sub_vf_rom init))).

(** ** Frames: a statement that leaves an attribute as it is, whether it
    finishes or raises *)
Definition keeps {A B} (f : Chip8 → B) (m : M A) : Prop :=
  ∀ s, f (snd (m s)) = f s.

(** LD V2, 7; LD I, 300; LD [I], V0-V2; LD V0-V2, [I], and the machine before
    each of the last two. *)
Definition store_load_rom : list Z :=
  [0x62; 0x07; 0xA3; 0x00; 0xF2; 0x55; 0xF2; 0x65].
Definition before_store : Chip8 :=
  snd (cycles [0; 0] (snd (load_rom store_load_rom init))).
Definition before_load : Chip8 :=
  snd (cycles [0; 0; 0] (snd (load_rom store_load_rom init))).

(** The state of key [i]. *)
Definition key (s : Chip8) (i : Z) : Z := default 0 (getitem (keys s) i).

(** RND V0, FF, and the machine about to run it. *)
Definition at_rnd : Chip8 := snd (load_rom [0xC0; 0xFF] init).

(** LD V3, K, and the machine about to run it: no key is pressed. *)
Definition at_wait : Chip8 := snd (load_rom [0xF3; 0x0A] init).
(** The same machine with the keys 7 and 9 pressed. *)
Definition at_wait_pressed : Chip8 :=
  snd ((key_event 9 true;; key_event 7 true) at_wait).

(** A ROM one byte longer than the memory above 0x200. *)
Definition oversize_rom : list Z := replicate 3585 0xFF.
(** A ROM of exactly that size. *)
Definition full_rom : list Z := replicate 3584 0xFF.

(** ** The sprite blit as the instruction table describes it *)

(** [memory[I + row]], the byte of sprite row [row]. *)
Definition sprite_row (s : Chip8) (row : Z) : Z :=
  default 0 (getitem (memory s) (I s + row)).

(** Bit [col] of a sprite byte, the most significant bit being bit 0. *)
Definition sprite_bit (sprite col : Z) : bool := Z.testbit sprite (7 - col).

(** The sprite of [n] rows at [I], put at column [vx] and row [vy], draws on
    the pixel [(py, px)]: one of its set bits lands there, coordinates taken
    modulo 64 and 32. *)
Definition drawn (s : Chip8) (vx vy n py px : Z) : bool :=
  existsb (λ row,
    existsb (λ col,
      sprite_bit (sprite_row s row) col
      && ((vy + row) `mod` 32 =? py) && ((vx + col) `mod` 64 =? px))
    (range 8))
  (range n).

(** One of the pixels the sprite draws on is 1 in [s]. *)
Definition collision (s : Chip8) (vx vy n : Z) : bool :=
  existsb (λ row,
    existsb (λ col,
      sprite_bit (sprite_row s row) col
      && (pixel s ((vy + row) `mod` 32) ((vx + col) `mod` 64) =? 1))
    (range 8))
  (range n).

(** The pixels a sprite draws on, in the order of the two loops. *)
Definition row_points (vx vy row sprite : Z) : list (Z * Z) :=
  (λ col, ((vy + row) `mod` 32, (vx + col) `mod` 64))
    <$> filter (λ col, sprite_bit sprite col = true) (range 8).

Definition sprite_points (s : Chip8) (vx vy n : Z) : list (Z * Z) :=
  row ← range n; row_points vx vy row (sprite_row s row).

(** A pixel position on the display. *)
Definition on_display (p : Z * Z) : Prop := 0 ≤ p.1 < 32 ∧ 0 ≤ p.2 < 64.

(** The state after [plot]. *)
Definition plotted (s : Chip8) (p : Z * Z) : Chip8 := snd (plot p.1 p.2 s).

(** LD I, 0 (the glyph of 0); DRW V0, V0, 5 twice, and the machine before
    the first and before the second DRW. *)
Definition draw_rom : list Z := [0xA0; 0x00; 0xD0; 0x05; 0xD0; 0x05].
Definition before_draw : Chip8 := snd (cycles [0] (snd (load_rom draw_rom init))).
Definition before_redraw : Chip8 :=
  snd (cycles [0; 0] (snd (load_rom draw_rom init))).

(** LD VF, 05; LD I, 0; DRW VF, V0, 1: the column of the sprite is taken from
    VF.  The machine before the DRW. *)
Definition draw_vf_rom : list Z := [0x6F; 0x05; 0xA0; 0x00; 0xDF; 0x01].
Definition before_draw_vf : Chip8 :=
  snd (cycles [0; 0] (snd (load_rom draw_vf_rom init))).

(** The machine once VF is cleared, as it is in the middle of DRW. *)
Definition vf_cleared (s : Chip8) : Chip8 := set_V (<[15%nat:=0]> (V s)) s.

(** [s'] differs from [s] in the registers and the display at most. *)
Definition same_but_V_display (s s' : Chip8) : Prop :=
  memory s' = memory s ∧ I s' = I s ∧ pc s' = pc s ∧ stack s' = stack s
  ∧ delay_timer s' = delay_timer s ∧ sound_timer s' = sound_timer s
  ∧ keys s' = keys s.

(** ** The states the machine goes through *)

Definition byte (v : Z) : Prop := 0 ≤ v ≤ 255.

#[global] Instance byte_dec (v : Z) : Decision (byte v).
Proof. unfold byte. apply _. Defined.

(** The lists have their lengths, the memory, the registers and the timers
    hold bytes, and no address is negative. *)
Record valid (s : Chip8) : Prop := mkValid {
  valid_shaped : shaped s;
  valid_memory : Forall byte (memory s);
  valid_V : Forall byte (V s);
  valid_I : 0 ≤ I s ≤ 4095;
  valid_pc : 0 ≤ pc s;
  valid_stack : Forall (λ a, 0 ≤ a) (stack s);
  valid_delay_timer : byte (delay_timer s);
  valid_sound_timer : byte (sound_timer s)
}.

(** The states in which the application calls [cycle]: [App.load_rom] makes
    a machine and loads a ROM that passed its length check (the bytes of a
    file); from there on, cycles that return, each with a random byte at
    hand, and key events of the sixteen keys.  A cycle that raises ends
    [App.update_loop], which is not scheduled again. *)
Inductive reachable : Chip8 → Prop :=
  | reachable_loaded (rom : list Z) (s : Chip8) :
      Z.of_nat (length rom) ≤ MEMORY_SIZE - 0x200 →
      Forall byte rom →
      load_rom rom init = (Ok tt, s) →
      reachable s
  | reachable_cycle (rnd : Z) (s s' : Chip8) :
      reachable s → byte rnd → cycle rnd s = (Ok tt, s') → reachable s'
  | reachable_key_event (k : Z) (pressed : bool) (s s' : Chip8) :
      reachable s → 0 ≤ k ≤ 15 → key_event k pressed s = (Ok tt, s') →
      reachable s'.

(** A statement run from a state in [P] ends, if it returns, with a value
    and a state in [Q]. *)
Definition hoare {A} (P : Chip8 → Prop) (m : M A) (Q : A → Chip8 → Prop)
    : Prop :=
  ∀ s, P s → ∀ a s', m s = (Ok a, s') → Q a s'.

(** The states in the middle of a cycle: the program counter has been
    advanced. *)
Definition fetched (s : Chip8) : Prop := valid s ∧ 2 ≤ pc s.

(** LD I, FFF; LD [I], V0-V1: the second byte of the store would go to
    address 4096.  The machine with the ROM loaded, and before the store. *)
Definition overrun_rom : list Z := [0xAF; 0xFF; 0xF1; 0x55].
Definition loaded_overrun : Chip8 := snd (load_rom overrun_rom init).
Definition before_overrun : Chip8 := snd (cycle 0 loaded_overrun).

(** A statement that raises nothing but IndexError. *)
Definition raises_only_IndexError {A} (m : M A) : Prop :=
  ∀ s e s', m s = (Raise e, s') → e = IndexError.

(** On an opcode, [unmatched] and the case table of the disassembler agree:
    the opcodes without an instruction are those off the table, the 0nnn
    group apart (which [cycle] ignores). *)
Definition unmatched_check (opcode : Z) : bool :=
  Bool.eqb (unmatched opcode)
           (negb (in_case_table opcode) && negb (Z.land opcode 0xF000 =? 0)).

(** The states in the middle of a loop over the memory at [I]: the machine
    has its shape and [I] is still [i0]. *)
Definition at_index (i0 : Z) (s : Chip8) : Prop := shaped s ∧ I s = i0.

(** * Further code: instruction semantics, the listing, the key map *)

(** The byte of the memory at address [a]. *)
Definition mem (s : Chip8) (a : Z) : Z := default 0 (getitem (memory s) a).

(** The opcodes that compare and skip: the condition of 3xkk, 4xkk, 5xy0
    and 9xy0 on the operands, as the instruction table has it. *)
Definition skip_condition (group vx vy kk : Z) : bool :=
  if group =? 0x3000 then vx =? kk
  else if group =? 0x4000 then negb (vx =? kk)
  else if group =? 0x5000 then vx =? vy
  else negb (vx =? vy).

(** CALL 300 at 0x200 and RET at 0x300 (the ROM is padded with zeros up to
    there), and the machine about to run the CALL. *)
Definition call_ret_rom : list Z := [0x23; 0x00] ++ replicate 254 0 ++ [0x00; 0xEE].
Definition at_call : Chip8 := snd (load_rom call_ret_rom init).

(** RET as the first instruction: the stack is empty. *)
Definition at_ret : Chip8 := snd (load_rom [0x00; 0xEE] init).

(** LD V1, 81; SHR V1; SHL V1 and the machine before each shift. *)
Definition shift_rom : list Z := [0x61; 0x81; 0x81; 0x06; 0x81; 0x0E].
Definition before_shr : Chip8 := snd (cycles [0] (snd (load_rom shift_rom init))).
Definition before_shl : Chip8 :=
  snd (cycles [0; 0] (snd (load_rom shift_rom init))).

(** LD V0, 10 (sixteen, not a key); SKP V0. *)
Definition bad_key_rom : list Z := [0x60; 0x10; 0xE0; 0x9E].
Definition before_bad_key : Chip8 :=
  snd (cycles [0] (snd (load_rom bad_key_rom init))).
(** LD V0, 07; SKP V0, with key 7 pressed. *)
Definition key7_rom : list Z := [0x60; 0x07; 0xE0; 0x9E].
Definition before_key7 : Chip8 :=
  snd ((cycles [0];; key_event 7 true) (snd (load_rom key7_rom init))).

(** LD V2, FA; ADD V2, 0A (250 + 10 wraps to 4), and the machine before the
    ADD. *)
Definition add_imm_rom : list Z := [0x62; 0xFA; 0x72; 0x0A].
Definition before_add_imm : Chip8 :=
  snd (cycles [0] (snd (load_rom add_imm_rom init))).

(** SE V0, 00 at the start of a ROM. *)
Definition at_se : Chip8 := snd (load_rom [0x30; 0x00] init).

(** LD V0, FE (254); LD I, 300; LD B, V0, and the machine before the last. *)
Definition bcd_rom : list Z := [0x60; 0xFE; 0xA3; 0x00; 0xF0; 0x33].
Definition before_bcd : Chip8 :=
  snd (cycles [0; 0] (snd (load_rom bcd_rom init))).

(** LD V0, 05; LD DT, V0, and the machine before the second instruction. *)
Definition timer_rom : list Z := [0x60; 0x05; 0xF0; 0x15].
Definition before_timer : Chip8 :=
  snd (cycles [0] (snd (load_rom timer_rom init))).

(** ** [App.disassemble] *)

Local Open Scope string_scope.
Local Open Scope Z_scope.

Definition newline : string := String "010"%char "".

(** The line of the listing for the address [pc]:
    [f"{pc:03X}: {opcode:004X}   {asm}\n"]. *)
Definition listing_line (pc opcode : Z) : string :=
  format_X 3 pc +:+ ": " +:+ format_X 4 opcode +:+ "   "
    +:+ disassemble opcode +:+ newline.

(** The [while] loop of [App.disassemble], from the address [pc] on; [out]
    holds the lines inserted into the text widget so far.  [fuel] bounds the
    number of tests of the loop condition: [None] when it runs out. *)
Fixpoint listing_loop (fuel : nat) (s : Chip8) (pc : Z) (out : list string)
    : option (outcome (list string)) :=
  match fuel with
  | O => None
  | S fuel' =>
      if pc <? MEMORY_SIZE - 1 then
        match fst (mem_read pc s) with
        | Raise e => Some (Raise e)
        | Ok hi =>
            match fst (mem_read (pc + 1) s) with
            | Raise e => Some (Raise e)
            | Ok lo =>
                let opcode := Z.lor (Z.shiftl hi 8) lo in
                listing_loop fuel' s (pc + 2) (out ++ [listing_line pc opcode])
            end
        end
      else Some (Ok out)
  end.

(** [App.disassemble]: nothing without a machine, the listing from 0x200 on
    with one. *)
Definition App_disassemble (fuel : nat) (chip8 : option Chip8)
    : option (outcome (list string)) :=
  match chip8 with
  | None => Some (Ok [])
  | Some s => listing_loop fuel s 0x200 []
  end.

(** The opcode that the two bytes at [a] make. *)
Definition opcode_at (s : Chip8) (a : Z) : Z :=
  Z.lor (Z.shiftl (mem s a) 8) (mem s (a + 1)).

(** ** The key map of the application *)

(** A [dict] with strings as keys: the items in the order of their insertion,
    no key twice. *)
Definition dict (A : Type) : Type := list (string * A).

(** [d.get(k)]: [None] for [k not in d]. *)
Fixpoint dict_get {A} (d : dict A) (k : string) : option A :=
  match d with
  | [] => None
  | (k', v) :: rest => if decide (k' = k) then Some v else dict_get rest k
  end.

(** [d[k] = v]: the value of an item that is there is replaced where the item
    stands, a new item goes to the end. *)
Fixpoint dict_set {A} (d : dict A) (k : string) (v : A) : dict A :=
  match d with
  | [] => [(k, v)]
  | (k', v') :: rest =>
      if decide (k' = k) then (k', v) :: rest else (k', v') :: dict_set rest k v
  end.

(** [self.keymap] as [App.__init__] makes it. *)
Definition keymap_init : dict Z :=
  [("x", 0x0); ("1", 0x1); ("2", 0x2); ("3", 0x3); ("q", 0x4); ("w", 0x5);
   ("e", 0x6); ("a", 0x7); ("s", 0x8); ("d", 0x9); ("z", 0xA); ("c", 0xB);
   ("4", 0xC); ("r", 0xD); ("f", 0xE); ("v", 0xF)].

(** [App.get_key_for_chip8]: the first key of the map, in the order of the
    items, that stands for [chip8_index]. *)
Fixpoint get_key_for_chip8 (keymap : dict Z) (chip8_index : Z) : string :=
  match keymap with
  | [] => "?"
  | (k, v) :: rest =>
      if v =? chip8_index then k else get_key_for_chip8 rest chip8_index
  end.

Section keyboard.
(** [str.lower] *)
Variable lower : string → string.

(** [App.key_press] ([pressed = true]) and [App.key_release]
    ([pressed = false]) on an event whose [char] is [char]; the machine of
    the application is [chip8]. *)
Definition App_key_event (keymap : dict Z) (pressed : bool) (char : string)
    (chip8 : option Chip8) : outcome unit * option Chip8 :=
  match chip8 with
  | None => (Ok tt, None)
  | Some s =>
      match dict_get keymap (lower char) with
      | None => (Ok tt, Some s)
      | Some k => let '(r, s') := key_event k pressed s in (r, Some s')
      end
  end.

(** [on_press] of [App.wait_for_key]: the key pressed is bound to
    [chip8_key]. *)
Definition on_press (keymap : dict Z) (keysym : string) (chip8_key : Z)
    : dict Z :=
  dict_set keymap (lower keysym) chip8_key.
End keyboard.

(** The lower case of one ASCII letter, and of an ASCII string. *)
Definition ascii_lower (c : ascii) : ascii :=
  let n := N_of_ascii c in
  if ((65 <=? n) && (n <=? 90))%N then ascii_of_N (n + 32) else c.

Fixpoint lower_ascii (s : string) : string :=
  match s with
  | EmptyString => EmptyString
  | String c rest => String (ascii_lower c) (lower_ascii rest)
  end.

(** The map is one that [App.__init__] and [on_press] can make: no key
    twice, every value one of the sixteen keys of the machine. *)
Definition keymap_ok (keymap : dict Z) : Prop :=
  NoDup keymap.*1 ∧ Forall (λ kv, 0 ≤ kv.2 ≤ 15) keymap.

Local Close Scope string_scope.

(** The key maps that the application can have: the one of [App.__init__],
    changed by [on_press] for keys of the machine ([edit_key_bindings] makes
    a button for each of [range(16)]). *)
Inductive keymap_reachable (lower : string → string) : dict Z → Prop :=
  | keymap_reachable_init : keymap_reachable lower keymap_init
  | keymap_reachable_on_press (keymap : dict Z) (keysym : string)
        (chip8_key : Z) :
      keymap_reachable lower keymap →
      0 ≤ chip8_key ≤ 15 →
      keymap_reachable lower (on_press lower keymap keysym chip8_key).

(** What LD, OR, AND and XOR (8xy0 to 8xy3) leave in Vx. *)
Definition logic_result (n vx vy : Z) : Z :=
  if n =? 0 then vy
  else if n =? 1 then Z.lor vx vy
  else if n =? 2 then Z.land vx vy
  else Z.lxor vx vy.

(** LD VF, 01; LD V1, 0C; LD V2, 0A; XOR V1, V2, and the machine before the
    XOR. *)
Definition logic_rom : list Z :=
  [0x6F; 0x01; 0x61; 0x0C; 0x62; 0x0A; 0x81; 0x23].
Definition before_xor : Chip8 :=
  snd (cycles [0; 0; 0] (snd (load_rom logic_rom init))).

(** LD V0, FF; LD I, FFF; ADD I, V0, and the machine before the ADD. *)
Definition index_rom : list Z := [0x60; 0xFF; 0xAF; 0xFF; 0xF0; 0x1E].
Definition before_add_index : Chip8 :=
  snd (cycles [0; 0] (snd (load_rom index_rom init))).

(** LD V0, 0A; LD F, V0, and the machine before LD F. *)
Definition font_rom : list Z := [0x60; 0x0A; 0xF0; 0x29].
Definition before_font : Chip8 :=
  snd (cycles [0] (snd (load_rom font_rom init))).

(** LD V0, FF; JP V0, FFF, and the machine before the jump. *)
Definition jump_rom : list Z := [0x60; 0xFF; 0xBF; 0xFF].
Definition before_jump : Chip8 :=
  snd (cycles [0] (snd (load_rom jump_rom init))).

(** * Properties *)

(** ** Running statements *)

Lemma run_bind {A B} (m : M A) (f : A → M B) (s : Chip8) :
  (m ≫= f) s =
  match m s with
  | (Ok a, s') => f a s'
  | (Raise e, s') => (Raise e, s')
  end.
Proof. reflexivity. Qed.

Lemma bind_ok {A B} (m : M A) (f : A → M B) (s s' : Chip8) (a : A) :
  m s = (Ok a, s') → (m ≫= f) s = f a s'.
Proof. intros H. rewrite run_bind, H. reflexivity. Qed.

Lemma bind_raise {A B} (m : M A) (f : A → M B) (s s' : Chip8) (e : exn) :
  m s = (Raise e, s') → (m ≫= f) s = (Raise e, s').
Proof. intros H. rewrite run_bind, H. reflexivity. Qed.

(** ** Python indexing *)

Section pylist_facts.
Context {A : Type}.
Implicit Types (l : list A) (i : Z).

Lemma py_index_nonneg l i :
  0 ≤ i < Z.of_nat (length l) → py_index l i = Some (Z.to_nat i).
Proof. intros H. unfold py_index. rewrite bool_decide_eq_true_2; done. Qed.

Lemma py_index_beyond l i :
  Z.of_nat (length l) ≤ i → py_index l i = None.
Proof.
  intros H. unfold py_index.
  rewrite !bool_decide_eq_false_2; [done | lia | lia].
Qed.

Lemma getitem_nonneg l i :
  0 ≤ i < Z.of_nat (length l) → getitem l i = l !! Z.to_nat i.
Proof. intros H. unfold getitem. rewrite py_index_nonneg; done. Qed.

Lemma getitem_is_Some l i :
  0 ≤ i < Z.of_nat (length l) → is_Some (getitem l i).
Proof.
  intros H. rewrite getitem_nonneg by done.
  apply lookup_lt_is_Some. lia.
Qed.

Lemma getitem_beyond l i :
  Z.of_nat (length l) ≤ i → getitem l i = None.
Proof. intros H. unfold getitem. rewrite py_index_beyond; done. Qed.

Lemma setitem_nonneg l i v :
  0 ≤ i < Z.of_nat (length l) → setitem l i v = Some (<[Z.to_nat i:=v]> l).
Proof. intros H. unfold setitem. rewrite py_index_nonneg; done. Qed.

Lemma setitem_beyond l i v :
  Z.of_nat (length l) ≤ i → setitem l i v = None.
Proof. intros H. unfold setitem. rewrite py_index_beyond; done. Qed.

Lemma setitem_length l i v l' :
  setitem l i v = Some l' → length l' = length l.
Proof.
  unfold setitem. destruct (py_index l i); simpl; [|done].
  intros [= <-]. apply length_insert.
Qed.
End pylist_facts.

(** ** The decoded fields *)

Lemma land_range (a mask : Z) : 0 ≤ mask → 0 ≤ Z.land a mask ≤ mask.
Proof.
  intros Hm.
  assert (Hdisj : Z.land (Z.land a mask) (Z.land (Z.lnot a) mask) = 0).
  { apply Z.bits_inj'. intros k Hk.
    rewrite !Z.land_spec, Z.lnot_spec, Z.bits_0 by exact Hk.
    destruct (Z.testbit a k), (Z.testbit mask k); reflexivity. }
  assert (Hsplit : Z.land a mask + Z.land (Z.lnot a) mask = mask).
  { rewrite Z.add_nocarry_lxor, Z.lxor_lor.
    - rewrite <- Z.land_lor_distr_l, Z.lor_lnot_diag. apply Z.land_m1_l.
    - exact Hdisj.
    - exact Hdisj. }
  assert (0 ≤ Z.land a mask) by (apply Z.land_nonneg; by right).
  assert (0 ≤ Z.land (Z.lnot a) mask) by (apply Z.land_nonneg; by right).
  lia.
Qed.

Lemma field_x_range (opcode : Z) :
  0 ≤ Z.shiftr (Z.land opcode 0x0F00) 8 ≤ 15.
Proof.
  rewrite Z.shiftr_land. change (Z.shiftr 0x0F00 8) with 15.
  apply land_range. lia.
Qed.

Lemma field_y_range (opcode : Z) :
  0 ≤ Z.shiftr (Z.land opcode 0x00F0) 4 ≤ 15.
Proof.
  rewrite Z.shiftr_land. change (Z.shiftr 0x00F0 4) with 15.
  apply land_range. lia.
Qed.

Ltac unfold_stmt :=
  cbv beta iota zeta delta
    [mbind M_bind mret M_ret gets modify lift raise mem_read mem_write getV
     setV get_key get_pixel xor_pixel stack_append stack_pop pc_add].

Ltac fields :=
  cbn [memory V I pc stack delay_timer sound_timer display keys set_memory
       set_V set_I set_pc set_stack set_delay_timer set_sound_timer
       set_display set_keys fst snd].

(** ** The disassembler *)

Lemma all_from_spec (k : nat) (z : Z) (check : Z → bool) :
  all_from k z check = true →
  ∀ op, z ≤ op < z + Z.of_nat k → check op = true.
Proof.
  revert z. induction k as [|k IH]; intros z Hall op Hop; [lia|].
  cbn [all_from] in Hall. apply andb_prop in Hall as [Hz Hrest].
  destruct (decide (op = z)) as [->|Hne]; [exact Hz|].
  apply (IH (z + 1) Hrest). lia.
Qed.

Lemma disassemble_check_all :
  all_from (Z.to_nat 65536) 0 disassemble_check = true.
Proof. vm_compute. reflexivity. Qed.

(** C8. [disassemble] is a total function on the 65536 opcodes: an opcode
    that no pattern of its case table matches (the sub-cases the 8xxx, Exxx
    and Fxxx groups leave out among them) gives the text UNKNOWN, a space and
    the opcode as four upper-case hexadecimal digits, an opcode on the table
    gives a mnemonic; and [disassemble(0x00E0)] is CLS, [disassemble(0x1234)]
    is JP 234, [disassemble(0xE000)] is UNKNOWN E000. *)
Theorem disassemble_total (opcode : Z) :
  0 ≤ opcode < 65536 →
  (in_case_table opcode = false →
     disassemble opcode = ("UNKNOWN " +:+ hex4 opcode)%string)
  ∧ (in_case_table opcode = true →
     String.prefix "UNKNOWN" (disassemble opcode) = false)
  ∧ disassemble 0x00E0 = "CLS"%string
  ∧ disassemble 0x1234 = "JP 234"%string
  ∧ disassemble 0xE000 = "UNKNOWN E000"%string.
Proof.
  intros Hop.
  pose proof (all_from_spec _ _ _ disassemble_check_all opcode) as Hchk.
  unfold disassemble_check in Hchk.
  split; [|split; [|repeat split]].
  - intros Hout. rewrite Hout in Hchk. apply String.eqb_eq. apply Hchk. lia.
  - intros Hin. rewrite Hin in Hchk. apply negb_true_iff. apply Hchk. lia.
Qed.

Lemma disassemble_total_witness :
  disassemble 0x8008 = "UNKNOWN 8008"%string.
Proof.
  apply (disassemble_total 0x8008); [lia | reflexivity].
Defined.

(** ** The cycle: fetch, then dispatch *)

Lemma fetch_state (s s' : Chip8) (r : outcome Z) :
  fetch s = (r, s') → s' = s.
Proof.
  unfold fetch. unfold_stmt.
  destruct (getitem (memory s) (pc s)) as [hi|];
    [destruct (getitem (memory s) (pc s + 1)) as [lo|]|];
    by intros [= _ <-].
Qed.

Lemma cycle_fetched (rnd : Z) (s : Chip8) (opcode : Z) :
  fetch s = (Ok opcode, s) →
  cycle rnd s = execute rnd opcode (set_pc (pc s + 2) s).
Proof. intros H. unfold cycle. rewrite (bind_ok _ _ _ _ _ H). reflexivity. Qed.

Lemma cycle_not_fetched (rnd : Z) (s : Chip8) (e : exn) :
  fetch s = (Raise e, s) → cycle rnd s = (Raise e, s).
Proof. intros H. unfold cycle. rewrite (bind_raise _ _ _ _ _ H). reflexivity. Qed.

(** An opcode of a group other than 0 is neither 00E0 nor 00EE. *)
Lemma group_not_00E0 (opcode : Z) :
  Z.land opcode 0xF000 ≠ 0 → (opcode =? 0x00E0) = false ∧ (opcode =? 0x00EE) = false.
Proof.
  intros H. split; apply Z.eqb_neq; intros ->; apply H; reflexivity.
Qed.

(** Rewrites the dispatch of [execute] for an opcode whose group [H] gives. *)
Ltac dispatch H :=
  unfold execute;
  let Hg := fresh in
  destruct (group_not_00E0 _ ltac:(rewrite H; discriminate)) as [Hg Hg'];
  rewrite Hg, Hg', !H; clear Hg Hg';
  cbn [Z.eqb Pos.eqb].

(** ** CALL *)

Lemma execute_2nnn (rnd opcode : Z) :
  Z.land opcode 0xF000 = 0x2000 →
  execute rnd opcode =
    (p ← gets pc; stack_append p;; modify (set_pc (Z.land opcode 0x0FFF))).
Proof. intros H. dispatch H. reflexivity. Qed.

(** C6, as the code has it.  CALL (2nnn) appends the address of the next
    instruction to the stack and jumps to nnn; the stack is a list without a
    capacity, so the call succeeds whatever the number of return addresses it
    holds already, and the stack is one longer afterwards. *)
Theorem call_pushes (rnd : Z) (s : Chip8) (opcode : Z) :
  fetch s = (Ok opcode, s) →
  Z.land opcode 0xF000 = 0x2000 →
  cycle rnd s =
    (Ok tt,
     set_pc (Z.land opcode 0x0FFF) (set_stack (stack s ++ [pc s + 2]) s))
  ∧ length (stack (snd (cycle rnd s))) = S (length (stack s)).
Proof.
  intros Hf Hop. rewrite (cycle_fetched _ _ _ Hf), (execute_2nnn _ _ Hop).
  split; [reflexivity|].
  unfold_stmt. fields. rewrite length_app. cbn. lia.
Qed.

Lemma call_pushes_witness :
  cycle 0 sixteen_calls =
    (Ok tt,
     set_pc (Z.land 0x2222 0x0FFF)
       (set_stack (stack sixteen_calls ++ [pc sixteen_calls + 2]) sixteen_calls))
  ∧ length (stack (snd (cycle 0 sixteen_calls))) = S (length (stack sixteen_calls)).
Proof.
  apply (call_pushes 0 sixteen_calls 0x2222); vm_compute; reflexivity.
Defined.

(** C6 as stated fails: with sixteen return addresses on the stack, a CALL
    does not fail, and leaves seventeen. *)
Lemma call_on_full_stack :
  length (stack sixteen_calls) = 16%nat
  ∧ fetch sixteen_calls = (Ok 0x2222, sixteen_calls)
  ∧ fst (cycle 0 sixteen_calls) = Ok tt
  ∧ length (stack (snd (cycle 0 sixteen_calls))) = 17%nat.
Proof. vm_compute. repeat split. Qed.

(** ** Opcodes without an instruction *)

Lemma execute_unmatched (rnd opcode : Z) :
  unmatched opcode = true → execute rnd opcode = mret tt.
Proof.
  unfold unmatched. intros H.
  repeat match type of H with
         | (_ || _) = true => apply orb_prop in H as [H|H]
         end;
    apply andb_prop in H as [Hhi Hsub]; apply Z.eqb_eq in Hhi;
    apply negb_true_iff in Hsub; dispatch Hhi.
  - by rewrite Hsub.
  - by rewrite Hsub.
  - apply bool_decide_eq_false in Hsub. unfold exec_8.
    repeat (case_match; [exfalso; apply Hsub;
                         match goal with E : (_ =? _) = true |- _ =>
                           apply Z.eqb_eq in E; rewrite E end;
                         repeat constructor|]).
    reflexivity.
  - apply bool_decide_eq_false in Hsub. unfold exec_E.
    repeat (case_match; [exfalso; apply Hsub;
                         match goal with E : (_ =? _) = true |- _ =>
                           apply Z.eqb_eq in E; rewrite E end;
                         repeat constructor|]).
    reflexivity.
  - apply bool_decide_eq_false in Hsub. unfold exec_F.
    repeat (case_match; [exfalso; apply Hsub;
                         match goal with E : (_ =? _) = true |- _ =>
                           apply Z.eqb_eq in E; rewrite E end;
                         repeat constructor|]).
    reflexivity.
Qed.

(** C5, what the code does instead.  On an opcode that has no instruction
    inside its group (5xy_, 8xy_, 9xy_, Ex__, Fx__), [cycle] raises nothing:
    it returns with the program counter advanced by 2 and nothing else
    changed. *)
Theorem cycle_ignores_unmatched (rnd : Z) (s : Chip8) (opcode : Z) :
  fetch s = (Ok opcode, s) →
  unmatched opcode = true →
  cycle rnd s = (Ok tt, set_pc (pc s + 2) s).
Proof.
  intros Hf Hun. rewrite (cycle_fetched _ _ _ Hf), (execute_unmatched _ _ Hun).
  reflexivity.
Qed.

Lemma cycle_ignores_unmatched_witness :
  cycle 0 at_8008 = (Ok tt, set_pc (pc at_8008 + 2) at_8008).
Proof.
  apply (cycle_ignores_unmatched 0 at_8008 0x8008); vm_compute; reflexivity.
Defined.

(** ** Registers *)

Section pylist_update.
Context {A : Type}.
Implicit Types (l : list A) (i j : Z).

Lemma getitem_insert_eq l i v :
  0 ≤ i < Z.of_nat (length l) →
  getitem (<[Z.to_nat i:=v]> l) i = Some v.
Proof.
  intros H. rewrite getitem_nonneg by (rewrite length_insert; lia).
  apply list_lookup_insert_eq. lia.
Qed.

Lemma getitem_insert_ne l i j v :
  0 ≤ i → 0 ≤ j → i ≠ j →
  getitem (<[Z.to_nat i:=v]> l) j = getitem l j.
Proof.
  intros Hi Hj Hne. unfold getitem, py_index. rewrite length_insert.
  repeat case_bool_decide; simpl; try done; try lia.
  apply list_lookup_insert_ne. lia.
Qed.
End pylist_update.

Lemma reg_getitem (s : Chip8) (i : Z) :
  length (V s) = 16%nat → 0 ≤ i ≤ 15 → getitem (V s) i = Some (reg s i).
Proof.
  intros Hlen Hi. unfold reg.
  destruct (getitem_is_Some (V s) i) as [v ->]; [lia | reflexivity].
Qed.

Lemma getV_run (s : Chip8) (i : Z) :
  length (V s) = 16%nat → 0 ≤ i ≤ 15 → getV i s = (Ok (reg s i), s).
Proof.
  intros Hlen Hi. unfold_stmt. by rewrite (reg_getitem s i Hlen Hi).
Qed.

Lemma setV_run (s : Chip8) (i b : Z) :
  length (V s) = 16%nat → 0 ≤ i ≤ 15 →
  setV i b s = (Ok tt, set_V (<[Z.to_nat i:=b]> (V s)) s).
Proof.
  intros Hlen Hi. unfold_stmt. by rewrite setitem_nonneg by lia.
Qed.

Lemma reg_set_V_eq (s : Chip8) (v : list Z) (i b : Z) :
  0 ≤ i < Z.of_nat (length v) → reg (set_V (<[Z.to_nat i:=b]> v) s) i = b.
Proof. intros H. unfold reg. fields. by rewrite getitem_insert_eq. Qed.

Lemma reg_set_V_ne (s : Chip8) (v : list Z) (i j b : Z) :
  0 ≤ i → 0 ≤ j → i ≠ j →
  reg (set_V (<[Z.to_nat i:=b]> v) s) j = reg (set_V v s) j.
Proof. intros Hi Hj Hne. unfold reg. fields. by rewrite getitem_insert_ne. Qed.

(** Runs the register reads and writes at the head of the statement. *)
Ltac regs_side := fields; rewrite ?length_insert; (assumption || lia).
Ltac regs_step :=
  match goal with
  | |- context [(getV ?i ≫= ?f) ?s] =>
      rewrite (bind_ok (getV i) f s s (reg s i))
        by (apply getV_run; regs_side)
  | |- context [(setV ?i ?b ≫= ?f) ?s] =>
      rewrite (bind_ok (setV i b) f s _ tt)
        by (apply setV_run; regs_side)
  | |- context [setV ?i ?b ?s] =>
      rewrite (setV_run s i b) by regs_side
  end.

Lemma land_255 (a : Z) : Z.land a 0xFF = a `mod` 256.
Proof. change 0xFF with (Z.ones 8). apply Z.land_ones. lia. Qed.

(** ** The arithmetic group: 8xy4, 8xy5, 8xy7 *)

Lemma execute_8xyn (rnd opcode : Z) :
  Z.land opcode 0xF000 = 0x8000 →
  execute rnd opcode =
    exec_8 (Z.shiftr (Z.land opcode 0x0F00) 8)
           (Z.shiftr (Z.land opcode 0x00F0) 4) (Z.land opcode 0x000F).
Proof. intros H. dispatch H. reflexivity. Qed.

Section alu.
Variables (s : Chip8) (x y : Z).
Hypothesis HV : length (V s) = 16%nat.
Hypothesis Hx : 0 ≤ x ≤ 15.
Hypothesis Hy : 0 ≤ y ≤ 15.

(** ADD reads both operands before it writes the flag. *)
Lemma exec_8_add :
  exec_8 x y 4 s =
    (Ok tt,
     set_V (<[Z.to_nat x:=alu_result 4 (reg s x) (reg s y)]>
              (<[15%nat:=alu_flag 4 (reg s x) (reg s y)]> (V s))) s).
Proof.
  unfold exec_8. cbn [Z.eqb Pos.eqb]. repeat regs_step.
  fields. by rewrite land_255.
Qed.

(** SUB and SUBN read their operands again after the flag is written; the
    operands are the old ones when neither register is VF. *)
Lemma exec_8_sub :
  x ≠ 15 → y ≠ 15 →
  exec_8 x y 5 s =
    (Ok tt,
     set_V (<[Z.to_nat x:=alu_result 5 (reg s x) (reg s y)]>
              (<[15%nat:=alu_flag 5 (reg s x) (reg s y)]> (V s))) s).
Proof.
  intros Hx15 Hy15. unfold exec_8. cbn [Z.eqb Pos.eqb]. repeat regs_step.
  fields. rewrite land_255.
  rewrite !(reg_set_V_ne s (V s) 15) by lia.
  by destruct s.
Qed.

Lemma exec_8_subn :
  x ≠ 15 → y ≠ 15 →
  exec_8 x y 7 s =
    (Ok tt,
     set_V (<[Z.to_nat x:=alu_result 7 (reg s x) (reg s y)]>
              (<[15%nat:=alu_flag 7 (reg s x) (reg s y)]> (V s))) s).
Proof.
  intros Hx15 Hy15. unfold exec_8. cbn [Z.eqb Pos.eqb]. repeat regs_step.
  fields. rewrite land_255.
  rewrite !(reg_set_V_ne s (V s) 15) by lia.
  by destruct s.
Qed.
End alu.

(** C4, as the code has it.  For an opcode 8xy4, 8xy5 or 8xy7 whose target
    register Vx is not VF - and, for 8xy5 and 8xy7, whose operand Vy is not
    VF either - VF is afterwards exactly the carry or borrow condition and
    Vx the arithmetic result truncated to 8 bits, both taken on the register
    values before the instruction.  When Vx is VF the result is written
    after the flag: after 8Fy4, VF holds the truncated sum and not the
    carry. *)
Theorem alu_flag_and_result (rnd : Z) (s : Chip8) (opcode : Z) :
  let x := Z.shiftr (Z.land opcode 0x0F00) 8 in
  let y := Z.shiftr (Z.land opcode 0x00F0) 4 in
  let n := Z.land opcode 0x000F in
  fetch s = (Ok opcode, s) →
  length (V s) = 16%nat →
  Z.land opcode 0xF000 = 0x8000 →
  (x ≠ 0xF →
   n = 4 ∨ ((n = 5 ∨ n = 7) ∧ y ≠ 0xF) →
   ∃ s', cycle rnd s = (Ok tt, s')
         ∧ reg s' 0xF = alu_flag n (reg s x) (reg s y)
         ∧ reg s' x = alu_result n (reg s x) (reg s y))
  ∧ (x = 0xF →
     n = 4 →
     ∃ s', cycle rnd s = (Ok tt, s')
           ∧ reg s' 0xF = alu_result 4 (reg s 0xF) (reg s y)).
Proof.
  intros x y n Hf HV Hop.
  pose proof (field_x_range opcode) as Hx.
  pose proof (field_y_range opcode) as Hy.
  rewrite (cycle_fetched _ _ _ Hf), (execute_8xyn _ _ Hop).
  fold x y n in Hx, Hy |- *.
  set (s1 := set_pc (pc s + 2) s).
  assert (HV1 : length (V s1) = 16%nat) by exact HV.
  change (reg s) with (reg s1).
  split.
  - intros Hx15 [Hn|[[Hn|Hn] Hy15]]; rewrite Hn.
    + rewrite (exec_8_add s1 x y HV1 Hx Hy). eexists. split; [reflexivity|].
      split.
      * rewrite reg_set_V_ne by lia. apply (reg_set_V_eq s1 (V s1) 15). lia.
      * apply reg_set_V_eq. rewrite length_insert. lia.
    + rewrite (exec_8_sub s1 x y HV1 Hx Hy Hx15 Hy15).
      eexists. split; [reflexivity|]. split.
      * rewrite reg_set_V_ne by lia. apply (reg_set_V_eq s1 (V s1) 15). lia.
      * apply reg_set_V_eq. rewrite length_insert. lia.
    + rewrite (exec_8_subn s1 x y HV1 Hx Hy Hx15 Hy15).
      eexists. split; [reflexivity|]. split.
      * rewrite reg_set_V_ne by lia. apply (reg_set_V_eq s1 (V s1) 15). lia.
      * apply reg_set_V_eq. rewrite length_insert. lia.
  - intros Hx15 Hn. rewrite Hn, (exec_8_add s1 x y HV1 Hx Hy).
    eexists. split; [reflexivity|].
    rewrite Hx15. apply (reg_set_V_eq s1 _ 15). rewrite length_insert. lia.
Qed.

Lemma alu_flag_and_result_witness :
  ∃ s', cycle 0 before_sub = (Ok tt, s')
        ∧ reg s' 0xF = alu_flag 5 5 3
        ∧ reg s' 0 = alu_result 5 5 3.
Proof.
  assert (Hf : fetch before_sub = (Ok 0x8015, before_sub))
    by (vm_compute; reflexivity).
  assert (HV : length (V before_sub) = 16%nat) by (vm_compute; reflexivity).
  destruct (alu_flag_and_result 0 before_sub 0x8015 Hf HV eq_refl) as [Hx _].
  apply Hx.
  - vm_compute. discriminate.
  - right. split; [left; reflexivity | vm_compute; discriminate].
Defined.

(** C4 as stated fails when Vx is VF: after LD VF, 3 and LD V0, 4, the
    instruction ADD VF, V0 (8F04) leaves 7 in VF, and the carry condition of
    3 + 4 is 0. *)
Lemma add_to_vf_not_carry :
  fetch before_add_to_vf = (Ok 0x8F04, before_add_to_vf)
  ∧ reg before_add_to_vf 0xF = 3
  ∧ reg before_add_to_vf 0 = 4
  ∧ fst (cycle 0 before_add_to_vf) = Ok tt
  ∧ reg (snd (cycle 0 before_add_to_vf)) 0xF = 7
  ∧ alu_flag 4 3 4 = 0.
Proof. vm_compute. repeat split. Qed.

(** With Vy being VF, SUB takes the flag it has just written for its second
    operand: V0 = 5, VF = 3 and SUB V0, VF give V0 = 5 - 1. *)
Lemma sub_vf_reads_flag :
  fetch before_sub_vf = (Ok 0x80F5, before_sub_vf)
  ∧ reg before_sub_vf 0 = 5
  ∧ reg before_sub_vf 0xF = 3
  ∧ reg (snd (cycle 0 before_sub_vf)) 0 = 4
  ∧ alu_result 5 5 3 = 2.
Proof. vm_compute. repeat split. Qed.

(** ** Frame rules *)

Section frames.
Context {B : Type} (f : Chip8 → B).

Lemma keeps_ret {A} (a : A) : keeps f (mret a).
Proof. by intros s. Qed.

Lemma keeps_raise {A} (e : exn) : keeps f (raise e : M A).
Proof. by intros s. Qed.

Lemma keeps_gets {A} (g : Chip8 → A) : keeps f (gets g).
Proof. by intros s. Qed.

Lemma keeps_lift {A} (o : option A) : keeps f (lift o).
Proof. by destruct o; intros s. Qed.

Lemma keeps_modify (g : Chip8 → Chip8) :
  (∀ s, f (g s) = f s) → keeps f (modify g).
Proof. intros H s. apply H. Qed.

Lemma keeps_bind {A C} (m : M A) (k : A → M C) :
  keeps f m → (∀ a, keeps f (k a)) → keeps f (m ≫= k).
Proof.
  intros Hm Hk s. rewrite run_bind. specialize (Hm s).
  destruct (m s) as [[a|e] s']; simpl in *.
  - by rewrite Hk.
  - exact Hm.
Qed.

Lemma keeps_for {A} (xs : list A) (body : A → M unit) :
  (∀ x, keeps f (body x)) → keeps f (for_ xs body).
Proof.
  intros Hbody. induction xs as [|x xs IH]; simpl.
  - apply keeps_ret.
  - apply keeps_bind; [apply Hbody | intros _; exact IH].
Qed.
End frames.

Create HintDb frame.
#[local] Hint Resolve keeps_ret keeps_raise keeps_gets keeps_lift
  keeps_bind keeps_for : frame.
#[local] Hint Extern 1 (keeps _ (modify _)) =>
  apply keeps_modify; intros; reflexivity : frame.
#[local] Hint Extern 2 (keeps _ (mem_read _)) => unfold mem_read : frame.
#[local] Hint Extern 2 (keeps _ (mem_write _ _)) => unfold mem_write : frame.
#[local] Hint Extern 2 (keeps _ (getV _)) => unfold getV : frame.
#[local] Hint Extern 2 (keeps _ (setV _ _)) => unfold setV : frame.
#[local] Hint Extern 3 (keeps _ _) => progress intros : frame.

(** ** Fx55 and Fx65 *)

Lemma execute_Fxkk (rnd opcode : Z) :
  Z.land opcode 0xF000 = 0xF000 →
  execute rnd opcode =
    exec_F (Z.shiftr (Z.land opcode 0x0F00) 8) (Z.land opcode 0x00FF).
Proof. intros H. dispatch H. reflexivity. Qed.

Lemma store_keeps_I (x : Z) : keeps I (exec_F x 0x55).
Proof. unfold exec_F. cbn [Z.eqb Pos.eqb]. eauto 10 with frame. Qed.

Lemma store_keeps_V (x : Z) : keeps V (exec_F x 0x55).
Proof. unfold exec_F. cbn [Z.eqb Pos.eqb]. eauto 10 with frame. Qed.

Lemma load_keeps_I (x : Z) : keeps I (exec_F x 0x65).
Proof. unfold exec_F. cbn [Z.eqb Pos.eqb]. eauto 10 with frame. Qed.

(** C9.  Fx55 and Fx65 leave the index register I as it was - whether the
    instruction finishes or raises on the way - and Fx55 leaves every
    register V0..VF as it was. *)
Theorem store_load_keep_I (rnd : Z) (s : Chip8) (opcode : Z) :
  let kk := Z.land opcode 0x00FF in
  fetch s = (Ok opcode, s) →
  Z.land opcode 0xF000 = 0xF000 →
  kk = 0x55 ∨ kk = 0x65 →
  I (snd (cycle rnd s)) = I s
  ∧ (kk = 0x55 → V (snd (cycle rnd s)) = V s).
Proof.
  intros kk Hf Hop Hkk.
  rewrite (cycle_fetched _ _ _ Hf), (execute_Fxkk _ _ Hop). fold kk.
  split.
  - destruct Hkk as [-> | ->].
    + by rewrite store_keeps_I.
    + by rewrite load_keeps_I.
  - intros ->. by rewrite store_keeps_V.
Qed.

Lemma store_load_keep_I_witness :
  (I (snd (cycle 0 before_store)) = I before_store
   ∧ (Z.land 0xF255 0x00FF = 0x55 →
      V (snd (cycle 0 before_store)) = V before_store))
  ∧ I (snd (cycle 0 before_load)) = I before_load.
Proof.
  assert (Hstore : fetch before_store = (Ok 0xF255, before_store))
    by (vm_compute; reflexivity).
  assert (Hload : fetch before_load = (Ok 0xF265, before_load))
    by (vm_compute; reflexivity).
  split.
  - exact (store_load_keep_I 0 before_store 0xF255 Hstore eq_refl
             (or_introl eq_refl)).
  - exact (proj1 (store_load_keep_I 0 before_load 0xF265 Hload eq_refl
                    (or_intror eq_refl))).
Defined.

(** ** Determinism *)

Lemma execute_rnd_irrelevant (rnd1 rnd2 opcode : Z) :
  Z.land opcode 0xF000 ≠ 0xC000 →
  execute rnd1 opcode = execute rnd2 opcode.
Proof.
  intros H. apply Z.eqb_neq in H. unfold execute. rewrite H. reflexivity.
Qed.

(** C10.  In a state whose fetched opcode is not of the form Cxkk, the
    outcome and the resulting state of [cycle] are a function of the state
    alone: they do not depend on the random value, the one input of the
    cycle that is not part of the state. *)
Theorem cycle_deterministic (s : Chip8) (opcode : Z) :
  fetch s = (Ok opcode, s) →
  Z.land opcode 0xF000 ≠ 0xC000 →
  ∀ rnd1 rnd2, cycle rnd1 s = cycle rnd2 s.
Proof.
  intros Hf Hop rnd1 rnd2. rewrite !(cycle_fetched _ _ _ Hf).
  by rewrite (execute_rnd_irrelevant rnd1 rnd2).
Qed.

Lemma cycle_deterministic_witness : cycle 1 at_8008 = cycle 2 at_8008.
Proof.
  apply (cycle_deterministic at_8008 0x8008);
    [vm_compute; reflexivity | vm_compute; discriminate].
Defined.

(** A cycle whose fetch raises does not depend on the random value either. *)
Lemma cycle_deterministic_no_fetch (s : Chip8) (e : exn) :
  fetch s = (Raise e, s) → ∀ rnd1 rnd2, cycle rnd1 s = cycle rnd2 s.
Proof. intros Hf rnd1 rnd2. by rewrite !(cycle_not_fetched _ _ _ Hf). Qed.

(** On Cxkk the random value shows in the result. *)
Lemma rnd_is_observable :
  fetch at_rnd = (Ok 0xC0FF, at_rnd)
  ∧ reg (snd (cycle 1 at_rnd)) 0 = 1
  ∧ reg (snd (cycle 2 at_rnd)) 0 = 2.
Proof. vm_compute. repeat split. Qed.

(** ** Fx0A: waiting for a key *)

Lemma key_getitem (s : Chip8) (i : Z) :
  length (keys s) = 16%nat → 0 ≤ i ≤ 15 → getitem (keys s) i = Some (key s i).
Proof.
  intros Hlen Hi. unfold key.
  destruct (getitem_is_Some (keys s) i) as [v ->]; [lia | reflexivity].
Qed.

Lemma get_key_run (s : Chip8) (i : Z) :
  length (keys s) = 16%nat → 0 ≤ i ≤ 15 → get_key i s = (Ok (key s i), s).
Proof.
  intros Hlen Hi. unfold_stmt. by rewrite (key_getitem s i Hlen Hi).
Qed.

Section scan.
Variable s : Chip8.
Hypothesis Hkeys : length (keys s) = 16%nat.

(** The scan of the keys [a], [a+1], ..., [a+n-1] when none is pressed. *)
Lemma scan_keys_none (n : nat) (a : Z) :
  0 ≤ a → a + Z.of_nat n ≤ 16 →
  (∀ j, a ≤ j < a + Z.of_nat n → key s j = 0) →
  scan_keys (seqZ a (Z.of_nat n)) s = (Ok None, s).
Proof.
  revert a. induction n as [|n IH]; intros a Ha Hn Hzero; [reflexivity|].
  rewrite seqZ_cons by lia. cbn [scan_keys].
  rewrite (bind_ok _ _ _ _ _ (get_key_run s a Hkeys ltac:(lia))).
  rewrite (Hzero a) by lia. cbn [Z.eqb negb].
  replace (Z.pred (Z.of_nat (S n))) with (Z.of_nat n) by lia.
  apply IH; [lia | lia | intros j Hj; apply Hzero; lia].
Qed.

(** The scan stops at the first pressed key. *)
Lemma scan_keys_found (n : nat) (a i : Z) :
  0 ≤ a → a + Z.of_nat n ≤ 16 → a ≤ i < a + Z.of_nat n →
  (∀ j, a ≤ j < i → key s j = 0) → key s i ≠ 0 →
  scan_keys (seqZ a (Z.of_nat n)) s = (Ok (Some i), s).
Proof.
  revert a. induction n as [|n IH]; intros a Ha Hn Hi Hzero Hpressed; [lia|].
  rewrite seqZ_cons by lia. cbn [scan_keys].
  rewrite (bind_ok _ _ _ _ _ (get_key_run s a Hkeys ltac:(lia))).
  destruct (decide (i = a)) as [->|Hne].
  - apply Z.eqb_neq in Hpressed. rewrite Hpressed. reflexivity.
  - rewrite (Hzero a) by lia. cbn [Z.eqb negb].
    replace (Z.pred (Z.of_nat (S n))) with (Z.of_nat n) by lia.
    apply IH; [lia | lia | lia | intros j Hj; apply Hzero; lia | exact Hpressed].
Qed.
End scan.

Lemma set_pc_back (s : Chip8) : set_pc (pc s + 2 + -2) (set_pc (pc s + 2) s) = s.
Proof. destruct s. unfold set_pc. fields. f_equal. lia. Qed.

Lemma cycles_idle (s : Chip8) (rnds : list Z) :
  (∀ rnd, cycle rnd s = (Ok tt, s)) → cycles rnds s = (Ok tt, s).
Proof.
  intros Hidle. unfold cycles. induction rnds as [|rnd rnds IH]; [reflexivity|].
  cbn [for_]. by rewrite (bind_ok _ _ _ _ _ (Hidle rnd)).
Qed.

Lemma fetch_set_keys (s : Chip8) (ks : list Z) (r : outcome Z) :
  fetch s = (r, s) → fetch (set_keys ks s) = (r, set_keys ks s).
Proof.
  unfold fetch. unfold_stmt.
  change (memory (set_keys ks s)) with (memory s).
  change (pc (set_keys ks s)) with (pc s).
  destruct (getitem (memory s) (pc s)) as [hi|]; fields;
    [destruct (getitem (memory s) (pc s + 1)) as [lo|]|];
    by intros [= <-].
Qed.

Lemma key_event_run (s : Chip8) (k : Z) (pressed : bool) :
  length (keys s) = 16%nat → 0 ≤ k ≤ 15 →
  key_event k pressed s =
    (Ok tt, set_keys (<[Z.to_nat k:=if pressed then 1 else 0]> (keys s)) s).
Proof.
  intros Hlen Hk. unfold key_event. unfold_stmt.
  by rewrite setitem_nonneg by lia.
Qed.

(** The cycle on Fx0A, in terms of the first pressed key. *)
Lemma cycle_wait (rnd : Z) (s : Chip8) (opcode : Z) :
  fetch s = (Ok opcode, s) →
  length (V s) = 16%nat →
  length (keys s) = 16%nat →
  Z.land opcode 0xF000 = 0xF000 →
  Z.land opcode 0x00FF = 0x0A →
  ((∀ j, 0 ≤ j ≤ 15 → key s j = 0) → cycle rnd s = (Ok tt, s))
  ∧ (∀ i, 0 ≤ i ≤ 15 → key s i ≠ 0 → (∀ j, 0 ≤ j < i → key s j = 0) →
     cycle rnd s =
       (Ok tt,
        set_V (<[Z.to_nat (Z.shiftr (Z.land opcode 0x0F00) 8):=i]> (V s))
              (set_pc (pc s + 2) s))).
Proof.
  intros Hf HV Hkeys Hop Hkk.
  pose proof (field_x_range opcode) as Hx.
  rewrite (cycle_fetched _ _ _ Hf), (execute_Fxkk _ _ Hop), Hkk.
  unfold exec_F. cbn [Z.eqb Pos.eqb].
  set (s1 := set_pc (pc s + 2) s).
  assert (Hkeys1 : length (keys s1) = 16%nat) by exact Hkeys.
  change (range 16) with (seqZ 0 (Z.of_nat 16)).
  split.
  - intros Hzero.
    rewrite (bind_ok _ _ _ _ _ (scan_keys_none s1 Hkeys1 16 0 ltac:(lia)
               ltac:(lia) ltac:(intros j Hj; apply Hzero; lia))).
    unfold pc_add, modify, s1. fields. by rewrite set_pc_back.
  - intros i Hi Hpressed Hzero.
    rewrite (bind_ok _ _ _ _ _ (scan_keys_found s1 Hkeys1 16 0 i ltac:(lia)
               ltac:(lia) ltac:(lia) ltac:(intros j Hj; apply Hzero; lia)
               Hpressed)).
    by rewrite setV_run by (exact HV || lia).
Qed.

(** C7.  Let the fetched instruction be Fx0A.  With no key pressed the cycle
    leaves the whole state as it was - the program counter, advanced by 2 at
    the fetch, is set back by 2 - so any number of further cycles does the
    same.  With a key pressed, Vx receives the lowest index of a pressed key
    and the program counter is advanced by 2.  In particular, after any
    number of cycles without a key, the first cycle after a key press puts
    this key into Vx and advances the program counter by 2. *)
Theorem wait_for_key (rnd : Z) (s : Chip8) (opcode : Z) :
  let x := Z.shiftr (Z.land opcode 0x0F00) 8 in
  fetch s = (Ok opcode, s) →
  length (V s) = 16%nat →
  length (keys s) = 16%nat →
  Z.land opcode 0xF000 = 0xF000 →
  Z.land opcode 0x00FF = 0x0A →
  ((∀ j, 0 ≤ j ≤ 15 → key s j = 0) →
     cycle rnd s = (Ok tt, s)
     ∧ (∀ rnds, cycles rnds s = (Ok tt, s))
     ∧ (∀ rnds k, 0 ≤ k ≤ 15 →
          (cycles rnds;; key_event k true;; cycle rnd) s =
            (Ok tt,
             set_V (<[Z.to_nat x:=k]> (V s))
               (set_pc (pc s + 2)
                  (set_keys (<[Z.to_nat k:=1]> (keys s)) s)))))
  ∧ (∀ i, 0 ≤ i ≤ 15 → key s i ≠ 0 → (∀ j, 0 ≤ j < i → key s j = 0) →
     cycle rnd s =
       (Ok tt, set_V (<[Z.to_nat x:=i]> (V s)) (set_pc (pc s + 2) s))).
Proof.
  intros x Hf HV Hkeys Hop Hkk. split.
  - intros Hzero.
    assert (Hidle : ∀ r, cycle r s = (Ok tt, s)).
    { intros r. by apply (cycle_wait r s opcode Hf HV Hkeys Hop Hkk). }
    split; [apply Hidle|]. split; [intros rnds; by apply cycles_idle|].
    intros rnds k Hk.
    rewrite (bind_ok _ _ _ _ _ (cycles_idle s rnds Hidle)).
    rewrite (bind_ok _ _ _ _ _ (key_event_run s k true Hkeys Hk)).
    set (s' := set_keys (<[Z.to_nat k:=1]> (keys s)) s).
    assert (Hkeys' : length (keys s') = 16%nat).
    { unfold s'. fields. by rewrite length_insert. }
    assert (Hkey : ∀ j, 0 ≤ j → key s' j = if decide (j = k) then 1 else key s j).
    { intros j Hj. unfold key, s'. fields. case_decide as Hjk.
      - subst j. by rewrite getitem_insert_eq by lia.
      - by rewrite getitem_insert_ne by lia. }
    apply (cycle_wait rnd s' opcode (fetch_set_keys _ _ _ Hf) HV Hkeys' Hop Hkk);
      [exact Hk | |].
    + rewrite Hkey by lia. by rewrite decide_True.
    + intros j Hj. rewrite Hkey by lia. rewrite decide_False by lia.
      apply Hzero. lia.
  - by apply (cycle_wait rnd s opcode Hf HV Hkeys Hop Hkk).
Qed.


Lemma wait_for_key_witness :
  cycle 0 at_wait = (Ok tt, at_wait)
  ∧ cycle 0 at_wait_pressed =
      (Ok tt,
       set_V (<[Z.to_nat (Z.shiftr (Z.land 0xF30A 0x0F00) 8):=7]>
                (V at_wait_pressed))
             (set_pc (pc at_wait_pressed + 2) at_wait_pressed)).
Proof.
  split.
  - assert (Hf : fetch at_wait = (Ok 0xF30A, at_wait))
      by (vm_compute; reflexivity).
    assert (HV : length (V at_wait) = 16%nat) by (vm_compute; reflexivity).
    assert (Hk : length (keys at_wait) = 16%nat) by (vm_compute; reflexivity).
    destruct (wait_for_key 0 at_wait 0xF30A Hf HV Hk eq_refl eq_refl)
      as [Hidle _].
    refine (proj1 (Hidle _)). intros j Hj.
    assert (Hkeys : keys at_wait = replicate 16 0) by (vm_compute; reflexivity).
    unfold key. rewrite Hkeys.
    assert (Hcases : j = 0 ∨ j = 1 ∨ j = 2 ∨ j = 3 ∨ j = 4 ∨ j = 5 ∨ j = 6
                     ∨ j = 7 ∨ j = 8 ∨ j = 9 ∨ j = 10 ∨ j = 11 ∨ j = 12
                     ∨ j = 13 ∨ j = 14 ∨ j = 15) by lia.
    repeat (destruct Hcases as [->|Hcases]; [reflexivity|]).
    subst j. reflexivity.
  - assert (Hf : fetch at_wait_pressed = (Ok 0xF30A, at_wait_pressed))
      by (vm_compute; reflexivity).
    assert (HV : length (V at_wait_pressed) = 16%nat)
      by (vm_compute; reflexivity).
    assert (Hk : length (keys at_wait_pressed) = 16%nat)
      by (vm_compute; reflexivity).
    destruct (wait_for_key 0 at_wait_pressed 0xF30A Hf HV Hk eq_refl eq_refl)
      as [_ Hpressed].
    apply (Hpressed 7).
    + lia.
    + vm_compute. discriminate.
    + intros j Hj.
      assert (Hkeys : keys at_wait_pressed
                      = [0; 0; 0; 0; 0; 0; 0; 1; 0; 1; 0; 0; 0; 0; 0; 0])
        by (vm_compute; reflexivity).
      unfold key. rewrite Hkeys.
      assert (Hcases : j = 0 ∨ j = 1 ∨ j = 2 ∨ j = 3 ∨ j = 4 ∨ j = 5 ∨ j = 6)
        by lia.
      destruct Hcases as [->|[->|[->|[->|[->|[->| ->]]]]]]; reflexivity.
Defined.

(** ** Loading a ROM *)

Lemma mem_write_run (s : Chip8) (addr v : Z) :
  0 ≤ addr < Z.of_nat (length (memory s)) →
  mem_write addr v s =
    (Ok tt, set_memory (<[Z.to_nat addr:=v]> (memory s)) s).
Proof. intros H. unfold_stmt. by rewrite setitem_nonneg by lia. Qed.

Lemma mem_write_beyond (s : Chip8) (addr v : Z) :
  Z.of_nat (length (memory s)) ≤ addr →
  mem_write addr v s = (Raise IndexError, s).
Proof. intros H. unfold_stmt. by rewrite setitem_beyond by lia. Qed.

Lemma set_memory_id (s : Chip8) : set_memory (memory s) s = s.
Proof. by destruct s. Qed.

Lemma set_memory_twice (m m' : list Z) (s : Chip8) :
  set_memory m (set_memory m' s) = set_memory m s.
Proof. reflexivity. Qed.

Lemma enumerate_cons {A} (a : Z) (b : A) (l : list A) :
  zip (seqZ a (Z.of_nat (length (b :: l)))) (b :: l) =
  (a, b) :: zip (seqZ (a + 1) (Z.of_nat (length l))) l.
Proof.
  rewrite seqZ_cons by (cbn [length]; lia). cbn [zip_with length].
  do 3 f_equal; lia.
Qed.

(** The loop of [load_rom] from the [a]-th byte on, when the bytes fit. *)
Lemma load_loop_fits (rom : list Z) (a : nat) (s : Chip8) :
  (512 + a + length rom ≤ length (memory s))%nat →
  for_ (zip (seqZ (Z.of_nat a) (Z.of_nat (length rom))) rom)
       (λ '(i, byte), mem_write (0x200 + i) byte) s =
    (Ok tt,
     set_memory (take (512 + a) (memory s) ++ rom
                 ++ drop (512 + a + length rom) (memory s)) s).
Proof.
  revert a s. induction rom as [|b rom IH]; intros a s Hfit.
  - cbn. rewrite Nat.add_0_r, take_drop. by rewrite set_memory_id.
  - rewrite enumerate_cons. cbn [for_ length] in *.
    rewrite (bind_ok _ _ _ _ _ (mem_write_run s (0x200 + Z.of_nat a) b ltac:(lia))).
    replace (Z.of_nat a + 1) with (Z.of_nat (S a)) by lia.
    replace (Z.to_nat (0x200 + Z.of_nat a)) with (512 + a)%nat by lia.
    rewrite IH by (fields; rewrite length_insert; lia).
    fields. rewrite set_memory_twice. do 2 f_equal.
    replace (512 + S a)%nat with (S (512 + a)) by lia.
    rewrite (take_S_r _ _ b) by (apply list_lookup_insert_eq; lia).
    rewrite take_insert_ge by lia.
    rewrite drop_insert_lt by lia.
    rewrite <- app_assoc. cbn [app]. do 4 f_equal. lia.
Qed.

(** The same loop when the bytes do not fit: it stops at the first byte that
    would go past the end of the memory. *)
Lemma load_loop_overflows (rom : list Z) (a : nat) (s : Chip8) :
  (512 + a ≤ length (memory s))%nat →
  (length (memory s) < 512 + a + length rom)%nat →
  for_ (zip (seqZ (Z.of_nat a) (Z.of_nat (length rom))) rom)
       (λ '(i, byte), mem_write (0x200 + i) byte) s =
    (Raise IndexError,
     set_memory (take (512 + a) (memory s)
                 ++ take (length (memory s) - (512 + a)) rom) s).
Proof.
  revert a s. induction rom as [|b rom IH]; intros a s Hlow Hover.
  - cbn [length] in Hover. lia.
  - rewrite enumerate_cons. cbn [for_ length] in *.
    destruct (decide (length (memory s) = 512 + a)%nat) as [Hend|Hmore].
    + rewrite (bind_raise _ _ _ _ _ (mem_write_beyond s (0x200 + Z.of_nat a) b ltac:(lia))).
      rewrite Hend, Nat.sub_diag, take_0, app_nil_r, <- Hend, firstn_all.
      by rewrite set_memory_id.
    + rewrite (bind_ok _ _ _ _ _ (mem_write_run s (0x200 + Z.of_nat a) b ltac:(lia))).
      replace (Z.of_nat a + 1) with (Z.of_nat (S a)) by lia.
      replace (Z.to_nat (0x200 + Z.of_nat a)) with (512 + a)%nat by lia.
      rewrite IH by (fields; rewrite length_insert; lia).
      fields. rewrite set_memory_twice, length_insert. do 2 f_equal.
      replace (512 + S a)%nat with (S (512 + a)) by lia.
      rewrite (take_S_r _ _ b) by (apply list_lookup_insert_eq; lia).
      rewrite take_insert_ge by lia.
      replace (length (memory s) - (512 + a))%nat
        with (S (length (memory s) - S (512 + a))) by lia.
      rewrite <- app_assoc. reflexivity.
Qed.

Lemma load_rom_fits (rom : list Z) (s : Chip8) :
  (512 + length rom ≤ length (memory s))%nat →
  load_rom rom s =
    (Ok tt,
     set_memory (take 512 (memory s) ++ rom
                 ++ drop (512 + length rom) (memory s)) s).
Proof.
  intros Hfit. unfold load_rom, enumerate.
  pose proof (load_loop_fits rom 0 s ltac:(lia)) as H.
  rewrite !Nat.add_0_r in H. exact H.
Qed.

Lemma load_rom_overflows (rom : list Z) (s : Chip8) :
  (512 ≤ length (memory s))%nat →
  (length (memory s) < 512 + length rom)%nat →
  load_rom rom s =
    (Raise IndexError,
     set_memory (take 512 (memory s)
                 ++ take (length (memory s) - 512) rom) s).
Proof.
  intros Hlow Hover. unfold load_rom, enumerate.
  pose proof (load_loop_overflows rom 0 s ltac:(lia) ltac:(lia)) as H.
  rewrite !Nat.add_0_r in H. exact H.
Qed.

Lemma init_memory_length : length (memory init) = 4096%nat.
Proof. vm_compute. reflexivity. Qed.

(** C2, as the code has it.  [Chip8.load_rom] has no length check of its own.
    On a memory of 4096 bytes, an input of at most 3584 bytes is written
    verbatim from address 0x200 on and every other address keeps its byte;
    the host's [App.load_rom] then reports success on a fresh machine.  An
    input of more than 3584 bytes is rejected by [App.load_rom] before any
    machine is created or written (the application keeps the machine it
    had); [Chip8.load_rom] itself, given such an input, writes its first
    3584 bytes and then raises IndexError. *)
Theorem load_rom_fits_or_rejected
    (rom : list Z) (s : Chip8) (chip8 : option Chip8) :
  length (memory s) = 4096%nat →
  ((length rom ≤ 3584)%nat →
     let loaded :=
       take 512 (memory s) ++ rom ++ drop (512 + length rom) (memory s) in
     load_rom rom s = (Ok tt, set_memory loaded s)
     ∧ (∀ i : nat, (i < length rom)%nat → loaded !! (512 + i)%nat = rom !! i)
     ∧ (∀ a : nat, (a < 512 ∨ 512 + length rom ≤ a)%nat →
          loaded !! a = memory s !! a)
     ∧ App_load_rom rom chip8 = (Loaded, Some (snd (load_rom rom init))))
  ∧ ((3584 < length rom)%nat →
     App_load_rom rom chip8 = (TooLarge, chip8)
     ∧ load_rom rom s =
         (Raise IndexError,
          set_memory (take 512 (memory s) ++ take 3584 rom) s)).
Proof.
  intros Hmem. split.
  - intros Hlen loaded. split; [apply load_rom_fits; lia|].
    split; [|split].
    + intros i Hi. unfold loaded.
      rewrite lookup_app_r by (rewrite length_take; lia).
      rewrite length_take, Hmem.
      replace (512 + i - 512 `min` 4096)%nat with i by lia.
      by rewrite lookup_app_l by lia.
    + intros a [Ha|Ha]; unfold loaded.
      * rewrite lookup_app_l by (rewrite length_take; lia).
        by rewrite lookup_take_lt by lia.
      * rewrite lookup_app_r by (rewrite length_take; lia).
        rewrite lookup_app_r by (rewrite length_take; lia).
        rewrite lookup_drop, length_take, Hmem. f_equal. lia.
    + unfold App_load_rom.
      replace (MEMORY_SIZE - 0x200 <? Z.of_nat (length rom)) with false
        by (symmetry; apply Z.ltb_ge; unfold MEMORY_SIZE; lia).
      rewrite (load_rom_fits rom init) by (rewrite init_memory_length; lia).
      reflexivity.
  - intros Hlen. split.
    + unfold App_load_rom.
      replace (MEMORY_SIZE - 0x200 <? Z.of_nat (length rom)) with true
        by (symmetry; apply Z.ltb_lt; unfold MEMORY_SIZE; lia).
      reflexivity.
    + rewrite load_rom_overflows by lia. by rewrite Hmem.
Qed.

Lemma load_rom_fits_or_rejected_witness :
  (load_rom full_rom init =
     (Ok tt,
      set_memory (take 512 (memory init) ++ full_rom
                  ++ drop (512 + length full_rom) (memory init)) init))
  ∧ App_load_rom oversize_rom (Some init) = (TooLarge, Some init).
Proof.
  pose proof (load_rom_fits_or_rejected full_rom init None init_memory_length)
    as [Hfits _].
  pose proof (load_rom_fits_or_rejected oversize_rom init (Some init)
                init_memory_length) as [_ Hover].
  split.
  - refine (proj1 (Hfits _)). vm_compute. lia.
  - refine (proj1 (Hover _)). vm_compute. lia.
Defined.

(** C2 as stated fails for [Chip8.load_rom]: on a ROM of 3585 bytes it
    raises IndexError, not before but after it has written 3584 of them. *)
Lemma load_rom_oversize_mutates :
  length oversize_rom = 3585%nat
  ∧ fst (load_rom oversize_rom init) = Raise IndexError
  ∧ memory init !! 512%nat = Some 0
  ∧ memory (snd (load_rom oversize_rom init)) !! 512%nat = Some 0xFF
  ∧ memory (snd (load_rom oversize_rom init)) !! 4095%nat = Some 0xFF.
Proof.
  assert (Hlen : length oversize_rom = 3585%nat) by apply length_replicate.
  pose proof init_memory_length as Hmem.
  rewrite (load_rom_overflows oversize_rom init) by lia.
  cbn [fst snd memory set_memory]. rewrite Hmem.
  split; [exact Hlen|]. split; [reflexivity|].
  split; [vm_compute; reflexivity|].
  assert (Hat : ∀ a : nat, (512 ≤ a < 4096)%nat →
    (take 512 (memory init) ++ take (4096 - 512) oversize_rom) !! a
    = Some 0xFF).
  { intros a Ha.
    rewrite lookup_app_r by (rewrite length_take; lia).
    rewrite length_take, Hmem, lookup_take_lt by lia.
    apply lookup_replicate_2. lia. }
  split; apply Hat; lia.
Qed.

(** ** The sprite blit *)

Lemma display_row (s : Chip8) (py : Z) :
  shaped s → 0 ≤ py < 32 →
  ∃ row, getitem (display s) py = Some row ∧ length row = 64%nat.
Proof.
  intros Hs Hpy. destruct Hs as [_ _ _ Hrows Hcols].
  destruct (getitem_is_Some (display s) py) as [row Hrow]; [lia|].
  exists row. split; [exact Hrow|].
  rewrite getitem_nonneg in Hrow by lia.
  exact (Forall_lookup_1 _ _ _ _ Hcols Hrow).
Qed.

(** What [plot] does on a pixel of the display. *)
Lemma plot_run (s : Chip8) (py px : Z) :
  shaped s → 0 ≤ py < 32 → 0 ≤ px < 64 →
  ∃ row,
    getitem (display s) py = Some row ∧ length row = 64%nat ∧
    plot py px s =
      (Ok tt,
       set_display
         (<[Z.to_nat py:=<[Z.to_nat px:=Z.lxor (pixel s py px) 1]> row]>
            (display s))
         (if pixel s py px =? 1 then set_V (<[15%nat:=1]> (V s)) s else s)).
Proof.
  intros Hs Hpy Hpx.
  destruct (display_row s py Hs Hpy) as (row & Hrow & Hlen).
  exists row. split; [exact Hrow|]. split; [exact Hlen|].
  destruct (getitem_is_Some row px) as [p Hp]; [lia|].
  assert (Hpix : pixel s py px = p).
  { unfold pixel. rewrite Hrow. cbn. by rewrite Hp. }
  rewrite Hpix. unfold plot. unfold_stmt. rewrite Hrow, Hp.
  destruct (p =? 1).
  - rewrite setitem_nonneg by (rewrite (shaped_V s Hs); lia).
    fields. rewrite Hrow, Hp.
    rewrite !setitem_nonneg by (rewrite ?(shaped_display s Hs); lia).
    reflexivity.
  - rewrite Hrow, Hp.
    rewrite !setitem_nonneg by (rewrite ?(shaped_display s Hs); lia).
    reflexivity.
Qed.

Lemma same_but_V_display_refl (s : Chip8) : same_but_V_display s s.
Proof. by repeat split. Qed.

Lemma same_but_V_display_trans (s1 s2 s3 : Chip8) :
  same_but_V_display s1 s2 → same_but_V_display s2 s3 →
  same_but_V_display s1 s3.
Proof.
  intros (?&?&?&?&?&?&?) (?&?&?&?&?&?&?). repeat split; congruence.
Qed.

Section plotted.
Variables (s : Chip8) (p : Z * Z).
Hypothesis Hs : shaped s.
Hypothesis Hp : on_display p.

Lemma plot_plotted : plot p.1 p.2 s = (Ok tt, plotted s p).
Proof.
  destruct Hp as [Hpy Hpx].
  destruct (plot_run s p.1 p.2 Hs Hpy Hpx) as (row & _ & _ & Hrun).
  unfold plotted. by rewrite Hrun.
Qed.

Lemma plotted_shaped : shaped (plotted s p).
Proof.
  destruct Hp as [Hpy Hpx].
  destruct (plot_run s p.1 p.2 Hs Hpy Hpx) as (row & Hrow & Hlen & Hrun).
  unfold plotted. rewrite Hrun. destruct Hs as [Hm HV Hk Hd Hrows].
  destruct (pixel s p.1 p.2 =? 1); split; fields;
    rewrite ?length_insert; try done;
    (apply Forall_insert; [done | by rewrite length_insert]).
Qed.

Lemma plotted_frame : same_but_V_display s (plotted s p).
Proof.
  destruct Hp as [Hpy Hpx].
  destruct (plot_run s p.1 p.2 Hs Hpy Hpx) as (row & _ & _ & Hrun).
  unfold plotted. rewrite Hrun.
  by destruct (pixel s p.1 p.2 =? 1); repeat split.
Qed.

Lemma plotted_pixel (r c : Z) :
  0 ≤ r < 32 → 0 ≤ c < 64 →
  pixel (plotted s p) r c =
    if decide ((r, c) = p) then Z.lxor (pixel s r c) 1 else pixel s r c.
Proof.
  intros Hr Hc. destruct Hp as [Hpy Hpx].
  destruct (plot_run s p.1 p.2 Hs Hpy Hpx) as (row & Hrow & Hlen & Hrun).
  unfold plotted. rewrite Hrun. cbn [snd].
  assert (Hd : length (display s) = 32%nat) by apply Hs.
  set (s2 := if pixel s p.1 p.2 =? 1 then _ else _).
  unfold pixel at 1. cbn [display set_display].
  destruct p as [py px]; cbn [fst snd] in *.
  destruct (decide (r = py)) as [->|Hne].
  - rewrite getitem_insert_eq by lia. cbn.
    destruct (decide (c = px)) as [->|Hnc].
    + rewrite decide_True by done. by rewrite getitem_insert_eq by lia.
    + rewrite decide_False by congruence.
      rewrite getitem_insert_ne by lia. unfold pixel. by rewrite Hrow.
  - rewrite decide_False by congruence.
    by rewrite getitem_insert_ne by lia.
Qed.

Lemma plotted_flag :
  reg (plotted s p) 0xF = if pixel s p.1 p.2 =? 1 then 1 else reg s 0xF.
Proof.
  destruct Hp as [Hpy Hpx].
  destruct (plot_run s p.1 p.2 Hs Hpy Hpx) as (row & _ & _ & Hrun).
  unfold plotted. rewrite Hrun. cbn [snd].
  destruct (pixel s p.1 p.2 =? 1); [|reflexivity].
  unfold reg. fields.
  by rewrite (getitem_insert_eq (V s) 15) by (rewrite (shaped_V s Hs); lia).
Qed.

Lemma plotted_reg (i : Z) :
  0 ≤ i < 15 → reg (plotted s p) i = reg s i.
Proof.
  intros Hi. destruct Hp as [Hpy Hpx].
  destruct (plot_run s p.1 p.2 Hs Hpy Hpx) as (row & _ & _ & Hrun).
  unfold plotted. rewrite Hrun. cbn [snd].
  destruct (pixel s p.1 p.2 =? 1); [|reflexivity].
  unfold reg. fields.
  by rewrite (getitem_insert_ne (V s) 15) by lia.
Qed.
End plotted.

Lemma existsb_ext_in {A} (f g : A → bool) (l : list A) :
  (∀ x, x ∈ l → f x = g x) → existsb f l = existsb g l.
Proof.
  induction l as [|x l IH]; intros Hfg; [reflexivity|].
  cbn [existsb]. rewrite (Hfg x) by left.
  rewrite IH; [reflexivity|]. intros y Hy. apply Hfg. by right.
Qed.

(** Plotting a list of pixels of the display succeeds, and touches the
    registers V0..VE and everything but VF and the display not at all. *)
Lemma plot_all (pts : list (Z * Z)) (s : Chip8) :
  shaped s → Forall on_display pts →
  for_ pts (λ p, plot p.1 p.2) s = (Ok tt, foldl plotted s pts)
  ∧ shaped (foldl plotted s pts)
  ∧ same_but_V_display s (foldl plotted s pts)
  ∧ (∀ i, 0 ≤ i < 15 → reg (foldl plotted s pts) i = reg s i).
Proof.
  revert s. induction pts as [|p pts IH]; intros s Hs Hpts.
  - split; [reflexivity|]. split; [exact Hs|].
    split; [apply same_but_V_display_refl | done].
  - apply Forall_cons in Hpts as [Hp Hpts]. cbn [for_ foldl].
    rewrite (bind_ok _ _ _ _ _ (plot_plotted s p Hs Hp)).
    destruct (IH (plotted s p) (plotted_shaped s p Hs Hp) Hpts)
      as (Hrun & Hshaped & Hframe & Hregs).
    split; [exact Hrun|]. split; [exact Hshaped|]. split.
    + exact (same_but_V_display_trans _ _ _ (plotted_frame s p Hs Hp) Hframe).
    + intros i Hi. rewrite Hregs by done. by apply plotted_reg.
Qed.

(** When no pixel occurs twice in the list, each listed pixel is flipped
    once, and VF is set exactly when one of them was 1 to begin with. *)
Lemma plot_all_pixels (pts : list (Z * Z)) :
  NoDup pts → Forall on_display pts →
  ∀ s, shaped s →
  (∀ r c, 0 ≤ r < 32 → 0 ≤ c < 64 →
     pixel (foldl plotted s pts) r c =
       if decide ((r, c) ∈ pts) then Z.lxor (pixel s r c) 1 else pixel s r c)
  ∧ reg (foldl plotted s pts) 0xF =
      if existsb (λ q, pixel s q.1 q.2 =? 1) pts then 1 else reg s 0xF.
Proof.
  induction 1 as [|p pts Hfresh Hnodup IH]; intros Hpts s Hs.
  - split; [|reflexivity]. intros r c _ _. rewrite decide_False; [done|].
    apply not_elem_of_nil.
  - apply Forall_cons in Hpts as [Hp Hpts]. cbn [foldl].
    destruct (IH Hpts (plotted s p) (plotted_shaped s p Hs Hp))
      as [Hpix Hflag].
    split.
    + intros r c Hr Hc. rewrite Hpix, (plotted_pixel s p Hs Hp) by done.
      destruct (decide ((r, c) = p)) as [<-|Hne].
      * rewrite decide_False by done. rewrite decide_True by left. done.
      * destruct (decide ((r, c) ∈ pts)) as [Hin|Hout].
        -- rewrite decide_True by (by right). done.
        -- rewrite decide_False; [done|].
           intros [?|?]%elem_of_cons; congruence.
    + rewrite Hflag, (plotted_flag s p Hs Hp). cbn [existsb].
      rewrite (existsb_ext_in _ (λ q, pixel s q.1 q.2 =? 1)).
      * destruct (pixel s p.1 p.2 =? 1); cbn [orb]; [|reflexivity].
        by destruct (existsb (λ q : Z * Z, pixel s q.1 q.2 =? 1) pts).
      * intros [r c] Hq. cbn [fst snd].
        assert (Hqd : on_display (r, c))
          by exact (proj1 (Forall_forall _ _) Hpts _ Hq).
        destruct Hqd as [Hr Hc]. cbn [fst snd] in Hr, Hc.
        rewrite (plotted_pixel s p Hs Hp) by done.
        rewrite decide_False; [done|]. intros <-. contradiction.
Qed.

(** *** The sprite bits *)

Lemma land_pow2_testbit (a k : Z) :
  0 ≤ k → (Z.land a (2 ^ k) =? 0) = negb (Z.testbit a k).
Proof.
  intros Hk. destruct (Z.testbit a k) eqn:Hbit; cbn [negb].
  - apply Z.eqb_neq. intros Hzero.
    assert (Hk' : Z.testbit (Z.land a (2 ^ k)) k = true).
    { rewrite Z.land_spec, Hbit, Z.pow2_bits_true by lia. reflexivity. }
    rewrite Hzero, Z.bits_0 in Hk'. discriminate.
  - apply Z.eqb_eq. apply Z.bits_inj'. intros j Hj.
    rewrite Z.land_spec, Z.bits_0, Z.pow2_bits_eqb by lia.
    destruct (Z.eqb_spec k j) as [<-|_].
    + by rewrite Hbit.
    + apply andb_false_r.
Qed.

(** The test [(sprite & (0x80 >> col)) != 0] reads bit [col] of the byte,
    counted from its most significant bit. *)
Lemma sprite_bit_test (sprite col : Z) :
  0 ≤ col < 8 →
  negb (Z.land sprite (Z.shiftr 0x80 col) =? 0) = sprite_bit sprite col.
Proof.
  intros Hcol. unfold sprite_bit.
  replace (Z.shiftr 0x80 col) with (2 ^ (7 - col)).
  - rewrite land_pow2_testbit by lia. apply negb_involutive.
  - assert (Hcases : col = 0 ∨ col = 1 ∨ col = 2 ∨ col = 3 ∨ col = 4
                     ∨ col = 5 ∨ col = 6 ∨ col = 7) by lia.
    destruct Hcases as [->|[->|[->|[->|[->|[->|[->| ->]]]]]]]; reflexivity.
Qed.

(** *** The two loops *)

Lemma row_points_on_display (vx vy row sprite : Z) :
  Forall on_display (row_points vx vy row sprite).
Proof.
  unfold row_points. apply Forall_fmap, Forall_forall. intros col _.
  split; cbn [fst snd]; apply Z.mod_pos_bound; lia.
Qed.

(** The inner loop, over any columns [cols] of the byte. *)
Lemma draw_cols_run (vx vy row sprite : Z) (cols : list Z) (s : Chip8) :
  Forall (λ col, 0 ≤ col < 8) cols → shaped s →
  for_ cols (λ col,
    if negb (Z.land sprite (Z.shiftr 0x80 col) =? 0) then
      plot ((vy + row) `mod` 32) ((vx + col) `mod` 64)
    else mret tt) s =
  (Ok tt,
   foldl plotted s
     ((λ col, ((vy + row) `mod` 32, (vx + col) `mod` 64))
        <$> filter (λ col, sprite_bit sprite col = true) cols)).
Proof.
  revert s. induction cols as [|col cols IH]; intros s Hcols Hs; [reflexivity|].
  apply Forall_cons in Hcols as [Hcol Hcols]. cbn [for_].
  rewrite sprite_bit_test by done. rewrite filter_cons.
  destruct (sprite_bit sprite col) eqn:Hbit.
  - rewrite decide_True by done. cbn [fmap list_fmap foldl].
    set (p := ((vy + row) `mod` 32, (vx + col) `mod` 64)).
    assert (Hp : on_display p).
    { split; cbn [fst snd p]; apply Z.mod_pos_bound; lia. }
    rewrite (bind_ok _ _ _ _ _ (plot_plotted s p Hs Hp)).
    apply IH; [done | by apply plotted_shaped].
  - rewrite decide_False by done. by apply IH.
Qed.

Lemma draw_row_run (vx vy row sprite : Z) (s : Chip8) :
  shaped s →
  draw_row vx vy row sprite s =
    (Ok tt, foldl plotted s (row_points vx vy row sprite)).
Proof.
  intros Hs. apply draw_cols_run; [|done].
  apply Forall_seqZ. intros col Hcol. lia.
Qed.

Lemma mem_read_run (s : Chip8) (addr : Z) :
  0 ≤ addr < Z.of_nat (length (memory s)) →
  mem_read addr s = (Ok (default 0 (getitem (memory s) addr)), s).
Proof.
  intros H. unfold_stmt.
  by destruct (getitem_is_Some (memory s) addr H) as [b ->].
Qed.

Lemma mem_read_beyond (s : Chip8) (addr : Z) :
  Z.of_nat (length (memory s)) ≤ addr →
  mem_read addr s = (Raise IndexError, s).
Proof. intros H. unfold_stmt. by rewrite getitem_beyond by lia. Qed.

Lemma sprite_row_frame (s s' : Chip8) (row : Z) :
  same_but_V_display s s' → sprite_row s' row = sprite_row s row.
Proof. intros (Hm & HI & _). unfold sprite_row. by rewrite Hm, HI. Qed.

(** The outer loop, over any rows [rows] whose bytes are in the memory. *)
Lemma draw_rows_run (vx vy : Z) (rows : list Z) (s : Chip8) :
  shaped s →
  Forall (λ row, 0 ≤ I s + row < 4096) rows →
  for_ rows (λ row,
    i ← gets I; sprite ← mem_read (i + row); draw_row vx vy row sprite) s =
  (Ok tt,
   foldl plotted s (row ← rows; row_points vx vy row (sprite_row s row))).
Proof.
  revert s. induction rows as [|row rows IH]; intros s Hs Hrows; [reflexivity|].
  apply Forall_cons in Hrows as [Hrow Hrows]. cbn [for_].
  rewrite bind_cons, foldl_app.
  set (pts := row_points vx vy row (sprite_row s row)).
  destruct (plot_all pts s Hs (row_points_on_display _ _ _ _))
    as (_ & Hs1 & Hframe & _).
  assert (Hstep :
    (i ← gets I; sprite ← mem_read (i + row); draw_row vx vy row sprite) s
    = (Ok tt, foldl plotted s pts)).
  { unfold gets at 1. rewrite run_bind.
    rewrite (bind_ok _ _ _ _ _ (mem_read_run s (I s + row)
               ltac:(rewrite (shaped_memory s Hs); lia))).
    by apply draw_row_run. }
  rewrite (bind_ok _ _ _ _ _ Hstep).
  rewrite IH; [|exact Hs1|].
  - do 2 f_equal. clear -Hframe. induction rows as [|r rows IHrows]; [done|].
    rewrite !bind_cons, IHrows. by rewrite (sprite_row_frame s _ r Hframe).
  - destruct Hframe as (_ & HI & _). by rewrite HI.
Qed.

(** *** No pixel is drawn twice *)

Lemma mod_add_inj (m v a b : Z) :
  0 ≤ a < m → 0 ≤ b < m → (v + a) `mod` m = (v + b) `mod` m → a = b.
Proof.
  intros Ha Hb Heq.
  pose proof (Z.div_mod (v + a) m ltac:(lia)) as Hda.
  pose proof (Z.div_mod (v + b) m ltac:(lia)) as Hdb.
  rewrite Heq in Hda.
  set (q := (v + a) `div` m - (v + b) `div` m).
  assert (Hdiff : a - b = m * q) by (unfold q; lia).
  assert (Hq : q = 0) by nia.
  rewrite Hq in Hdiff. lia.
Qed.

Lemma elem_of_row_points (vx vy row sprite : Z) (p : Z * Z) :
  p ∈ row_points vx vy row sprite ↔
  ∃ col, 0 ≤ col < 8 ∧ sprite_bit sprite col = true
         ∧ p = ((vy + row) `mod` 32, (vx + col) `mod` 64).
Proof.
  unfold row_points, range. rewrite list_elem_of_fmap. split.
  - intros (col & -> & Hcol). apply list_elem_of_filter in Hcol as [Hbit Hcol].
    apply elem_of_seqZ in Hcol. exists col. repeat split; [lia | lia | done].
  - intros (col & Hcol & Hbit & ->). exists col. split; [done|].
    apply list_elem_of_filter. split; [done|]. apply elem_of_seqZ. lia.
Qed.

Lemma elem_of_sprite_points (s : Chip8) (vx vy n : Z) (p : Z * Z) :
  p ∈ sprite_points s vx vy n ↔
  ∃ row col, 0 ≤ row < n ∧ 0 ≤ col < 8
             ∧ sprite_bit (sprite_row s row) col = true
             ∧ p = ((vy + row) `mod` 32, (vx + col) `mod` 64).
Proof.
  unfold sprite_points, range. rewrite list_elem_of_bind. split.
  - intros (row & Hp & Hrow). apply elem_of_seqZ in Hrow.
    apply elem_of_row_points in Hp as (col & Hcol & Hbit & ->).
    exists row, col. repeat split; [lia | lia | lia | lia | done].
  - intros (row & col & Hrow & Hcol & Hbit & ->). exists row. split.
    + apply elem_of_row_points. by exists col.
    + apply elem_of_seqZ. lia.
Qed.

Lemma row_points_NoDup (vx vy row sprite : Z) :
  NoDup (row_points vx vy row sprite).
Proof.
  unfold row_points, range. apply NoDup_fmap_2_strong.
  - intros c1 c2 [_ Hc1]%list_elem_of_filter [_ Hc2]%list_elem_of_filter Heq.
    apply elem_of_seqZ in Hc1, Hc2. injection Heq as Heq.
    apply (mod_add_inj 64 vx); [lia | lia | done].
  - apply NoDup_filter, NoDup_seqZ.
Qed.

Lemma sprite_points_NoDup (s : Chip8) (vx vy n : Z) :
  n ≤ 32 → NoDup (sprite_points s vx vy n).
Proof.
  intros Hn. unfold sprite_points, range. apply NoDup_bind.
  - intros row1 row2 p Hrow1 Hrow2 Hp1 Hp2.
    apply elem_of_seqZ in Hrow1, Hrow2.
    apply elem_of_row_points in Hp1 as (c1 & _ & _ & ->).
    apply elem_of_row_points in Hp2 as (c2 & _ & _ & Heq).
    injection Heq as Heq _.
    apply (mod_add_inj 32 vy); [lia | lia | done].
  - intros row _. apply row_points_NoDup.
  - apply NoDup_seqZ.
Qed.

Lemma sprite_points_on_display (s : Chip8) (vx vy n : Z) :
  Forall on_display (sprite_points s vx vy n).
Proof.
  unfold sprite_points. apply Forall_bind, Forall_forall. intros row _.
  apply row_points_on_display.
Qed.

(** *** The list of pixels against [drawn] and [collision] *)

Lemma existsb_elem_of {A} (f : A → bool) (l : list A) :
  existsb f l = true ↔ ∃ x, x ∈ l ∧ f x = true.
Proof.
  rewrite existsb_exists. by setoid_rewrite list_elem_of_In.
Qed.

Lemma nested_existsb (f : Z → Z → bool) (n : Z) :
  existsb (λ row, existsb (f row) (range 8)) (range n) = true ↔
  ∃ row col, 0 ≤ row < n ∧ 0 ≤ col < 8 ∧ f row col = true.
Proof.
  unfold range. rewrite existsb_elem_of. split.
  - intros (row & Hrow & Hcol). apply existsb_elem_of in Hcol as (col & Hcol & Hf).
    apply elem_of_seqZ in Hrow, Hcol. exists row, col. repeat split; (lia || done).
  - intros (row & col & Hrow & Hcol & Hf). exists row.
    split; [apply elem_of_seqZ; lia|].
    apply existsb_elem_of. exists col. split; [apply elem_of_seqZ; lia | done].
Qed.

Lemma drawn_sprite_points (s : Chip8) (vx vy n py px : Z) :
  drawn s vx vy n py px = true ↔ (py, px) ∈ sprite_points s vx vy n.
Proof.
  unfold drawn. rewrite nested_existsb, elem_of_sprite_points.
  split; intros (row & col & Hrow & Hcol & H); exists row, col;
    (split; [done|]); (split; [done|]).
  - apply andb_prop in H as [[Hbit ->%Z.eqb_eq]%andb_prop ->%Z.eqb_eq]. done.
  - destruct H as [Hbit [= -> ->]]. by rewrite Hbit, !Z.eqb_refl.
Qed.

Lemma collision_sprite_points (s : Chip8) (vx vy n : Z) :
  existsb (λ q, pixel s q.1 q.2 =? 1) (sprite_points s vx vy n)
  = collision s vx vy n.
Proof.
  apply eq_true_iff_eq. unfold collision.
  rewrite nested_existsb, existsb_elem_of. split.
  - intros ([py px] & Hp & Hpix).
    apply elem_of_sprite_points in Hp as (row & col & Hrow & Hcol & Hbit & [= -> ->]).
    cbn [fst snd] in Hpix. exists row, col. by rewrite Hbit, Hpix.
  - intros (row & col & Hrow & Hcol & [Hbit Hpix]%andb_prop).
    exists ((vy + row) `mod` 32, (vx + col) `mod` 64). split; [|done].
    apply elem_of_sprite_points. by exists row, col.
Qed.

(** *** The instruction *)

Lemma execute_Dxyn (rnd opcode : Z) :
  Z.land opcode 0xF000 = 0xD000 →
  execute rnd opcode =
    exec_D (Z.shiftr (Z.land opcode 0x0F00) 8)
           (Z.shiftr (Z.land opcode 0x00F0) 4) (Z.land opcode 0x000F).
Proof. intros H. dispatch H. reflexivity. Qed.

Lemma shaped_set_V (s : Chip8) (v : list Z) :
  shaped s → length v = 16%nat → shaped (set_V v s).
Proof. intros [] Hv. by split. Qed.

Lemma shaped_set_pc (s : Chip8) (p : Z) : shaped s → shaped (set_pc p s).
Proof. intros []. by split. Qed.

(** DRW when the [n] bytes of the sprite are in the memory: VF is cleared,
    then the pixels of the sprite are plotted in the order of the loops. *)
Lemma exec_D_run (s : Chip8) (x y n : Z) :
  shaped s → 0 ≤ x ≤ 15 → 0 ≤ y ≤ 15 → 0 ≤ I s → I s + n ≤ 4096 →
  exec_D x y n s =
    (Ok tt,
     foldl plotted (set_V (<[15%nat:=0]> (V s)) s)
           (sprite_points s (reg s x) (reg s y) n)).
Proof.
  intros Hs Hx Hy HI Hn. unfold exec_D.
  pose proof (shaped_V s Hs) as HV.
  repeat regs_step.
  set (s0 := set_V (<[Z.to_nat 15:=0]> (V s)) s).
  assert (Hs0 : shaped s0)
    by (apply shaped_set_V; [done | by rewrite length_insert]).
  rewrite (draw_rows_run (reg s x) (reg s y) (range n) s0 Hs0).
  - reflexivity.
  - apply Forall_seqZ. intros row Hrow. change (I s0) with (I s). lia.
Qed.

(** C3.  Let the fetched instruction be Dxyn, with the n bytes of the sprite
    inside the memory, and let vx and vy be the values of Vx and Vy when the
    instruction starts.  The cycle finishes, and afterwards: a pixel
    [(py, px)] is flipped (XOR 1) exactly when a set bit of the sprite - bit
    [col], most significant first, of the byte [memory[I + row]] - lands on
    it at column [(vx + col) mod 64] and row [(vy + row) mod 32], whatever
    the size of the sprite; VF is 1 if one of these pixels was 1 before, and
    0 if none was (no pixel is plotted twice, so that is its value right
    before its XOR); the other registers, the memory, I, the stack, the
    timers and the keys are unchanged, and PC is advanced by 2. *)
Theorem draw_sprite (rnd : Z) (s : Chip8) (opcode : Z) :
  let x := Z.shiftr (Z.land opcode 0x0F00) 8 in
  let y := Z.shiftr (Z.land opcode 0x00F0) 4 in
  let n := Z.land opcode 0x000F in
  let vx := reg s x in
  let vy := reg s y in
  fetch s = (Ok opcode, s) →
  shaped s →
  Z.land opcode 0xF000 = 0xD000 →
  0 ≤ I s →
  I s + n ≤ 4096 →
  ∃ s', cycle rnd s = (Ok tt, s')
    ∧ (∀ py px, 0 ≤ py < 32 → 0 ≤ px < 64 →
         pixel s' py px =
           if drawn s vx vy n py px then Z.lxor (pixel s py px) 1
           else pixel s py px)
    ∧ reg s' 0xF = (if collision s vx vy n then 1 else 0)
    ∧ NoDup (sprite_points s vx vy n)
    ∧ (∀ i, 0 ≤ i < 15 → reg s' i = reg s i)
    ∧ same_but_V_display (set_pc (pc s + 2) s) s'
    ∧ shaped s'.
Proof.
  intros x y n vx vy Hf Hs Hop HI Hn.
  pose proof (field_x_range opcode) as Hx.
  pose proof (field_y_range opcode) as Hy.
  pose proof (land_range opcode 0x000F ltac:(lia)) as Hnr.
  rewrite (cycle_fetched _ _ _ Hf), (execute_Dxyn _ _ Hop).
  fold x y n in Hx, Hy, Hnr |- *.
  set (s1 := set_pc (pc s + 2) s).
  assert (Hs1 : shaped s1) by (by apply shaped_set_pc).
  rewrite (exec_D_run s1 x y n Hs1 Hx Hy HI Hn).
  change (reg s1) with (reg s). change (sprite_points s1) with (sprite_points s).
  fold vx vy.
  set (s0 := set_V (<[15%nat:=0]> (V s1)) s1).
  set (pts := sprite_points s vx vy n).
  assert (Hs0 : shaped s0).
  { apply shaped_set_V; [done|]. rewrite length_insert. apply Hs. }
  assert (Hnodup : NoDup pts) by (apply sprite_points_NoDup; lia).
  pose proof (sprite_points_on_display s vx vy n) as Hpts. fold pts in Hpts.
  destruct (plot_all pts s0 Hs0 Hpts) as (_ & Hshaped & Hframe & Hregs).
  destruct (plot_all_pixels pts Hnodup Hpts s0 Hs0) as [Hpix Hflag].
  eexists. split; [reflexivity|]. split; [|split; [|split; [|split; [|split]]]].
  - intros py px Hpy Hpx. rewrite Hpix by done.
    change (pixel s0) with (pixel s).
    destruct (drawn s vx vy n py px) eqn:Hdrawn.
    + rewrite decide_True; [done|]. by apply drawn_sprite_points.
    + rewrite decide_False; [done|]. intros Hin%drawn_sprite_points. congruence.
  - rewrite Hflag. change (pixel s0) with (pixel s). unfold pts.
    rewrite collision_sprite_points.
    destruct (collision s vx vy n); [reflexivity|].
    unfold reg, s0. fields.
    by rewrite (getitem_insert_eq (V s) 15) by (rewrite (shaped_V s Hs); lia).
  - exact Hnodup.
  - intros i Hi. rewrite Hregs by done. unfold reg, s0. fields.
    by rewrite (getitem_insert_ne (V s) 15) by lia.
  - exact Hframe.
  - exact Hshaped.
Qed.

Lemma init_shaped : shaped init.
Proof. split; try (vm_compute; reflexivity). vm_compute. repeat constructor. Qed.

Lemma before_draw_shaped : shaped before_draw.
Proof. split; try (vm_compute; reflexivity). vm_compute. repeat constructor. Qed.

Lemma draw_sprite_witness :
  ∃ s', cycle 0 before_draw = (Ok tt, s')
        ∧ pixel s' 0 0 = 1 ∧ pixel s' 1 1 = 0 ∧ reg s' 0xF = 0.
Proof.
  assert (Hf : fetch before_draw = (Ok 0xD005, before_draw))
    by (vm_compute; reflexivity).
  assert (HI : 0 ≤ I before_draw) by (vm_compute; discriminate).
  assert (Hn : I before_draw + Z.land 0xD005 0x000F ≤ 4096)
    by (vm_compute; discriminate).
  destruct (draw_sprite 0 before_draw 0xD005 Hf before_draw_shaped eq_refl
              HI Hn) as (s' & Hrun & Hpix & Hflag & _).
  exists s'. split; [exact Hrun|].
  rewrite (Hpix 0 0), (Hpix 1 1), Hflag by lia.
  vm_compute. repeat split.
Defined.

(** Drawing the same glyph a second time erases it and reports the
    collision. *)
Lemma redraw_collides :
  fetch before_redraw = (Ok 0xD005, before_redraw)
  ∧ pixel before_redraw 0 0 = 1
  ∧ fst (cycle 0 before_redraw) = Ok tt
  ∧ pixel (snd (cycle 0 before_redraw)) 0 0 = 0
  ∧ reg (snd (cycle 0 before_redraw)) 0xF = 1.
Proof. vm_compute. repeat split. Qed.

(** C3 as stated fails when Vx is VF.  The claim clears VF first and takes
    the column from V[x] afterwards: with VF = 5 and the sprite row F0, DRW
    VF, V0, 1 would draw on the columns 0 to 3 of row 0 ([drawn] on the
    registers of the machine with VF cleared).  The code reads V[x] and V[y]
    before it clears VF: it draws on the columns 5 to 8, so that the pixel of
    column 0 stays 0 and the pixel of column 8 becomes 1. *)
Lemma draw_reads_vf_before_clearing :
  fetch before_draw_vf = (Ok 0xDF01, before_draw_vf)
  ∧ reg before_draw_vf 0xF = 5
  ∧ reg before_draw_vf 0 = 0
  ∧ sprite_row before_draw_vf 0 = 0xF0
  ∧ reg (vf_cleared before_draw_vf) 0xF = 0
  ∧ drawn before_draw_vf (reg (vf_cleared before_draw_vf) 0xF)
      (reg (vf_cleared before_draw_vf) 0) 1 0 0 = true
  ∧ drawn before_draw_vf (reg (vf_cleared before_draw_vf) 0xF)
      (reg (vf_cleared before_draw_vf) 0) 1 0 8 = false
  ∧ pixel before_draw_vf 0 0 = 0
  ∧ pixel before_draw_vf 0 8 = 0
  ∧ fst (cycle 0 before_draw_vf) = Ok tt
  ∧ pixel (snd (cycle 0 before_draw_vf)) 0 0 = 0
  ∧ pixel (snd (cycle 0 before_draw_vf)) 0 8 = 1.
Proof. vm_compute. repeat split. Qed.

(** ** A program logic for the statements *)

Section hoare_rules.
Context {A : Type}.
Implicit Types (P : Chip8 → Prop) (Q : A → Chip8 → Prop).

Lemma hoare_ret P Q (a : A) : (∀ s, P s → Q a s) → hoare P (mret a) Q.
Proof. intros H s Hs a' s' [= <- <-]. by apply H. Qed.

Lemma hoare_raise P Q (e : exn) : hoare P (raise e : M A) Q.
Proof. intros s _ a s' [=]. Qed.

Lemma hoare_gets P Q (f : Chip8 → A) :
  (∀ s, P s → Q (f s) s) → hoare P (gets f) Q.
Proof. intros H s Hs a s' [= <- <-]. by apply H. Qed.

Lemma hoare_lift P Q (o : option A) :
  (∀ a s, o = Some a → P s → Q a s) → hoare P (lift o) Q.
Proof.
  intros H s Hs a s'. destruct o as [a0|]; [|intros [=]].
  intros [= <- <-]. by apply H.
Qed.

Lemma hoare_bind {B} P (R : B → Chip8 → Prop) Q (m : M B) (k : B → M A) :
  hoare P m R → (∀ b, hoare (R b) (k b) Q) → hoare P (m ≫= k) Q.
Proof.
  intros Hm Hk s Hs a s'. rewrite run_bind.
  destruct (m s) as [[b|e] s1] eqn:Hrun; [|intros [=]].
  intros Hrun'. exact (Hk b s1 (Hm s Hs b s1 Hrun) a s' Hrun').
Qed.

Lemma hoare_conseq P P' Q Q' (m : M A) :
  (∀ s, P s → P' s) → hoare P' m Q' → (∀ a s, Q' a s → Q a s) →
  hoare P m Q.
Proof. intros HP Hm HQ s Hs a s' Hrun. exact (HQ _ _ (Hm s (HP s Hs) a s' Hrun)). Qed.

Lemma hoare_pure P Q (φ : Prop) (m : M A) :
  (φ → hoare P m Q) → hoare (λ s, P s ∧ φ) m Q.
Proof. intros H s [Hs Hφ]. by apply H. Qed.

Lemma hoare_if P Q (b : bool) (m1 m2 : M A) :
  hoare P m1 Q → hoare P m2 Q → hoare P (if b then m1 else m2) Q.
Proof. by destruct b. Qed.
End hoare_rules.

Lemma hoare_modify (P : Chip8 → Prop) (Q : unit → Chip8 → Prop)
    (g : Chip8 → Chip8) :
  (∀ s, P s → Q tt (g s)) → hoare P (modify g) Q.
Proof. intros H s Hs [] s' [= <-]. by apply H. Qed.

Lemma hoare_for {A} (P : Chip8 → Prop) (xs : list A) (body : A → M unit) :
  (∀ x, x ∈ xs → hoare P (body x) (λ _, P)) →
  hoare P (for_ xs body) (λ _, P).
Proof.
  induction xs as [|x xs IH]; intros Hbody; cbn [for_].
  - by apply hoare_ret.
  - apply (hoare_bind _ (λ _, P)); [apply Hbody; left|].
    intros _. apply IH. intros y Hy. apply Hbody. by right.
Qed.

(** ** Valid states *)

Section pylist_forall.
Context {A : Type} (φ : A → Prop).
Implicit Types (l : list A) (i : Z).

Lemma getitem_elem_of l i v : getitem l i = Some v → v ∈ l.
Proof.
  unfold getitem. destruct (py_index l i) as [k|]; [|done]. cbn.
  apply list_elem_of_lookup_2.
Qed.

Lemma getitem_Forall l i v : Forall φ l → getitem l i = Some v → φ v.
Proof.
  intros Hl Hv. exact (proj1 (Forall_forall _ _) Hl _ (getitem_elem_of _ _ _ Hv)).
Qed.

Lemma setitem_Forall l i v l' :
  Forall φ l → φ v → setitem l i v = Some l' → Forall φ l'.
Proof.
  unfold setitem. destruct (py_index l i) as [k|]; [|done]. cbn.
  intros Hl Hv [= <-]. by apply Forall_insert.
Qed.
End pylist_forall.

Lemma list_pop_snoc {A} (l below : list A) (top : A) :
  list_pop l = Some (top, below) → l = below ++ [top].
Proof.
  unfold list_pop. destruct (reverse l) as [|x r] eqn:Hrev; [done|].
  intros [= -> <-]. rewrite <- (reverse_involutive l), Hrev.
  by rewrite reverse_cons.
Qed.

Section valid_updates.
Variable s : Chip8.
Hypothesis Hs : valid s.

Lemma valid_set_V (v : list Z) :
  length v = 16%nat → Forall byte v → valid (set_V v s).
Proof. destruct Hs as [[] ? ? ? ? ? ? ?]. intros. split; [split|..]; done. Qed.

Lemma valid_set_memory (m : list Z) :
  length m = 4096%nat → Forall byte m → valid (set_memory m s).
Proof. destruct Hs as [[] ? ? ? ? ? ? ?]. intros. split; [split|..]; done. Qed.

Lemma valid_set_I (i : Z) : 0 ≤ i ≤ 4095 → valid (set_I i s).
Proof. destruct Hs as [[] ? ? ? ? ? ? ?]. intros. split; [split|..]; done. Qed.

Lemma valid_set_pc (p : Z) : 0 ≤ p → valid (set_pc p s).
Proof. destruct Hs as [[] ? ? ? ? ? ? ?]. intros. split; [split|..]; done. Qed.

Lemma valid_set_stack (st : list Z) :
  Forall (λ a, 0 ≤ a) st → valid (set_stack st s).
Proof. destruct Hs as [[] ? ? ? ? ? ? ?]. intros. split; [split|..]; done. Qed.

Lemma valid_set_delay_timer (t : Z) : byte t → valid (set_delay_timer t s).
Proof. destruct Hs as [[] ? ? ? ? ? ? ?]. intros. split; [split|..]; done. Qed.

Lemma valid_set_sound_timer (t : Z) : byte t → valid (set_sound_timer t s).
Proof. destruct Hs as [[] ? ? ? ? ? ? ?]. intros. split; [split|..]; done. Qed.

Lemma valid_set_display (d : list (list Z)) :
  length d = 32%nat → Forall (λ row, length row = 64%nat) d →
  valid (set_display d s).
Proof. destruct Hs as [[] ? ? ? ? ? ? ?]. intros. split; [split|..]; done. Qed.

Lemma valid_set_keys (k : list Z) : length k = 16%nat → valid (set_keys k s).
Proof. destruct Hs as [[] ? ? ? ? ? ? ?]. intros. split; [split|..]; done. Qed.
End valid_updates.

(** *** Bytes *)

Lemma byte_land_r (a mask : Z) : byte mask → byte (Z.land a mask).
Proof. intros [Hlo Hhi]. pose proof (land_range a mask Hlo). unfold byte. lia. Qed.

Lemma byte_land_id (a : Z) : byte a → Z.land a 0xFF = a.
Proof. intros Ha. rewrite land_255. apply Z.mod_small. unfold byte in Ha. lia. Qed.

Lemma byte_lor (a b : Z) : byte a → byte b → byte (Z.lor a b).
Proof.
  intros Ha Hb. rewrite <- (byte_land_id a Ha), <- (byte_land_id b Hb).
  rewrite <- Z.land_lor_distr_l. by apply byte_land_r.
Qed.

Lemma byte_lxor (a b : Z) : byte a → byte b → byte (Z.lxor a b).
Proof.
  intros Ha Hb. pose proof (byte_lor a b Ha Hb) as [_ Hor].
  pose proof (Z.sub_lor_land a b) as Hsub.
  assert (0 ≤ Z.land a b) by (apply Z.land_nonneg; left; apply Ha).
  assert (0 ≤ Z.lxor a b) by (apply Z.lxor_nonneg; unfold byte in *; lia).
  unfold byte. lia.
Qed.

Lemma byte_shiftr (a k : Z) : 0 ≤ k → byte a → byte (Z.shiftr a k).
Proof.
  intros Hk [Hlo Hhi]. rewrite Z.shiftr_div_pow2 by done.
  assert (0 < 2 ^ k) by (apply Z.pow_pos_nonneg; lia).
  split; [by apply Z.div_pos|].
  apply Z.div_le_upper_bound; [done|]. nia.
Qed.

Lemma byte_div (a d : Z) : 0 < d → byte a → byte (a `div` d).
Proof.
  intros Hd [Hlo Hhi]. split; [by apply Z.div_pos|].
  apply Z.div_le_upper_bound; [done|]. nia.
Qed.

Lemma byte_mod (a d : Z) : 0 < d ≤ 256 → byte (a `mod` d).
Proof. intros Hd. pose proof (Z.mod_pos_bound a d). unfold byte. lia. Qed.

Lemma byte_flag (b : bool) : byte (if b then 1 else 0).
Proof. unfold byte. destruct b; lia. Qed.

(** *** The attribute accesses keep the state valid *)

Lemma fetched_frame (s s' : Chip8) :
  fetched s → valid s' → pc s' = pc s → fetched s'.
Proof. intros [_ Hpc] Hs' Heq. split; [done | by rewrite Heq]. Qed.

Lemma hoare_valid {A} (P : Chip8 → Prop) (m : M A) :
  hoare P m (λ _, fetched) → hoare P m (λ _, valid).
Proof. intros H. eapply hoare_conseq; [|exact H|]; [done | by intros _ s []]. Qed.

Lemma gets_spec {A} (f : Chip8 → A) (φ : A → Prop) :
  (∀ s, fetched s → φ (f s)) →
  hoare fetched (gets f) (λ a s, fetched s ∧ φ a).
Proof. intros H. apply hoare_gets. intros s Hs. split; [done | by apply H]. Qed.

Lemma getV_spec (i : Z) :
  hoare fetched (getV i) (λ v s, fetched s ∧ byte v).
Proof.
  intros s Hs v s'. unfold_stmt.
  destruct (getitem (V s) i) as [v0|] eqn:Hget; intros [= <- <-].
  split; [done|]. exact (getitem_Forall byte _ _ _ (valid_V s (proj1 Hs)) Hget).
Qed.

Lemma mem_read_spec (addr : Z) :
  hoare fetched (mem_read addr) (λ v s, fetched s ∧ byte v).
Proof.
  intros s Hs v s'. unfold_stmt.
  destruct (getitem (memory s) addr) as [v0|] eqn:Hget; intros [= <- <-].
  split; [done|].
  exact (getitem_Forall byte _ _ _ (valid_memory s (proj1 Hs)) Hget).
Qed.

Lemma get_key_spec (i : Z) :
  hoare fetched (get_key i) (λ _ s, fetched s).
Proof.
  intros s Hs v s'. unfold_stmt.
  by destruct (getitem (keys s) i) as [v0|]; intros [= <- <-].
Qed.

Lemma setV_spec (i b : Z) :
  byte b → hoare fetched (setV i b) (λ _, fetched).
Proof.
  intros Hb s Hs [] s'. unfold_stmt.
  destruct (setitem (V s) i b) as [v'|] eqn:Hset; intros [= <-].
  apply (fetched_frame s); [done| |done]. destruct Hs as [Hs _].
  apply valid_set_V; [done| |].
  - rewrite (setitem_length _ _ _ _ Hset). apply Hs.
  - exact (setitem_Forall byte _ _ _ _ (valid_V s Hs) Hb Hset).
Qed.

Lemma mem_write_spec (addr b : Z) :
  byte b → hoare fetched (mem_write addr b) (λ _, fetched).
Proof.
  intros Hb s Hs [] s'. unfold_stmt.
  destruct (setitem (memory s) addr b) as [m'|] eqn:Hset; intros [= <-].
  apply (fetched_frame s); [done| |done]. destruct Hs as [Hs _].
  apply valid_set_memory; [done| |].
  - rewrite (setitem_length _ _ _ _ Hset). apply Hs.
  - exact (setitem_Forall byte _ _ _ _ (valid_memory s Hs) Hb Hset).
Qed.

Lemma stack_append_spec (a : Z) :
  0 ≤ a → hoare fetched (stack_append a) (λ _, fetched).
Proof.
  intros Ha. apply hoare_modify. intros s Hs.
  apply (fetched_frame s); [done| |done]. destruct Hs as [Hs _].
  apply valid_set_stack; [done|]. apply Forall_app. split; [apply Hs|].
  by apply Forall_singleton.
Qed.

Lemma stack_pop_spec :
  hoare fetched stack_pop (λ a s, fetched s ∧ 0 ≤ a).
Proof.
  intros s Hs a s'. unfold_stmt.
  destruct (list_pop (stack s)) as [[top below]|] eqn:Hpop; intros [= <- <-].
  apply list_pop_snoc in Hpop.
  pose proof (valid_stack s (proj1 Hs)) as Hst. rewrite Hpop in Hst.
  apply Forall_app in Hst as [Hbelow Htop]. split.
  - apply (fetched_frame s); [done| |done].
    apply valid_set_stack; [apply Hs | exact Hbelow].
  - exact (proj1 (Forall_singleton _ _) Htop).
Qed.

Lemma plot_spec (py px : Z) : hoare fetched (plot py px) (λ _, fetched).
Proof.
  unfold plot, get_pixel, xor_pixel.
  eapply hoare_bind with (R := λ _, fetched).
  { intros s Hs a s'. unfold_stmt.
    destruct (getitem (display s) py) as [row|]; [|intros [=]].
    by destruct (getitem row px); intros [= <- <-]. }
  intros p. eapply hoare_bind with (R := λ _, fetched).
  { apply hoare_if; [apply setV_spec; unfold byte; lia | by apply hoare_ret]. }
  intros _ s Hs [] s'. unfold_stmt.
  destruct (getitem (display s) py) as [row|] eqn:Hrow; [|intros [=]].
  destruct (getitem row px) as [old|]; [|intros [=]].
  destruct (setitem row px (Z.lxor old 1)) as [row'|] eqn:Hrow'; [|intros [=]].
  destruct (setitem (display s) py row') as [d'|] eqn:Hd'; intros [= <-].
  apply (fetched_frame s); [done| |done]. destruct Hs as [Hs _].
  pose proof (valid_shaped s Hs) as Hshape.
  apply valid_set_display; [done| |].
  - rewrite (setitem_length _ _ _ _ Hd'). apply Hshape.
  - apply (setitem_Forall _ _ _ _ _ (shaped_rows s Hshape)) in Hd'; [done|].
    rewrite (setitem_length _ _ _ _ Hrow').
    exact (getitem_Forall _ _ _ _ (shaped_rows s Hshape) Hrow).
Qed.

Lemma scan_keys_spec (candidates : list Z) :
  hoare fetched (scan_keys candidates)
        (λ r s, fetched s ∧ ∀ i, r = Some i → i ∈ candidates).
Proof.
  induction candidates as [|c cs IH]; cbn [scan_keys].
  - apply hoare_ret. intros s Hs. split; [done|]. intros i [=].
  - eapply hoare_bind; [apply get_key_spec|]. intros k. apply hoare_if.
    + apply hoare_ret. intros s Hs. split; [done|]. intros i [= <-]. left.
    + eapply hoare_conseq; [|exact IH|]; [done|].
      intros r s [Hs Hr]. split; [done|]. intros i Hi. right. by apply Hr.
Qed.

(** *** The instructions keep the state valid *)

Ltac bytes :=
  solve [ repeat first
            [ assumption
            | apply byte_flag
            | apply byte_lor | apply byte_lxor
            | apply byte_shiftr; [lia|]
            | apply byte_land_r
            | apply byte_div; [lia|]
            | apply byte_mod; lia
            | unfold byte; lia ] ].

Ltac hoare_step :=
  lazymatch goal with
  | |- hoare _ (getV _ ≫= _) _ =>
      eapply hoare_bind; [apply getV_spec | intros ?; apply hoare_pure; intros ?]
  | |- hoare _ (mem_read _ ≫= _) _ =>
      eapply hoare_bind;
        [apply mem_read_spec | intros ?; apply hoare_pure; intros ?]
  | |- hoare _ (get_key _ ≫= _) _ =>
      eapply hoare_bind; [apply get_key_spec | intros ?]
  | |- hoare _ (setV _ _ ≫= _) _ =>
      eapply hoare_bind; [apply setV_spec; bytes | intros ?]
  | |- hoare _ (mem_write _ _ ≫= _) _ =>
      eapply hoare_bind; [apply mem_write_spec; bytes | intros ?]
  | |- hoare _ (gets I ≫= _) _ =>
      eapply hoare_bind;
        [apply (gets_spec I (λ i, 0 ≤ i ≤ 4095)); intros ? [Hv _]; apply Hv
        | intros ?; apply hoare_pure; intros ?]
  | |- hoare _ (gets pc ≫= _) _ =>
      eapply hoare_bind;
        [apply (gets_spec pc (λ p, 2 ≤ p)); intros ? [_ Hp]; apply Hp
        | intros ?; apply hoare_pure; intros ?]
  | |- hoare _ (gets delay_timer ≫= _) _ =>
      eapply hoare_bind;
        [apply (gets_spec delay_timer byte); intros ? [Hv _]; apply Hv
        | intros ?; apply hoare_pure; intros ?]
  | |- hoare _ (stack_append _ ≫= _) _ =>
      eapply hoare_bind; [apply stack_append_spec; lia | intros ?]
  | |- hoare _ (stack_pop ≫= _) _ =>
      eapply hoare_bind;
        [apply stack_pop_spec | intros ?; apply hoare_pure; intros ?]
  | |- hoare _ (scan_keys _ ≫= _) _ =>
      eapply hoare_bind;
        [apply scan_keys_spec | intros ?; apply hoare_pure; intros ?]
  | |- hoare _ (if _ then _ else _) _ => apply hoare_if
  | |- hoare _ (match _ with Some _ => _ | None => _ end) _ => case_match
  | |- hoare _ (mret _) (λ _, valid) =>
      apply hoare_ret; intros ? [? ?]; assumption
  | |- hoare _ (mret _) (λ _, fetched) =>
      apply hoare_ret; intros ? ?; assumption
  | |- hoare _ (setV _ _) (λ _, valid) =>
      apply hoare_valid, setV_spec; bytes
  | |- hoare _ (setV _ _) (λ _, fetched) => apply setV_spec; bytes
  | |- hoare _ (mem_write _ _) (λ _, valid) =>
      apply hoare_valid, mem_write_spec; bytes
  | |- hoare _ (mem_write _ _) (λ _, fetched) => apply mem_write_spec; bytes
  | |- hoare _ (plot _ _) (λ _, fetched) => apply plot_spec
  | |- hoare _ (for_ _ _) (λ _, valid) => apply hoare_valid
  | |- hoare _ (for_ _ _) (λ _, fetched) => apply hoare_for; intros ? ?
  | |- hoare _ (pc_add _) _ => unfold pc_add
  | |- hoare _ (modify _) _ => apply hoare_modify; intros ? [? ?]
  | |- hoare _ (raise _) _ => apply hoare_raise
  end.

Lemma execute_spec (rnd opcode : Z) :
  byte rnd → hoare fetched (execute rnd opcode) (λ _, valid).
Proof.
  intros Hrnd.
  pose proof (land_range opcode 0x0FFF ltac:(lia)) as Hnnn.
  pose proof (land_range opcode 0x00FF ltac:(lia)) as Hkk.
  unfold execute, exec_8, exec_D, exec_E, exec_F, draw_row. cbv zeta.
  repeat hoare_step.
  all: try match goal with
           | H : valid ?s |- valid (_ ?s) =>
               first [ apply (valid_set_pc s H); lia
                     | apply (valid_set_I s H); lia
                     | apply (valid_set_delay_timer s H); bytes
                     | apply (valid_set_sound_timer s H); bytes ]
           end.
  - apply valid_set_display; [done | reflexivity | repeat constructor].
  - apply valid_set_pc; [done|]. unfold byte in *. lia.
  - apply hoare_valid, setV_spec.
    match goal with
    | H : ∀ i, Some ?z = Some i → i ∈ range 16 |- _ =>
        pose proof (H z eq_refl) as Hz
    end.
    apply elem_of_seqZ in Hz. unfold byte. lia.
  - apply valid_set_I; [done|]. apply land_range. lia.
  - apply valid_set_I; [done|]. unfold byte in *. lia.
Qed.

Lemma fetch_spec : hoare valid fetch (λ _, valid).
Proof. intros s Hs opcode s' Hf. by rewrite (fetch_state _ _ _ Hf). Qed.

(** A cycle that returns leaves a valid state valid. *)
Lemma cycle_valid (rnd : Z) (s s' : Chip8) :
  byte rnd → valid s → cycle rnd s = (Ok tt, s') → valid s'.
Proof.
  intros Hrnd Hs Hrun.
  assert (Hcycle : hoare valid (cycle rnd) (λ _, valid)); [|by eapply Hcycle].
  clear s s' Hs Hrun. unfold cycle.
  eapply hoare_bind; [apply fetch_spec|]. intros opcode.
  eapply hoare_bind with (R := λ _, fetched).
  - apply hoare_modify. intros s Hs. split.
    + apply valid_set_pc; [done|]. pose proof (valid_pc s Hs). lia.
    + cbn [pc set_pc]. pose proof (valid_pc s Hs). lia.
  - intros _. by apply execute_spec.
Qed.

Lemma init_valid : valid init.
Proof.
  split.
  - apply init_shaped.
  - apply (bool_decide_unpack _). vm_compute. exact Logic.I.
  - apply (bool_decide_unpack _). vm_compute. exact Logic.I.
  - vm_compute. split; discriminate.
  - vm_compute. discriminate.
  - vm_compute. constructor.
  - vm_compute. split; discriminate.
  - vm_compute. split; discriminate.
Qed.

Lemma key_event_valid (k : Z) (pressed : bool) (s s' : Chip8) :
  valid s → key_event k pressed s = (Ok tt, s') → valid s'.
Proof.
  intros Hs. unfold key_event. unfold_stmt.
  destruct (setitem (keys s) k _) as [ks'|] eqn:Hset; intros [= <-].
  apply valid_set_keys; [done|].
  rewrite (setitem_length _ _ _ _ Hset). apply Hs.
Qed.

Lemma load_rom_valid (rom : list Z) (s : Chip8) :
  Z.of_nat (length rom) ≤ MEMORY_SIZE - 0x200 →
  Forall byte rom →
  load_rom rom init = (Ok tt, s) → valid s.
Proof.
  unfold MEMORY_SIZE. intros Hlen Hrom.
  rewrite load_rom_fits by (rewrite init_memory_length; lia).
  intros Heq. apply (f_equal snd) in Heq. cbn [snd] in Heq. subst s.
  pose proof init_valid as Hinit.
  apply valid_set_memory; [done| |].
  - rewrite !length_app, length_take, length_drop, init_memory_length. lia.
  - pose proof (valid_memory init Hinit) as Hmem.
    revert Hmem. generalize (memory init). intros m Hm.
    apply Forall_app_2; [by apply Forall_take|].
    apply Forall_app_2; [done | by apply Forall_drop].
Qed.

(** Every state the application runs a cycle in is valid. *)
Lemma reachable_valid (s : Chip8) : reachable s → valid s.
Proof.
  induction 1 as [rom s Hlen Hrom Hload | rnd s s' _ IH Hrnd Hrun
                 | k pressed s s' _ IH Hk Hrun].
  - by apply (load_rom_valid rom).
  - by apply (cycle_valid rnd s).
  - by apply (key_event_valid k pressed s).
Qed.


(** ** Memory accesses and the bounds of the memory *)

(** *** Loops that run through, loops that raise *)

Section loops.
Context {A : Type} (P : Chip8 → Prop) (body : A → M unit).

Lemma for_all_ok (xs : list A) :
  (∀ x s, x ∈ xs → P s → ∃ s', body x s = (Ok tt, s') ∧ P s') →
  ∀ s, P s → ∃ s', for_ xs body s = (Ok tt, s') ∧ P s'.
Proof.
  induction xs as [|x xs IH]; intros Hbody s Hs; cbn [for_].
  - by exists s.
  - destruct (Hbody x s ltac:(left) Hs) as (s1 & Hrun & Hs1).
    rewrite (bind_ok _ _ _ _ _ Hrun).
    apply IH; [|done]. intros y s2 Hy. apply Hbody. by right.
Qed.

Lemma for_raises (done_ : list A) (x : A) (rest : list A) (e : exn) :
  (∀ y s, y ∈ done_ → P s → ∃ s', body y s = (Ok tt, s') ∧ P s') →
  (∀ s, P s → ∃ s', body x s = (Raise e, s')) →
  ∀ s, P s → ∃ s', for_ (done_ ++ x :: rest) body s = (Raise e, s').
Proof.
  induction done_ as [|y ys IH]; intros Hok Hraise s Hs; cbn [for_ app].
  - destruct (Hraise s Hs) as (s' & Hrun). exists s'.
    by rewrite (bind_raise _ _ _ _ _ Hrun).
  - destruct (Hok y s ltac:(left) Hs) as (s1 & Hrun & Hs1).
    rewrite (bind_ok _ _ _ _ _ Hrun).
    apply IH; [|done|done]. intros z s2 Hz. apply Hok. by right.
Qed.
End loops.

(** [range n] up to, at and after index [k]. *)
Lemma range_split (n k : Z) :
  0 ≤ k < n → range n = seqZ 0 k ++ k :: seqZ (k + 1) (n - k - 1).
Proof.
  intros Hk. unfold range.
  replace n with (k + (n - k)) at 1 by lia.
  rewrite seqZ_app by lia. f_equal. rewrite seqZ_cons by lia.
  rewrite Z.add_0_l. do 2 f_equal; lia.
Qed.

(** *** The fetch *)

Lemma gets_bind {A B} (f : Chip8 → A) (k : A → M B) (s : Chip8) :
  (gets f ≫= k) s = k (f s) s.
Proof. reflexivity. Qed.

Lemma fetch_in_bounds (s : Chip8) :
  shaped s → 0 ≤ pc s → pc s + 1 ≤ 4095 →
  ∃ opcode, fetch s = (Ok opcode, s).
Proof.
  intros Hs Hlo Hhi. pose proof (shaped_memory s Hs) as Hmem.
  unfold fetch. rewrite gets_bind.
  rewrite (bind_ok _ _ _ _ _ (mem_read_run s (pc s) ltac:(lia))).
  rewrite gets_bind.
  rewrite (bind_ok _ _ _ _ _ (mem_read_run s (pc s + 1) ltac:(lia))).
  by eexists.
Qed.

Lemma fetch_out_of_bounds (s : Chip8) :
  shaped s → 0 ≤ pc s → 4095 < pc s + 1 →
  fetch s = (Raise IndexError, s).
Proof.
  intros Hs Hlo Hhi. pose proof (shaped_memory s Hs) as Hmem.
  unfold fetch. rewrite gets_bind.
  destruct (decide (pc s = 4095)) as [Hlast|Hbeyond].
  - rewrite (bind_ok _ _ _ _ _ (mem_read_run s (pc s) ltac:(lia))).
    rewrite gets_bind.
    by rewrite (bind_raise _ _ _ _ _ (mem_read_beyond s (pc s + 1) ltac:(lia))).
  - by rewrite (bind_raise _ _ _ _ _ (mem_read_beyond s (pc s) ltac:(lia))).
Qed.

(** *** Fx33, Fx55, Fx65 and Dxyn *)

Lemma shaped_set_memory (s : Chip8) (m : list Z) :
  shaped s → length m = 4096%nat → shaped (set_memory m s).
Proof. intros [] Hm. by split. Qed.

(** One write of a loop or a sequence, inside or beyond the memory. *)
Lemma mem_write_ok (s : Chip8) (addr v : Z) :
  shaped s → 0 ≤ addr ≤ 4095 →
  ∃ s', mem_write addr v s = (Ok tt, s') ∧ shaped s' ∧ I s' = I s
        ∧ V s' = V s.
Proof.
  intros Hs Haddr. pose proof (shaped_memory s Hs) as Hmem.
  rewrite mem_write_run by lia. eexists. split; [reflexivity|].
  split; [|done]. apply shaped_set_memory; [done|]. by rewrite length_insert.
Qed.

Lemma mem_write_fails (s : Chip8) (addr v : Z) :
  shaped s → 4095 < addr → mem_write addr v s = (Raise IndexError, s).
Proof.
  intros Hs Haddr. apply mem_write_beyond. rewrite (shaped_memory s Hs). lia.
Qed.

Section bounds.
Variables (s : Chip8) (x : Z).
Hypothesis Hs : shaped s.
Hypothesis Hx : 0 ≤ x ≤ 15.
Hypothesis HI : 0 ≤ I s ≤ 4095.

Lemma bcd_in_bounds :
  I s + 2 ≤ 4095 → fst (exec_F x 0x33 s) = Ok tt.
Proof.
  intros Hhi. unfold exec_F. cbn [Z.eqb Pos.eqb].
  rewrite (bind_ok _ _ _ _ _ (getV_run s x (shaped_V s Hs) Hx)), gets_bind.
  destruct (mem_write_ok s (I s) (reg s x `div` 100) Hs ltac:(lia))
    as (s1 & Hrun1 & Hs1 & HI1 & _).
  rewrite (bind_ok _ _ _ _ _ Hrun1), gets_bind, HI1.
  destruct (mem_write_ok s1 (I s + 1) ((reg s x `div` 10) `mod` 10) Hs1
              ltac:(lia)) as (s2 & Hrun2 & Hs2 & HI2 & _).
  rewrite (bind_ok _ _ _ _ _ Hrun2), gets_bind, HI2, HI1.
  destruct (mem_write_ok s2 (I s + 2) (reg s x `mod` 10) Hs2 ltac:(lia))
    as (s3 & Hrun3 & _).
  by rewrite Hrun3.
Qed.

Lemma bcd_out_of_bounds :
  4095 < I s + 2 → fst (exec_F x 0x33 s) = Raise IndexError.
Proof.
  intros Hhi. unfold exec_F. cbn [Z.eqb Pos.eqb].
  rewrite (bind_ok _ _ _ _ _ (getV_run s x (shaped_V s Hs) Hx)), gets_bind.
  destruct (mem_write_ok s (I s) (reg s x `div` 100) Hs ltac:(lia))
    as (s1 & Hrun1 & Hs1 & HI1 & _).
  rewrite (bind_ok _ _ _ _ _ Hrun1), gets_bind, HI1.
  destruct (decide (I s + 1 ≤ 4095)) as [Hin|Hout].
  - destruct (mem_write_ok s1 (I s + 1) ((reg s x `div` 10) `mod` 10) Hs1
                ltac:(lia)) as (s2 & Hrun2 & Hs2 & HI2 & _).
    rewrite (bind_ok _ _ _ _ _ Hrun2), gets_bind, HI2, HI1.
    by rewrite (mem_write_fails s2 (I s + 2) _ Hs2) by lia.
  - by rewrite (bind_raise _ _ _ _ _
                  (mem_write_fails s1 (I s + 1) _ Hs1 ltac:(lia))).
Qed.


Lemma store_step_ok (i : Z) (s' : Chip8) :
  0 ≤ i ≤ 15 → I s + i ≤ 4095 → at_index (I s) s' →
  ∃ s'', (vi ← getV i; a ← gets I; mem_write (a + i) vi) s' = (Ok tt, s'')
         ∧ at_index (I s) s''.
Proof.
  intros Hi Hin [Hs' HI'].
  rewrite (bind_ok _ _ _ _ _ (getV_run s' i (shaped_V s' Hs') Hi)), gets_bind.
  destruct (mem_write_ok s' (I s' + i) (reg s' i) Hs' ltac:(lia))
    as (s'' & Hrun & Hs'' & HI'' & _).
  exists s''. split; [done|]. split; [done | congruence].
Qed.

Lemma store_step_fails (i : Z) (s' : Chip8) :
  0 ≤ i ≤ 15 → 4095 < I s + i → at_index (I s) s' →
  ∃ s'', (vi ← getV i; a ← gets I; mem_write (a + i) vi) s'
         = (Raise IndexError, s'').
Proof.
  intros Hi Hout [Hs' HI'].
  rewrite (bind_ok _ _ _ _ _ (getV_run s' i (shaped_V s' Hs') Hi)), gets_bind.
  exists s'. apply mem_write_fails; [done | lia].
Qed.

Lemma store_in_bounds :
  I s + x ≤ 4095 → fst (exec_F x 0x55 s) = Ok tt.
Proof.
  intros Hhi. unfold exec_F. cbn [Z.eqb Pos.eqb].
  destruct (for_all_ok (at_index (I s))
              (λ i, vi ← getV i; a ← gets I; mem_write (a + i) vi)
              (range (x + 1))) with (s := s) as (s' & Hrun & _).
  - intros i s' Hi%elem_of_seqZ Hs'. apply store_step_ok; [lia | lia | done].
  - by split.
  - by rewrite Hrun.
Qed.

Lemma store_out_of_bounds :
  4095 < I s + x → fst (exec_F x 0x55 s) = Raise IndexError.
Proof.
  intros Hhi. unfold exec_F. cbn [Z.eqb Pos.eqb].
  rewrite (range_split (x + 1) (4096 - I s)) by lia.
  destruct (for_raises (at_index (I s))
              (λ i, vi ← getV i; a ← gets I; mem_write (a + i) vi)
              (seqZ 0 (4096 - I s)) (4096 - I s)
              (seqZ (4096 - I s + 1) (x + 1 - (4096 - I s) - 1)) IndexError)
    with (s := s) as (s' & Hrun).
  - intros i s' Hi%elem_of_seqZ Hs'. apply store_step_ok; [lia | lia | done].
  - intros s' Hs'. apply store_step_fails; [lia | lia | done].
  - by split.
  - by rewrite Hrun.
Qed.

Lemma load_step_ok (i : Z) (s' : Chip8) :
  0 ≤ i ≤ 15 → I s + i ≤ 4095 → at_index (I s) s' →
  ∃ s'', (a ← gets I; b ← mem_read (a + i); setV i b) s' = (Ok tt, s'')
         ∧ at_index (I s) s''.
Proof.
  intros Hi Hin [Hs' HI']. rewrite gets_bind.
  rewrite (bind_ok _ _ _ _ _ (mem_read_run s' (I s' + i)
             ltac:(rewrite (shaped_memory s' Hs'); lia))).
  rewrite (setV_run s' i _ (shaped_V s' Hs') Hi).
  eexists. split; [reflexivity|]. split; [|done].
  apply shaped_set_V; [done|]. rewrite length_insert. apply Hs'.
Qed.

Lemma load_step_fails (i : Z) (s' : Chip8) :
  4095 < I s + i → at_index (I s) s' →
  ∃ s'', (a ← gets I; b ← mem_read (a + i); setV i b) s'
         = (Raise IndexError, s'').
Proof.
  intros Hout [Hs' HI']. rewrite gets_bind. exists s'.
  by rewrite (bind_raise _ _ _ _ _ (mem_read_beyond s' (I s' + i)
                ltac:(rewrite (shaped_memory s' Hs'); lia))).
Qed.

Lemma load_in_bounds :
  I s + x ≤ 4095 → fst (exec_F x 0x65 s) = Ok tt.
Proof.
  intros Hhi. unfold exec_F. cbn [Z.eqb Pos.eqb].
  destruct (for_all_ok (at_index (I s))
              (λ i, a ← gets I; b ← mem_read (a + i); setV i b)
              (range (x + 1))) with (s := s) as (s' & Hrun & _).
  - intros i s' Hi%elem_of_seqZ Hs'. apply load_step_ok; [lia | lia | done].
  - by split.
  - by rewrite Hrun.
Qed.

Lemma load_out_of_bounds :
  4095 < I s + x → fst (exec_F x 0x65 s) = Raise IndexError.
Proof.
  intros Hhi. unfold exec_F. cbn [Z.eqb Pos.eqb].
  rewrite (range_split (x + 1) (4096 - I s)) by lia.
  destruct (for_raises (at_index (I s))
              (λ i, a ← gets I; b ← mem_read (a + i); setV i b)
              (seqZ 0 (4096 - I s)) (4096 - I s)
              (seqZ (4096 - I s + 1) (x + 1 - (4096 - I s) - 1)) IndexError)
    with (s := s) as (s' & Hrun).
  - intros i s' Hi%elem_of_seqZ Hs'. apply load_step_ok; [lia | lia | done].
  - intros s' Hs'. apply load_step_fails; [lia | done].
  - by split.
  - by rewrite Hrun.
Qed.
End bounds.

Section draw_bounds.
Variables (s : Chip8) (x y n : Z).
Hypothesis Hs : shaped s.
Hypothesis Hx : 0 ≤ x ≤ 15.
Hypothesis Hy : 0 ≤ y ≤ 15.
Hypothesis HI : 0 ≤ I s ≤ 4095.

Lemma draw_in_bounds :
  I s + n - 1 ≤ 4095 → fst (exec_D x y n s) = Ok tt.
Proof.
  intros Hhi. by rewrite exec_D_run by (done || lia).
Qed.


Lemma draw_row_step_ok (vx vy row : Z) (s' : Chip8) :
  0 ≤ row → I s + row ≤ 4095 → at_index (I s) s' →
  ∃ s'', (i ← gets I; sprite ← mem_read (i + row);
          draw_row vx vy row sprite) s' = (Ok tt, s'')
         ∧ at_index (I s) s''.
Proof.
  intros Hrow Hin [Hs' HI']. rewrite gets_bind.
  rewrite (bind_ok _ _ _ _ _ (mem_read_run s' (I s' + row)
             ltac:(rewrite (shaped_memory s' Hs'); lia))).
  rewrite draw_row_run by done.
  eexists. split; [reflexivity|].
  destruct (plot_all (row_points vx vy row
                        (default 0 (getitem (memory s') (I s' + row))))
              s' Hs' (row_points_on_display _ _ _ _))
    as (_ & Hshaped & (_ & HIeq & _) & _).
  split; [done | congruence].
Qed.

Lemma draw_row_step_fails (vx vy row : Z) (s' : Chip8) :
  4095 < I s + row → at_index (I s) s' →
  ∃ s'', (i ← gets I; sprite ← mem_read (i + row);
          draw_row vx vy row sprite) s' = (Raise IndexError, s'').
Proof.
  intros Hout [Hs' HI']. rewrite gets_bind. exists s'.
  by rewrite (bind_raise _ _ _ _ _ (mem_read_beyond s' (I s' + row)
                ltac:(rewrite (shaped_memory s' Hs'); lia))).
Qed.

Lemma draw_out_of_bounds :
  4095 < I s + n - 1 → fst (exec_D x y n s) = Raise IndexError.
Proof.
  intros Hhi. unfold exec_D.
  pose proof (shaped_V s Hs) as HV.
  repeat regs_step.
  set (s0 := set_V (<[Z.to_nat 15:=0]> (V s)) s).
  assert (Hs0 : at_index (I s) s0).
  { split; [|done]. apply shaped_set_V; [done | by rewrite length_insert]. }
  rewrite (range_split n (4096 - I s)) by lia.
  destruct (for_raises (at_index (I s))
              (λ row, i ← gets I; sprite ← mem_read (i + row);
                      draw_row (reg s x) (reg s y) row sprite)
              (seqZ 0 (4096 - I s)) (4096 - I s)
              (seqZ (4096 - I s + 1) (n - (4096 - I s) - 1)) IndexError)
    with (s := s0) as (s' & Hrun).
  - intros row s' Hrow%elem_of_seqZ Hs'.
    apply draw_row_step_ok; [lia | lia | done].
  - intros s' Hs'. apply draw_row_step_fails; [lia | done].
  - done.
  - by rewrite Hrun.
Qed.
End draw_bounds.

(** C1.  In every state in which the application runs a cycle, the
    addresses the cycle computes - PC, PC+1 and I plus an offset that is not
    negative - are not negative, and on such an address a read or a write of
    the memory raises IndexError, the out-of-bounds error of a Python list,
    exactly when the address is above 4095.  So the fetch raises it exactly
    when PC+1 is above 4095, and Dxyn, Fx33, Fx55 and Fx65 raise it exactly
    when the highest address they access (I+n-1, I+2, I+x) is above 4095. *)
Theorem memory_access_bounds (rnd : Z) (s : Chip8) :
  reachable s →
  (0 ≤ pc s ∧ 0 ≤ I s)
  ∧ (∀ addr, 0 ≤ addr →
       (addr ≤ 4095 →
          (∃ b, mem_read addr s = (Ok b, s))
          ∧ (∀ v, fst (mem_write addr v s) = Ok tt))
       ∧ (4095 < addr →
          mem_read addr s = (Raise IndexError, s)
          ∧ (∀ v, mem_write addr v s = (Raise IndexError, s))))
  ∧ (pc s + 1 ≤ 4095 → ∃ opcode, fetch s = (Ok opcode, s))
  ∧ (4095 < pc s + 1 → cycle rnd s = (Raise IndexError, s))
  ∧ (∀ opcode, fetch s = (Ok opcode, s) →
       let x := Z.shiftr (Z.land opcode 0x0F00) 8 in
       let n := Z.land opcode 0x000F in
       let kk := Z.land opcode 0x00FF in
       (Z.land opcode 0xF000 = 0xD000 →
          (I s + n - 1 ≤ 4095 → fst (cycle rnd s) = Ok tt)
          ∧ (4095 < I s + n - 1 → fst (cycle rnd s) = Raise IndexError))
       ∧ (Z.land opcode 0xF000 = 0xF000 → kk = 0x33 →
          (I s + 2 ≤ 4095 → fst (cycle rnd s) = Ok tt)
          ∧ (4095 < I s + 2 → fst (cycle rnd s) = Raise IndexError))
       ∧ (Z.land opcode 0xF000 = 0xF000 → kk = 0x55 ∨ kk = 0x65 →
          (I s + x ≤ 4095 → fst (cycle rnd s) = Ok tt)
          ∧ (4095 < I s + x → fst (cycle rnd s) = Raise IndexError))).
Proof.
  intros Hreach. pose proof (reachable_valid s Hreach) as Hv.
  pose proof (valid_shaped s Hv) as Hs.
  pose proof (shaped_memory s Hs) as Hmem.
  pose proof (valid_pc s Hv) as Hpc. pose proof (valid_I s Hv) as HI.
  split; [lia|]. split; [|split; [|split]].
  - intros addr Haddr. split.
    + intros Hin. split.
      * eexists. apply mem_read_run. lia.
      * intros v. by rewrite mem_write_run by lia.
    + intros Hout. split.
      * apply mem_read_beyond. lia.
      * intros v. apply mem_write_beyond. lia.
  - intros Hin. by apply fetch_in_bounds.
  - intros Hout. apply cycle_not_fetched. by apply fetch_out_of_bounds.
  - intros opcode Hf x n kk.
    pose proof (field_x_range opcode) as Hx.
    pose proof (field_y_range opcode) as Hy.
    rewrite (cycle_fetched _ _ _ Hf).
    set (s1 := set_pc (pc s + 2) s).
    assert (Hs1 : shaped s1) by (by apply shaped_set_pc).
    assert (HI1 : 0 ≤ I s1 ≤ 4095) by exact HI.
    change (I s) with (I s1).
    split; [|split].
    + intros Hop. rewrite (execute_Dxyn _ _ Hop). split; intros Hb.
      * by apply draw_in_bounds.
      * by apply draw_out_of_bounds.
    + intros Hop Hkk. rewrite (execute_Fxkk _ _ Hop). fold kk. rewrite Hkk.
      split; intros Hb.
      * by apply bcd_in_bounds.
      * by apply bcd_out_of_bounds.
    + intros Hop Hkk. rewrite (execute_Fxkk _ _ Hop). fold kk x.
      destruct Hkk as [-> | ->]; split; intros Hb.
      * by apply store_in_bounds.
      * by apply store_out_of_bounds.
      * by apply load_in_bounds.
      * by apply load_out_of_bounds.
Qed.

Lemma before_overrun_reachable : reachable before_overrun.
Proof.
  apply (reachable_cycle 0 loaded_overrun).
  - apply (reachable_loaded overrun_rom).
    + vm_compute. discriminate.
    + repeat constructor; vm_compute; discriminate.
    + vm_compute. reflexivity.
  - unfold byte. lia.
  - vm_compute. reflexivity.
Qed.

Lemma memory_access_bounds_witness :
  (∃ opcode, fetch before_overrun = (Ok opcode, before_overrun))
  ∧ fst (cycle 0 before_overrun) = Raise IndexError.
Proof.
  destruct (memory_access_bounds 0 before_overrun before_overrun_reachable)
    as (_ & _ & Hfetch & _ & Hexec).
  split.
  - apply Hfetch. vm_compute. discriminate.
  - assert (Hf : fetch before_overrun = (Ok 0xF155, before_overrun))
      by (vm_compute; reflexivity).
    destruct (Hexec 0xF155 Hf) as (_ & _ & Hstore).
    refine (proj2 (Hstore eq_refl (or_introl eq_refl)) _).
    vm_compute. reflexivity.
Defined.

(** ** The unknown-opcode exception is never raised *)

Section only_IndexError.
Context {A : Type}.

Lemma roi_ret (a : A) : raises_only_IndexError (mret a).
Proof. intros s e s' [=]. Qed.

Lemma roi_raise : raises_only_IndexError (raise IndexError : M A).
Proof. by intros s e s' [= <- _]. Qed.

Lemma roi_gets (f : Chip8 → A) : raises_only_IndexError (gets f).
Proof. intros s e s' [=]. Qed.

Lemma roi_lift (o : option A) : raises_only_IndexError (lift o).
Proof. destruct o; [apply roi_ret | apply roi_raise]. Qed.

Lemma roi_bind {B} (m : M B) (k : B → M A) :
  raises_only_IndexError m → (∀ b, raises_only_IndexError (k b)) →
  raises_only_IndexError (m ≫= k).
Proof.
  intros Hm Hk s e s'. rewrite run_bind.
  destruct (m s) as [[b|e0] s1] eqn:Hrun.
  - apply Hk.
  - intros [= <- _]. exact (Hm _ _ _ Hrun).
Qed.

Lemma roi_if (b : bool) (m1 m2 : M A) :
  raises_only_IndexError m1 → raises_only_IndexError m2 →
  raises_only_IndexError (if b then m1 else m2).
Proof. by destruct b. Qed.
End only_IndexError.

Lemma roi_modify (g : Chip8 → Chip8) : raises_only_IndexError (modify g).
Proof. intros s e s' [=]. Qed.

Lemma roi_for {A} (xs : list A) (body : A → M unit) :
  (∀ x, raises_only_IndexError (body x)) →
  raises_only_IndexError (for_ xs body).
Proof.
  intros Hbody. induction xs as [|x xs IH]; cbn [for_].
  - apply roi_ret.
  - apply roi_bind; [apply Hbody | intros _; exact IH].
Qed.

Lemma roi_scan_keys (candidates : list Z) :
  raises_only_IndexError (scan_keys candidates).
Proof.
  induction candidates as [|c cs IH]; cbn [scan_keys]; [apply roi_ret|].
  apply roi_bind; [|intros k; apply roi_if; [apply roi_ret | exact IH]].
  unfold get_key. apply roi_bind; [apply roi_gets | intros; apply roi_lift].
Qed.

Ltac roi :=
  repeat first
    [ apply roi_ret | apply roi_raise | apply roi_gets | apply roi_lift
    | apply roi_modify | apply roi_scan_keys
    | apply roi_if
    | apply roi_for; intros ?
    | apply roi_bind; [|intros ?]
    | match goal with
      | |- raises_only_IndexError (match ?o with Some _ => _ | None => _ end) =>
          destruct o
      | |- raises_only_IndexError (let '(_, _) := ?p in _) => destruct p
      end ].

(** The group of an opcode is one of sixteen. *)
Lemma group_cases (opcode : Z) :
  ∃ h, 0 ≤ h ≤ 15 ∧ Z.land opcode 0xF000 = h * 4096.
Proof.
  exists (Z.land (Z.shiftr opcode 12) 15). split; [apply land_range; lia|].
  rewrite <- (Z.shiftl_mul_pow2 _ 12) by lia.
  change 0xF000 with (Z.shiftl 15 12).
  apply Z.bits_inj'. intros k Hk.
  rewrite Z.land_spec, !Z.shiftl_spec by done.
  destruct (Z.lt_ge_cases k 12) as [Hlow|Hhigh].
  - rewrite (Z.testbit_neg_r 15 (k - 12)) by lia.
    rewrite (Z.testbit_neg_r (Z.land _ 15) (k - 12)) by lia.
    apply andb_false_r.
  - rewrite Z.land_spec, Z.shiftr_spec by lia.
    by replace (k - 12 + 12) with k by lia.
Qed.

Ltac group_value H :=
  match type of H with
  | _ = ?v => let v' := eval vm_compute in v in change v with v' in H
  end.

Lemma execute_only_IndexError (rnd opcode : Z) :
  raises_only_IndexError (execute rnd opcode).
Proof.
  destruct (group_cases opcode) as (h & Hh & Hgroup).
  unfold execute. cbv zeta.
  apply roi_if; [roi|]. apply roi_if; [unfold stack_pop; roi|].
  assert (Hcases : h = 0 ∨ h = 1 ∨ h = 2 ∨ h = 3 ∨ h = 4 ∨ h = 5 ∨ h = 6
                   ∨ h = 7 ∨ h = 8 ∨ h = 9 ∨ h = 10 ∨ h = 11 ∨ h = 12
                   ∨ h = 13 ∨ h = 14 ∨ h = 15) by lia.
  unfold exec_8, exec_D, exec_E, exec_F, draw_row, plot, get_pixel, xor_pixel,
    getV, setV, mem_read, mem_write, get_key, stack_append, pc_add.
  repeat (destruct Hcases as [Hcase|Hcases];
          [rewrite Hcase in Hgroup; group_value Hgroup;
           rewrite !Hgroup; cbn [Z.eqb Pos.eqb]; roi|]).
  rewrite Hcases in Hgroup. group_value Hgroup.
  rewrite !Hgroup. cbn [Z.eqb Pos.eqb]. roi.
Qed.

(** Whatever the state and the opcode, [cycle] raises IndexError or
    nothing: the [raise] at the end of its dispatch is never reached. *)
Lemma cycle_only_IndexError (rnd : Z) : raises_only_IndexError (cycle rnd).
Proof.
  unfold cycle. apply roi_bind.
  - unfold fetch, mem_read. roi.
  - intros opcode. apply roi_bind; [unfold pc_add; roi|].
    intros _. apply execute_only_IndexError.
Qed.

Lemma unmatched_check_all :
  all_from (Z.to_nat 65536) 0 unmatched_check = true.
Proof. vm_compute. reflexivity. Qed.

(** The opcodes that [cycle] lets pass without an instruction are those the
    disassembler calls UNKNOWN, outside the 0nnn group. *)
Lemma unmatched_is_unknown (opcode : Z) :
  0 ≤ opcode < 65536 →
  unmatched opcode = true →
  disassemble opcode = ("UNKNOWN " +:+ hex4 opcode)%string.
Proof.
  intros Hop Hun.
  pose proof (all_from_spec _ _ _ unmatched_check_all opcode ltac:(lia)) as Hu.
  pose proof (all_from_spec _ _ _ disassemble_check_all opcode ltac:(lia)) as Hd.
  unfold unmatched_check in Hu. unfold disassemble_check in Hd.
  rewrite Hun in Hu. apply Bool.eqb_prop in Hu. symmetry in Hu.
  apply andb_prop in Hu as [Hoff%negb_true_iff _].
  rewrite Hoff in Hd. by apply String.eqb_eq.
Qed.

(** * Further properties of the code *)

(** ** The fetch reads the memory at PC and nothing else *)

Lemma fetch_frame (s s' : Chip8) (r : outcome Z) :
  memory s' = memory s → pc s' = pc s →
  fetch s = (r, s) → fetch s' = (r, s').
Proof.
  intros Hm Hpc. unfold fetch. unfold_stmt. rewrite Hm, Hpc.
  destruct (getitem (memory s) (pc s)) as [hi|]; fields;
    [rewrite Hm, Hpc; destruct (getitem (memory s) (pc s + 1)) as [lo|]|];
    by intros [= <-].
Qed.

(** ** CALL and RET *)

Lemma list_pop_app {A} (l : list A) (a : A) : list_pop (l ++ [a]) = Some (a, l).
Proof. unfold list_pop. by rewrite reverse_snoc, reverse_involutive. Qed.

Lemma execute_00EE (rnd : Z) :
  execute rnd 0x00EE = (ret ← stack_pop; modify (set_pc ret)).
Proof. reflexivity. Qed.

(** X1.  CALL followed by the RET it reaches: the program counter is at the
    instruction after the CALL, the stack is as before, nothing else has
    changed. *)
Theorem call_then_ret (rnd1 rnd2 : Z) (s : Chip8) (opcode : Z) :
  let nnn := Z.land opcode 0x0FFF in
  fetch s = (Ok opcode, s) →
  Z.land opcode 0xF000 = 0x2000 →
  fetch (set_pc nnn s) = (Ok 0x00EE, set_pc nnn s) →
  (cycle rnd1;; cycle rnd2) s = (Ok tt, set_pc (pc s + 2) s).
Proof.
  intros nnn Hf Hop Hret.
  assert (Hcall : cycle rnd1 s =
    (Ok tt, set_pc nnn (set_stack (stack s ++ [pc s + 2]) s))).
  { rewrite (cycle_fetched _ _ _ Hf), (execute_2nnn _ _ Hop). reflexivity. }
  rewrite (bind_ok _ _ _ _ _ Hcall).
  set (s1 := set_pc nnn (set_stack (stack s ++ [pc s + 2]) s)).
  assert (Hf1 : fetch s1 = (Ok 0x00EE, s1))
    by (by apply (fetch_frame (set_pc nnn s))).
  rewrite (cycle_fetched _ _ _ Hf1), execute_00EE.
  unfold_stmt. unfold s1. fields. rewrite list_pop_app. fields.
  by destruct s.
Qed.

(** X2.  RET with nothing on the stack raises IndexError; the program counter
    has been advanced by then. *)
Theorem ret_on_empty_stack (rnd : Z) (s : Chip8) :
  fetch s = (Ok 0x00EE, s) →
  stack s = [] →
  cycle rnd s = (Raise IndexError, set_pc (pc s + 2) s).
Proof.
  intros Hf Hst. rewrite (cycle_fetched _ _ _ Hf), execute_00EE.
  unfold_stmt. fields. by rewrite Hst.
Qed.

Lemma call_then_ret_witness :
  (cycle 0 ;; cycle 0) at_call = (Ok tt, set_pc (pc at_call + 2) at_call).
Proof.
  assert (Hf : fetch at_call = (Ok 0x2300, at_call))
    by (vm_compute; reflexivity).
  assert (Hret : fetch (set_pc (Z.land 0x2300 0x0FFF) at_call)
                 = (Ok 0x00EE, set_pc (Z.land 0x2300 0x0FFF) at_call))
    by (vm_compute; reflexivity).
  exact (call_then_ret 0 0 at_call 0x2300 Hf eq_refl Hret).
Defined.

Lemma ret_on_empty_stack_witness :
  cycle 0 at_ret = (Raise IndexError, set_pc (pc at_ret + 2) at_ret).
Proof.
  assert (Hf : fetch at_ret = (Ok 0x00EE, at_ret)) by (vm_compute; reflexivity).
  assert (Hst : stack at_ret = []) by (vm_compute; reflexivity).
  exact (ret_on_empty_stack 0 at_ret Hf Hst).
Defined.

(** ** Compare and skip: 3xkk, 4xkk, 5xy0, 9xy0 *)

(** X3.  The instructions that compare leave everything but the program counter
    as it was, and advance it by 4 when their condition holds, by 2 when it
    does not. *)
Theorem compare_and_skip (rnd : Z) (s : Chip8) (opcode : Z) :
  let x := Z.shiftr (Z.land opcode 0x0F00) 8 in
  let y := Z.shiftr (Z.land opcode 0x00F0) 4 in
  let kk := Z.land opcode 0x00FF in
  let group := Z.land opcode 0xF000 in
  fetch s = (Ok opcode, s) →
  length (V s) = 16%nat →
  group = 0x3000 ∨ group = 0x4000
  ∨ ((group = 0x5000 ∨ group = 0x9000) ∧ Z.land opcode 0x000F = 0) →
  cycle rnd s =
    (Ok tt,
     set_pc (pc s + (if skip_condition group (reg s x) (reg s y) kk
                     then 4 else 2)) s).
Proof.
  intros x y kk group Hf HV Hgroup. subst group.
  pose proof (field_x_range opcode) as Hx.
  pose proof (field_y_range opcode) as Hy.
  rewrite (cycle_fetched _ _ _ Hf).
  set (s1 := set_pc (pc s + 2) s).
  assert (HV1 : length (V s1) = 16%nat) by exact HV.
  assert (Hskip : ∀ b : bool,
    (if b then pc_add 2 else mret tt) s1
    = (Ok tt, set_pc (pc s + (if b then 4 else 2)) s)).
  { intros []; [|reflexivity].
    change ((Ok tt, set_pc (pc s + 2 + 2) s) = (Ok tt, set_pc (pc s + 4) s)).
    by replace (pc s + 2 + 2) with (pc s + 4) by lia. }
  fold x y in Hx, Hy.
  destruct Hgroup as [Hg|[Hg|[[Hg|Hg] Hn]]]; dispatch Hg; fold x y kk;
    rewrite ?Hn; cbn [Z.eqb]; unfold skip_condition; rewrite ?Hg;
    cbn [Z.eqb Pos.eqb]; repeat regs_step; apply Hskip.
Qed.

Lemma compare_and_skip_witness :
  cycle 0 at_se = (Ok tt, set_pc (pc at_se + 4) at_se).
Proof.
  assert (Hf : fetch at_se = (Ok 0x3000, at_se)) by (vm_compute; reflexivity).
  assert (HV : length (V at_se) = 16%nat) by (vm_compute; reflexivity).
  pose proof (compare_and_skip 0 at_se 0x3000 Hf HV (or_introl eq_refl)) as H.
  assert (Hcond : skip_condition (Z.land 0x3000 0xF000)
                    (reg at_se (Z.shiftr (Z.land 0x3000 0x0F00) 8))
                    (reg at_se (Z.shiftr (Z.land 0x3000 0x00F0) 4))
                    (Z.land 0x3000 0x00FF) = true)
    by (vm_compute; reflexivity).
  by rewrite Hcond in H.
Defined.

(** ** The shifts: 8xy6 and 8xyE *)

Lemma land_1 (a : Z) : Z.land a 1 = a `mod` 2.
Proof. change 1 with (Z.ones 1). apply Z.land_ones. lia. Qed.

Lemma shr_1 (a : Z) : Z.shiftr a 1 = a `div` 2.
Proof. apply Z.shiftr_div_pow2. lia. Qed.

Lemma top_bit (a : Z) : byte a → Z.shiftr (Z.land a 0x80) 7 = a `div` 128.
Proof.
  intros [Hlo Hhi]. rewrite Z.shiftr_land. change (Z.shiftr 0x80 7) with 1.
  rewrite land_1, Z.shiftr_div_pow2 by lia. change (2 ^ 7) with 128.
  apply Z.mod_small. split; [apply Z.div_pos; lia|].
  apply Z.div_lt_upper_bound; lia.
Qed.

Lemma shl_1 (a : Z) : Z.land (Z.shiftl a 1) 0xFF = (2 * a) `mod` 256.
Proof.
  rewrite land_255, Z.shiftl_mul_pow2 by lia. f_equal. lia.
Qed.

Lemma reg_after_write (s : Chip8) (v : list Z) (i j b : Z) :
  0 ≤ i < Z.of_nat (length v) → 0 ≤ j →
  reg (set_V (<[Z.to_nat i:=b]> v) s) j
  = if decide (j = i) then b else default 0 (getitem v j).
Proof.
  intros Hi Hj. unfold reg. fields. case_decide as Hji.
  - subst j. by rewrite getitem_insert_eq.
  - by rewrite getitem_insert_ne by lia.
Qed.

(** X4.  The shifts work on Vx alone: VF receives the bit that leaves Vx, and
    Vx and VF together still hold the old value (SHR) or its double (SHL). *)
Theorem shift_flag_and_result (rnd : Z) (s : Chip8) (opcode : Z) :
  let x := Z.shiftr (Z.land opcode 0x0F00) 8 in
  let n := Z.land opcode 0x000F in
  fetch s = (Ok opcode, s) →
  length (V s) = 16%nat →
  Z.land opcode 0xF000 = 0x8000 →
  x ≠ 0xF →
  byte (reg s x) →
  (n = 0x6 →
   ∃ s', cycle rnd s = (Ok tt, s')
         ∧ reg s' 0xF = reg s x `mod` 2
         ∧ reg s' x = reg s x `div` 2
         ∧ reg s x = 2 * reg s' x + reg s' 0xF)
  ∧ (n = 0xE →
     ∃ s', cycle rnd s = (Ok tt, s')
           ∧ reg s' 0xF = reg s x `div` 128
           ∧ reg s' x = (2 * reg s x) `mod` 256
           ∧ 2 * reg s x = 256 * reg s' 0xF + reg s' x).
Proof.
  intros x n Hf HV Hop Hx15 Hbyte.
  pose proof (field_x_range opcode) as Hx.
  rewrite (cycle_fetched _ _ _ Hf), (execute_8xyn _ _ Hop).
  fold x n in Hx |- *.
  set (s1 := set_pc (pc s + 2) s).
  assert (HV1 : length (V s1) = 16%nat) by exact HV.
  change (reg s) with (reg s1) in *.
  split; intros ->; unfold exec_8; cbn [Z.eqb Pos.eqb]; repeat regs_step;
    fields; eexists; (split; [reflexivity|]).
  - rewrite !reg_after_write by (rewrite ?length_insert; lia).
    rewrite !(decide_False (P := 15 = x)), !(decide_False (P := x = 15)),
      !(decide_True (P := x = x)) by (lia || done).
    rewrite !(getitem_insert_eq (V s1) 15) by lia. cbn [default from_option id].
    change (default 0 (getitem (V s1) x)) with (reg s1 x).
    rewrite land_1, shr_1. split; [done|]. split; [done|].
    pose proof (Z.div_mod (reg s1 x) 2 ltac:(lia)). lia.
  - rewrite !reg_after_write by (rewrite ?length_insert; lia).
    rewrite !(decide_False (P := 15 = x)), !(decide_False (P := x = 15)),
      !(decide_True (P := x = x)) by (lia || done).
    rewrite !(getitem_insert_eq (V s1) 15) by lia. cbn [default from_option id].
    change (default 0 (getitem (V s1) x)) with (reg s1 x).
    rewrite (top_bit _ Hbyte), shl_1. split; [done|]. split; [done|].
    pose proof (Z.div_mod (2 * reg s1 x) 256 ltac:(lia)) as Hdm.
    replace ((2 * reg s1 x) `div` 256) with (reg s1 x `div` 128) in Hdm; [lia|].
    change 256 with (2 * 128). by rewrite Z.div_mul_cancel_l by lia.
Qed.

Lemma shift_flag_and_result_witness :
  (∃ s', cycle 0 before_shr = (Ok tt, s') ∧ reg s' 0xF = 1 ∧ reg s' 1 = 0x40)
  ∧ (∃ s', cycle 0 before_shl = (Ok tt, s')
           ∧ reg s' 0xF = 0 ∧ reg s' 1 = 0x80).
Proof.
  split.
  - assert (Hf : fetch before_shr = (Ok 0x8106, before_shr))
      by (vm_compute; reflexivity).
    assert (HV : length (V before_shr) = 16%nat) by (vm_compute; reflexivity).
    assert (Hx : Z.shiftr (Z.land 0x8106 0x0F00) 8 ≠ 0xF)
      by (vm_compute; discriminate).
    assert (Hb : byte (reg before_shr (Z.shiftr (Z.land 0x8106 0x0F00) 8)))
      by (vm_compute; split; discriminate).
    destruct (shift_flag_and_result 0 before_shr 0x8106 Hf HV eq_refl Hx Hb)
      as [Hshr _].
    destruct (Hshr eq_refl) as (s' & Hrun & Hflag & Hres & _).
    exists s'. split; [exact Hrun|]. split.
    + rewrite Hflag. vm_compute. reflexivity.
    + change 1 with (Z.shiftr (Z.land 0x8106 0x0F00) 8) at 1.
      rewrite Hres. vm_compute. reflexivity.
  - assert (Hf : fetch before_shl = (Ok 0x810E, before_shl))
      by (vm_compute; reflexivity).
    assert (HV : length (V before_shl) = 16%nat) by (vm_compute; reflexivity).
    assert (Hx : Z.shiftr (Z.land 0x810E 0x0F00) 8 ≠ 0xF)
      by (vm_compute; discriminate).
    assert (Hb : byte (reg before_shl (Z.shiftr (Z.land 0x810E 0x0F00) 8)))
      by (vm_compute; split; discriminate).
    destruct (shift_flag_and_result 0 before_shl 0x810E Hf HV eq_refl Hx Hb)
      as [_ Hshl].
    destruct (Hshl eq_refl) as (s' & Hrun & Hflag & Hres & _).
    exists s'. split; [exact Hrun|]. split.
    + rewrite Hflag. vm_compute. reflexivity.
    + change 1 with (Z.shiftr (Z.land 0x810E 0x0F00) 8) at 1.
      rewrite Hres. vm_compute. reflexivity.
Defined.

(** ** 7xkk: the addition of a constant *)

Lemma execute_7xkk (rnd opcode : Z) :
  Z.land opcode 0xF000 = 0x7000 →
  execute rnd opcode =
    (vx ← getV (Z.shiftr (Z.land opcode 0x0F00) 8);
     setV (Z.shiftr (Z.land opcode 0x0F00) 8)
          (Z.land (vx + Z.land opcode 0x00FF) 0xFF)).
Proof. intros H. dispatch H. reflexivity. Qed.

(** X5.  ADD Vx, kk wraps around at 256 and sets no carry: every register but Vx,
    VF among them, keeps its value. *)
Theorem add_immediate_wraps (rnd : Z) (s : Chip8) (opcode : Z) :
  let x := Z.shiftr (Z.land opcode 0x0F00) 8 in
  let kk := Z.land opcode 0x00FF in
  fetch s = (Ok opcode, s) →
  length (V s) = 16%nat →
  Z.land opcode 0xF000 = 0x7000 →
  ∃ s', cycle rnd s = (Ok tt, s')
        ∧ reg s' x = (reg s x + kk) `mod` 256
        ∧ (∀ i, 0 ≤ i ≤ 15 → i ≠ x → reg s' i = reg s i).
Proof.
  intros x kk Hf HV Hop.
  pose proof (field_x_range opcode) as Hx.
  rewrite (cycle_fetched _ _ _ Hf), (execute_7xkk _ _ Hop).
  fold x kk in Hx |- *.
  set (s1 := set_pc (pc s + 2) s).
  assert (HV1 : length (V s1) = 16%nat) by exact HV.
  change (reg s) with (reg s1).
  repeat regs_step. eexists. split; [reflexivity|]. split.
  - rewrite reg_after_write, decide_True, land_255 by (done || lia). done.
  - intros i Hi Hne. by rewrite reg_after_write, decide_False by (done || lia).
Qed.

Lemma add_immediate_wraps_witness :
  ∃ s', cycle 0 before_add_imm = (Ok tt, s') ∧ reg s' 2 = 4 ∧ reg s' 0xF = 0.
Proof.
  assert (Hf : fetch before_add_imm = (Ok 0x720A, before_add_imm))
    by (vm_compute; reflexivity).
  assert (HV : length (V before_add_imm) = 16%nat)
    by (vm_compute; reflexivity).
  destruct (add_immediate_wraps 0 before_add_imm 0x720A Hf HV eq_refl)
    as (s' & Hrun & Hres & Hothers).
  assert (Hne : 0xF ≠ Z.shiftr (Z.land 0x720A 0x0F00) 8)
    by (vm_compute; discriminate).
  pose proof (Hothers 0xF ltac:(lia) Hne) as HF.
  match type of Hres with _ = ?r =>
    assert (E : r = 4) by (vm_compute; reflexivity); rewrite E in Hres end.
  match type of HF with _ = ?r =>
    assert (E' : r = 0) by (vm_compute; reflexivity); rewrite E' in HF end.
  exists s'. split; [exact Hrun|]. split; [exact Hres | exact HF].
Defined.
(** ** Ex9E and ExA1: the skips on a key *)

Lemma execute_Exkk (rnd opcode : Z) :
  Z.land opcode 0xF000 = 0xE000 →
  execute rnd opcode =
    exec_E (Z.shiftr (Z.land opcode 0x0F00) 8) (Z.land opcode 0x00FF).
Proof. intros H. dispatch H. reflexivity. Qed.

(** X6.  SKP and SKNP index the sixteen keys with the value of Vx: a value up to
    15 selects a key, and the skip is taken when that key is 1 (SKP) or 0
    (SKNP); a larger value raises IndexError. *)
Theorem skip_on_key (rnd : Z) (s : Chip8) (opcode : Z) :
  let x := Z.shiftr (Z.land opcode 0x0F00) 8 in
  let kk := Z.land opcode 0x00FF in
  fetch s = (Ok opcode, s) →
  length (V s) = 16%nat →
  length (keys s) = 16%nat →
  Z.land opcode 0xF000 = 0xE000 →
  kk = 0x9E ∨ kk = 0xA1 →
  0 ≤ reg s x →
  (reg s x ≤ 15 →
   cycle rnd s =
     (Ok tt,
      set_pc (pc s + (if key s (reg s x) =? (if kk =? 0x9E then 1 else 0)
                      then 4 else 2)) s))
  ∧ (15 < reg s x → cycle rnd s = (Raise IndexError, set_pc (pc s + 2) s)).
Proof.
  intros x kk Hf HV Hk Hop Hkk Hvx.
  pose proof (field_x_range opcode) as Hx.
  rewrite (cycle_fetched _ _ _ Hf), (execute_Exkk _ _ Hop).
  fold x kk in Hx |- *.
  set (s1 := set_pc (pc s + 2) s).
  assert (HV1 : length (V s1) = 16%nat) by exact HV.
  assert (Hk1 : length (keys s1) = 16%nat) by exact Hk.
  change (reg s) with (reg s1) in *. change (key s) with (key s1).
  assert (Hskip : ∀ b : bool,
    (if b then pc_add 2 else mret tt) s1
    = (Ok tt, set_pc (pc s + (if b then 4 else 2)) s)).
  { intros []; [|reflexivity].
    change ((Ok tt, set_pc (pc s + 2 + 2) s) = (Ok tt, set_pc (pc s + 4) s)).
    by replace (pc s + 2 + 2) with (pc s + 4) by lia. }
  split.
  - intros Hin.
    destruct Hkk as [-> | ->]; unfold exec_E; cbn [Z.eqb Pos.eqb];
      regs_step;
      rewrite (bind_ok _ _ _ _ _ (get_key_run s1 (reg s1 x) Hk1 ltac:(lia)));
      apply Hskip.
  - intros Hout.
    assert (Hraise : get_key (reg s1 x) s1 = (Raise IndexError, s1)).
    { unfold_stmt. by rewrite getitem_beyond by lia. }
    destruct Hkk as [-> | ->]; unfold exec_E; cbn [Z.eqb Pos.eqb];
      regs_step; by rewrite (bind_raise _ _ _ _ _ Hraise).
Qed.

Lemma skip_on_key_witness :
  cycle 0 before_key7 = (Ok tt, set_pc (pc before_key7 + 4) before_key7)
  ∧ cycle 0 before_bad_key
    = (Raise IndexError, set_pc (pc before_bad_key + 2) before_bad_key).
Proof.
  split.
  - assert (Hf : fetch before_key7 = (Ok 0xE09E, before_key7))
      by (vm_compute; reflexivity).
    assert (HV : length (V before_key7) = 16%nat) by (vm_compute; reflexivity).
    assert (Hk : length (keys before_key7) = 16%nat)
      by (vm_compute; reflexivity).
    assert (Hvx : 0 ≤ reg before_key7 (Z.shiftr (Z.land 0xE09E 0x0F00) 8))
      by (vm_compute; discriminate).
    assert (Hle : reg before_key7 (Z.shiftr (Z.land 0xE09E 0x0F00) 8) ≤ 15)
      by (vm_compute; discriminate).
    pose proof (proj1 (skip_on_key 0 before_key7 0xE09E Hf HV Hk eq_refl
                         (or_introl eq_refl) Hvx) Hle) as Hin.
    match type of Hin with context [if ?c then 4 else 2] =>
      assert (Hcond : c = true) by (vm_compute; reflexivity);
      rewrite Hcond in Hin end.
    exact Hin.
  - assert (Hf : fetch before_bad_key = (Ok 0xE09E, before_bad_key))
      by (vm_compute; reflexivity).
    assert (HV : length (V before_bad_key) = 16%nat)
      by (vm_compute; reflexivity).
    assert (Hk : length (keys before_bad_key) = 16%nat)
      by (vm_compute; reflexivity).
    assert (Hvx : 0 ≤ reg before_bad_key (Z.shiftr (Z.land 0xE09E 0x0F00) 8))
      by (vm_compute; discriminate).
    assert (Hgt : 15 < reg before_bad_key (Z.shiftr (Z.land 0xE09E 0x0F00) 8))
      by (vm_compute; reflexivity).
    exact (proj2 (skip_on_key 0 before_bad_key 0xE09E Hf HV Hk eq_refl
                    (or_introl eq_refl) Hvx) Hgt).
Defined.

(** ** Fx33, Fx55, Fx65: what the memory and the registers hold afterwards *)

Lemma mem_after_write (s : Chip8) (m : list Z) (a b v : Z) :
  0 ≤ a < Z.of_nat (length m) → 0 ≤ b →
  mem (set_memory (<[Z.to_nat a:=v]> m) s) b
  = if decide (b = a) then v else default 0 (getitem m b).
Proof.
  intros Ha Hb. unfold mem. fields. case_decide as Hba.
  - subst b. by rewrite getitem_insert_eq.
  - by rewrite getitem_insert_ne by lia.
Qed.

(** X7.  LD B, Vx writes the three decimal digits of Vx at I, I+1 and I+2, most
    significant first, and nothing else. *)
Theorem bcd_digits (rnd : Z) (s : Chip8) (opcode : Z) :
  let x := Z.shiftr (Z.land opcode 0x0F00) 8 in
  fetch s = (Ok opcode, s) →
  length (V s) = 16%nat →
  length (memory s) = 4096%nat →
  Z.land opcode 0xF000 = 0xF000 →
  Z.land opcode 0x00FF = 0x33 →
  0 ≤ I s →
  I s + 2 ≤ 4095 →
  byte (reg s x) →
  ∃ s', cycle rnd s = (Ok tt, s')
        ∧ reg s x = 100 * mem s' (I s) + 10 * mem s' (I s + 1) + mem s' (I s + 2)
        ∧ 0 ≤ mem s' (I s) ≤ 2
        ∧ 0 ≤ mem s' (I s + 1) ≤ 9
        ∧ 0 ≤ mem s' (I s + 2) ≤ 9
        ∧ (∀ a, 0 ≤ a → ¬ (I s ≤ a ≤ I s + 2) → mem s' a = mem s a)
        ∧ V s' = V s ∧ I s' = I s.
Proof.
  intros x Hf HV Hm Hop Hkk HI Hhi Hb.
  pose proof (field_x_range opcode) as Hx.
  rewrite (cycle_fetched _ _ _ Hf), (execute_Fxkk _ _ Hop), Hkk.
  fold x in Hx |- *.
  set (s1 := set_pc (pc s + 2) s).
  assert (HV1 : length (V s1) = 16%nat) by exact HV.
  unfold exec_F. cbn [Z.eqb Pos.eqb].
  assert (Hm1 : length (memory s1) = 4096%nat) by exact Hm.
  assert (HI1 : I s1 = I s) by reflexivity.
  regs_step. rewrite gets_bind.
  rewrite (bind_ok _ _ _ _ _
             (mem_write_run s1 (I s1) _ ltac:(rewrite Hm1, HI1; lia))).
  change (reg s1 x) with (reg s x). change (I s1) with (I s).
  set (m2 := <[Z.to_nat (I s):=reg s x `div` 100]> (memory s1)).
  assert (Hm2 : length m2 = 4096%nat) by (unfold m2; by rewrite length_insert).
  rewrite gets_bind.
  rewrite (bind_ok _ _ _ _ _
             (mem_write_run (set_memory m2 s1) (I s + 1) _
                ltac:(fields; rewrite Hm2; lia))).
  change (memory (set_memory m2 s1)) with m2.
  set (m3 := <[Z.to_nat (I s + 1):=(reg s x `div` 10) `mod` 10]> m2).
  assert (Hm3 : length m3 = 4096%nat) by (unfold m3; by rewrite length_insert).
  rewrite gets_bind.
  rewrite (mem_write_run (set_memory m3 s1) (I s + 2) _
             ltac:(fields; rewrite Hm3; lia)).
  change (memory (set_memory m3 s1)) with m3. rewrite set_memory_twice.
  eexists. split; [reflexivity|].
  assert (Hd0 : mem (set_memory (<[Z.to_nat (I s + 2):=reg s x `mod` 10]> m3)
                       s1) (I s) = reg s x `div` 100).
  { rewrite mem_after_write, decide_False by lia. unfold m3, m2.
    rewrite getitem_insert_ne, getitem_insert_eq by lia. done. }
  assert (Hd1 : mem (set_memory (<[Z.to_nat (I s + 2):=reg s x `mod` 10]> m3)
                       s1) (I s + 1) = (reg s x `div` 10) `mod` 10).
  { rewrite mem_after_write, decide_False by lia. unfold m3.
    rewrite getitem_insert_eq by lia. done. }
  assert (Hd2 : mem (set_memory (<[Z.to_nat (I s + 2):=reg s x `mod` 10]> m3)
                       s1) (I s + 2) = reg s x `mod` 10).
  { by rewrite mem_after_write, decide_True by lia. }
  rewrite Hd0, Hd1, Hd2. unfold byte in Hb.
  split; [|split; [|split; [|split; [|split]]]].
  - pose proof (Z.div_mod (reg s x) 10 ltac:(lia)) as H1.
    pose proof (Z.div_mod (reg s x `div` 10) 10 ltac:(lia)) as H2.
    rewrite Z.div_div in H2 by lia. change (10 * 10) with 100 in H2. lia.
  - split; [apply Z.div_pos; lia|].
    apply Z.lt_succ_r, Z.div_lt_upper_bound; lia.
  - pose proof (Z.mod_pos_bound (reg s x `div` 10) 10 ltac:(lia)). lia.
  - pose proof (Z.mod_pos_bound (reg s x) 10 ltac:(lia)). lia.
  - intros a Ha Hout.
    rewrite mem_after_write, decide_False by lia. unfold m3, m2.
    rewrite !getitem_insert_ne by lia. done.
  - done.
Qed.

Lemma bcd_digits_witness :
  ∃ s', cycle 0 before_bcd = (Ok tt, s')
        ∧ mem s' 0x300 = 2 ∧ mem s' 0x301 = 5 ∧ mem s' 0x302 = 4.
Proof.
  assert (Hf : fetch before_bcd = (Ok 0xF033, before_bcd))
    by (vm_compute; reflexivity).
  assert (HV : length (V before_bcd) = 16%nat) by (vm_compute; reflexivity).
  assert (Hm : length (memory before_bcd) = 4096%nat)
    by (vm_compute; reflexivity).
  assert (HI : I before_bcd = 0x300) by (vm_compute; reflexivity).
  assert (Hr : reg before_bcd (Z.shiftr (Z.land 0xF033 0x0F00) 8) = 254)
    by (vm_compute; reflexivity).
  destruct (bcd_digits 0 before_bcd 0xF033 Hf HV Hm eq_refl eq_refl
              ltac:(rewrite HI; lia) ltac:(rewrite HI; lia)
              ltac:(rewrite Hr; unfold byte; lia))
    as (s' & Hrun & Hsum & Hh & Ht & Hu & _).
  rewrite Hr, HI in Hsum. rewrite HI in Hh, Ht, Hu.
  exists s'. split; [exact Hrun|].
  change (0x300 + 1) with 0x301 in *. change (0x300 + 2) with 0x302 in *.
  lia.
Defined.

Lemma set_V_twice (v v' : list Z) (s : Chip8) :
  set_V v (set_V v' s) = set_V v s.
Proof. reflexivity. Qed.

Lemma set_V_id (s : Chip8) : set_V (V s) s = s.
Proof. by destruct s. Qed.

(** The loop of Fx55 over the registers [a .. a + n - 1], from a machine whose
    memory is [m]. *)
Lemma store_loop (n : nat) : ∀ (a : Z) (m : list Z) (s : Chip8),
  length (V s) = 16%nat → length m = 4096%nat →
  0 ≤ a → a + Z.of_nat n ≤ 16 → 0 ≤ I s → I s + a + Z.of_nat n ≤ 4096 →
  ∃ m', for_ (seqZ a (Z.of_nat n))
          (λ i, vi ← getV i; b ← gets I; mem_write (b + i) vi)
          (set_memory m s) = (Ok tt, set_memory m' s)
        ∧ length m' = 4096%nat
        ∧ ∀ addr, 0 ≤ addr →
            default 0 (getitem m' addr)
            = if decide (I s + a ≤ addr < I s + a + Z.of_nat n) then reg s (addr - I s)
              else default 0 (getitem m addr).
Proof.
  induction n as [|n IH]; intros a m s HV Hm Ha Hn HI Hhi.
  - exists m. split; [reflexivity|]. split; [done|].
    intros addr _. by rewrite decide_False by lia.
  - rewrite seqZ_cons by lia. cbn [for_].
    replace (Z.pred (Z.of_nat (S n))) with (Z.of_nat n) by lia.
    assert (Hbody :
      (vi ← getV a; b ← gets I; mem_write (b + a) vi) (set_memory m s)
      = (Ok tt, set_memory (<[Z.to_nat (I s + a):=reg s a]> m) s)).
    { rewrite (bind_ok _ _ _ _ _
                 (getV_run (set_memory m s) a HV ltac:(lia))), gets_bind.
      rewrite mem_write_run by (fields; lia). reflexivity. }
    rewrite (bind_ok _ _ _ _ _ Hbody).
    destruct (IH (Z.succ a) (<[Z.to_nat (I s + a):=reg s a]> m) s)
      as (m' & Hrun & Hlen & Hget);
      [done | by rewrite length_insert | lia | lia | lia | lia |].
    exists m'. split; [exact Hrun|]. split; [exact Hlen|].
    intros addr Haddr. rewrite Hget by done.
    destruct (decide (addr = I s + a)) as [->|Hne].
    + rewrite decide_False, decide_True by lia.
      rewrite getitem_insert_eq by lia.
      by replace (I s + a - I s) with a by lia.
    + rewrite getitem_insert_ne by lia.
      repeat case_decide; (done || lia).
Qed.

(** The loop of Fx65 over the registers [a .. a + n - 1], from a machine whose
    registers are [v]. *)
Lemma load_loop (n : nat) : ∀ (a : Z) (v : list Z) (s : Chip8),
  length v = 16%nat → length (memory s) = 4096%nat →
  0 ≤ a → a + Z.of_nat n ≤ 16 → 0 ≤ I s → I s + a + Z.of_nat n ≤ 4096 →
  ∃ v', for_ (seqZ a (Z.of_nat n))
          (λ i, b ← gets I; c ← mem_read (b + i); setV i c)
          (set_V v s) = (Ok tt, set_V v' s)
        ∧ length v' = 16%nat
        ∧ ∀ j, 0 ≤ j →
            default 0 (getitem v' j)
            = if decide (a ≤ j < a + Z.of_nat n) then mem s (I s + j)
              else default 0 (getitem v j).
Proof.
  induction n as [|n IH]; intros a v s Hv Hm Ha Hn HI Hhi.
  - exists v. split; [reflexivity|]. split; [done|].
    intros j _. by rewrite decide_False by lia.
  - rewrite seqZ_cons by lia. cbn [for_].
    replace (Z.pred (Z.of_nat (S n))) with (Z.of_nat n) by lia.
    assert (Hbody :
      (b ← gets I; c ← mem_read (b + a); setV a c) (set_V v s)
      = (Ok tt, set_V (<[Z.to_nat a:=mem s (I s + a)]> v) s)).
    { rewrite gets_bind.
      rewrite (bind_ok _ _ _ _ _
                 (mem_read_run (set_V v s) (I s + a) ltac:(fields; lia))).
      rewrite setV_run by (fields; lia). reflexivity. }
    rewrite (bind_ok _ _ _ _ _ Hbody).
    destruct (IH (Z.succ a) (<[Z.to_nat a:=mem s (I s + a)]> v) s)
      as (v' & Hrun & Hlen & Hget);
      [by rewrite length_insert | done | lia | lia | lia | lia |].
    exists v'. split; [exact Hrun|]. split; [exact Hlen|].
    intros j Hj. rewrite Hget by done.
    destruct (decide (j = a)) as [->|Hne].
    + rewrite decide_False, decide_True by lia.
      by rewrite getitem_insert_eq by lia.
    + rewrite getitem_insert_ne by lia.
      repeat case_decide; (done || lia).
Qed.

Lemma exec_store_run (x : Z) (s : Chip8) :
  length (V s) = 16%nat → length (memory s) = 4096%nat →
  0 ≤ x ≤ 15 → 0 ≤ I s → I s + x ≤ 4095 →
  ∃ m', exec_F x 0x55 s = (Ok tt, set_memory m' s)
        ∧ length m' = 4096%nat
        ∧ (∀ i, 0 ≤ i ≤ x → default 0 (getitem m' (I s + i)) = reg s i)
        ∧ (∀ a, 0 ≤ a → ¬ (I s ≤ a ≤ I s + x) →
             default 0 (getitem m' a) = mem s a).
Proof.
  intros HV Hm Hx HI Hhi. unfold exec_F, range. cbn [Z.eqb Pos.eqb].
  destruct (store_loop (Z.to_nat (x + 1)) 0 (memory s) s)
    as (m' & Hrun & Hlen & Hget); [done | done | lia | lia | done | lia |].
  rewrite Z2Nat.id in Hrun, Hget by lia. rewrite set_memory_id in Hrun.
  exists m'. split; [exact Hrun|]. split; [exact Hlen|]. split.
  - intros i Hi. rewrite Hget, decide_True by lia.
    by replace (I s + i - I s) with i by lia.
  - intros a Ha Hout. by rewrite Hget, decide_False by lia.
Qed.

Lemma exec_load_run (x : Z) (s : Chip8) :
  length (V s) = 16%nat → length (memory s) = 4096%nat →
  0 ≤ x ≤ 15 → 0 ≤ I s → I s + x ≤ 4095 →
  ∃ v', exec_F x 0x65 s = (Ok tt, set_V v' s)
        ∧ length v' = 16%nat
        ∧ (∀ i, 0 ≤ i ≤ x → default 0 (getitem v' i) = mem s (I s + i))
        ∧ (∀ i, x < i → default 0 (getitem v' i) = reg s i).
Proof.
  intros HV Hm Hx HI Hhi. unfold exec_F, range. cbn [Z.eqb Pos.eqb].
  destruct (load_loop (Z.to_nat (x + 1)) 0 (V s) s)
    as (v' & Hrun & Hlen & Hget); [done | done | lia | lia | done | lia |].
  rewrite Z2Nat.id in Hrun, Hget by lia. rewrite set_V_id in Hrun.
  exists v'. split; [exact Hrun|]. split; [exact Hlen|]. split.
  - intros i Hi. by rewrite Hget, decide_True by lia.
  - intros i Hi. by rewrite Hget, decide_False by lia.
Qed.

(** X8.  LD [I], Vx copies V0..Vx to the memory from I on, and writes nowhere
    else; the registers, I and the rest of the machine are as after the
    fetch. *)
Theorem store_registers (rnd : Z) (s : Chip8) (opcode : Z) :
  let x := Z.shiftr (Z.land opcode 0x0F00) 8 in
  fetch s = (Ok opcode, s) →
  length (V s) = 16%nat →
  length (memory s) = 4096%nat →
  Z.land opcode 0xF000 = 0xF000 →
  Z.land opcode 0x00FF = 0x55 →
  0 ≤ I s →
  I s + x ≤ 4095 →
  ∃ m', cycle rnd s = (Ok tt, set_memory m' (set_pc (pc s + 2) s))
        ∧ length m' = 4096%nat
        ∧ (∀ i, 0 ≤ i ≤ x → default 0 (getitem m' (I s + i)) = reg s i)
        ∧ (∀ a, 0 ≤ a → ¬ (I s ≤ a ≤ I s + x) →
             default 0 (getitem m' a) = mem s a).
Proof.
  intros x Hf HV Hm Hop Hkk HI Hhi.
  rewrite (cycle_fetched _ _ _ Hf), (execute_Fxkk _ _ Hop), Hkk.
  exact (exec_store_run x (set_pc (pc s + 2) s) HV Hm
           (field_x_range opcode) HI Hhi).
Qed.

Lemma store_registers_witness :
  ∃ m', cycle 0 before_store
        = (Ok tt, set_memory m' (set_pc (pc before_store + 2) before_store))
        ∧ default 0 (getitem m' 0x302) = 7.
Proof.
  assert (Hf : fetch before_store = (Ok 0xF255, before_store))
    by (vm_compute; reflexivity).
  assert (HV : length (V before_store) = 16%nat) by (vm_compute; reflexivity).
  assert (Hm : length (memory before_store) = 4096%nat)
    by (vm_compute; reflexivity).
  assert (HI : I before_store = 0x300) by (vm_compute; reflexivity).
  assert (Hr : reg before_store 2 = 7) by (vm_compute; reflexivity).
  destruct (store_registers 0 before_store 0xF255 Hf HV Hm eq_refl eq_refl
              ltac:(rewrite HI; lia) ltac:(rewrite HI; vm_compute; discriminate))
    as (m' & Hrun & _ & Hget & _).
  exists m'. split; [exact Hrun|].
  pose proof (Hget 2 ltac:(vm_compute; split; discriminate)) as H2.
  rewrite HI, Hr in H2. exact H2.
Defined.

(** X9.  LD Vx, [I] copies the memory from I on to V0..Vx, and leaves the other
    registers, the memory and the rest of the machine as after the fetch. *)
Theorem load_registers (rnd : Z) (s : Chip8) (opcode : Z) :
  let x := Z.shiftr (Z.land opcode 0x0F00) 8 in
  fetch s = (Ok opcode, s) →
  length (V s) = 16%nat →
  length (memory s) = 4096%nat →
  Z.land opcode 0xF000 = 0xF000 →
  Z.land opcode 0x00FF = 0x65 →
  0 ≤ I s →
  I s + x ≤ 4095 →
  ∃ v', cycle rnd s = (Ok tt, set_V v' (set_pc (pc s + 2) s))
        ∧ length v' = 16%nat
        ∧ (∀ i, 0 ≤ i ≤ x → default 0 (getitem v' i) = mem s (I s + i))
        ∧ (∀ i, x < i → default 0 (getitem v' i) = reg s i).
Proof.
  intros x Hf HV Hm Hop Hkk HI Hhi.
  rewrite (cycle_fetched _ _ _ Hf), (execute_Fxkk _ _ Hop), Hkk.
  exact (exec_load_run x (set_pc (pc s + 2) s) HV Hm
           (field_x_range opcode) HI Hhi).
Qed.

Lemma load_registers_witness :
  ∃ v', cycle 0 before_load
        = (Ok tt, set_V v' (set_pc (pc before_load + 2) before_load))
        ∧ default 0 (getitem v' 2) = 7.
Proof.
  assert (Hf : fetch before_load = (Ok 0xF265, before_load))
    by (vm_compute; reflexivity).
  assert (HV : length (V before_load) = 16%nat) by (vm_compute; reflexivity).
  assert (Hm : length (memory before_load) = 4096%nat)
    by (vm_compute; reflexivity).
  assert (HI : I before_load = 0x300) by (vm_compute; reflexivity).
  assert (Hr : mem before_load 0x302 = 7) by (vm_compute; reflexivity).
  destruct (load_registers 0 before_load 0xF265 Hf HV Hm eq_refl eq_refl
              ltac:(rewrite HI; lia) ltac:(rewrite HI; vm_compute; discriminate))
    as (v' & Hrun & _ & Hget & _).
  exists v'. split; [exact Hrun|].
  pose proof (Hget 2 ltac:(vm_compute; split; discriminate)) as H2.
  rewrite HI in H2. change (0x300 + 2) with 0x302 in H2.
  rewrite Hr in H2. exact H2.
Defined.

(** ** The fetch, and a store followed by a load *)

Lemma fetch_opcode_at (s : Chip8) :
  length (memory s) = 4096%nat → 0 ≤ pc s → pc s + 1 ≤ 4095 →
  fetch s = (Ok (opcode_at s (pc s)), s).
Proof.
  intros Hm Hlo Hhi. unfold fetch. rewrite gets_bind.
  rewrite (bind_ok _ _ _ _ _ (mem_read_run s (pc s) ltac:(lia))).
  rewrite gets_bind.
  rewrite (bind_ok _ _ _ _ _ (mem_read_run s (pc s + 1) ltac:(lia))).
  reflexivity.
Qed.

Lemma list_eq_getitem (l l' : list Z) :
  length l = length l' →
  (∀ j, 0 ≤ j → default 0 (getitem l j) = default 0 (getitem l' j)) →
  l = l'.
Proof.
  intros Hlen Hget. apply list_eq. intros i.
  destruct (decide (i < length l)%nat) as [Hi|Hi].
  - specialize (Hget (Z.of_nat i) ltac:(lia)).
    rewrite !getitem_nonneg, Nat2Z.id in Hget by lia.
    destruct (lookup_lt_is_Some_2 l i Hi) as [a Ha].
    destruct (lookup_lt_is_Some_2 l' i ltac:(lia)) as [b Hb].
    rewrite Ha, Hb in Hget |- *. cbn in Hget. by subst.
  - rewrite !lookup_ge_None_2 by lia. done.
Qed.

(** X10.  A store LD [I], Vx followed by the load LD Vx, [I] of the same registers
    gives every register the value it had: the load reads back what the store
    wrote, provided that the store did not write over the load instruction. *)
Theorem store_then_load (rnd1 rnd2 : Z) (s : Chip8) (op1 op2 : Z) :
  let x := Z.shiftr (Z.land op1 0x0F00) 8 in
  fetch s = (Ok op1, s) →
  length (V s) = 16%nat →
  length (memory s) = 4096%nat →
  Z.land op1 0xF000 = 0xF000 → Z.land op1 0x00FF = 0x55 →
  0 ≤ I s → I s + x ≤ 4095 →
  0 ≤ pc s → pc s + 3 ≤ 4095 →
  opcode_at s (pc s + 2) = op2 →
  Z.land op2 0xF000 = 0xF000 → Z.land op2 0x00FF = 0x65 →
  Z.shiftr (Z.land op2 0x0F00) 8 = x →
  I s + x < pc s + 2 ∨ pc s + 3 < I s →
  ∃ m', (cycle rnd1;; cycle rnd2) s
        = (Ok tt, set_memory m' (set_pc (pc s + 4) s))
        ∧ (∀ i, 0 ≤ i ≤ x → default 0 (getitem m' (I s + i)) = reg s i).
Proof.
  intros x Hf HV Hm Hop1 Hkk1 HI Hhi Hpc Hpchi Hat Hop2 Hkk2 Hx2 Hapart.
  pose proof (field_x_range op1) as Hx. fold x in Hx.
  set (s1 := set_pc (pc s + 2) s).
  destruct (exec_store_run x s1 HV Hm Hx HI Hhi)
    as (m' & Hrun1 & Hlen & Hstored & Hrest).
  assert (Hcycle1 : cycle rnd1 s = (Ok tt, set_memory m' s1)).
  { by rewrite (cycle_fetched _ _ _ Hf), (execute_Fxkk _ _ Hop1), Hkk1. }
  rewrite (bind_ok _ _ _ _ _ Hcycle1).
  set (s2 := set_memory m' s1).
  assert (Hf2 : fetch s2 = (Ok op2, s2)).
  { rewrite (fetch_opcode_at s2) by (unfold s2, s1; fields; lia).
    do 2 f_equal. rewrite <- Hat. unfold opcode_at, mem. unfold s2, s1. fields.
    change (default 0 (getitem (memory s) ?a)) with (mem s1 a).
    by rewrite <- !Hrest by (unfold s1; fields; lia). }
  rewrite (cycle_fetched _ _ _ Hf2), (execute_Fxkk _ _ Hop2), Hkk2, Hx2.
  destruct (exec_load_run x (set_pc (pc s2 + 2) s2) HV Hlen Hx HI Hhi)
    as (v' & Hrun2 & Hlen' & Hloaded & Hkept).
  rewrite Hrun2. exists m'. split; [|exact Hstored].
  assert (Hv : v' = V s).
  { apply list_eq_getitem; [congruence|]. intros j Hj.
    destruct (decide (j ≤ x)) as [Hle|Hgt].
    - rewrite Hloaded by lia. unfold mem, s2. fields. by rewrite Hstored by lia.
    - by rewrite Hkept by lia. }
  rewrite Hv. unfold s2, s1. destruct s. unfold set_V, set_memory, set_pc.
  fields. do 2 f_equal. lia.
Qed.

Lemma store_then_load_witness :
  ∃ m', (cycle 0;; cycle 0) before_store
        = (Ok tt, set_memory m' (set_pc (pc before_store + 4) before_store))
        ∧ default 0 (getitem m' 0x302) = 7.
Proof.
  assert (Hf : fetch before_store = (Ok 0xF255, before_store))
    by (vm_compute; reflexivity).
  assert (HV : length (V before_store) = 16%nat) by (vm_compute; reflexivity).
  assert (Hm : length (memory before_store) = 4096%nat)
    by (vm_compute; reflexivity).
  assert (HI : I before_store = 0x300) by (vm_compute; reflexivity).
  assert (Hpc : pc before_store = 0x204) by (vm_compute; reflexivity).
  assert (Hr : reg before_store 2 = 7) by (vm_compute; reflexivity).
  assert (Hat : opcode_at before_store (pc before_store + 2) = 0xF265)
    by (vm_compute; reflexivity).
  destruct (store_then_load 0 0 before_store 0xF255 0xF265 Hf HV Hm
              eq_refl eq_refl
              ltac:(rewrite HI; lia)
              ltac:(rewrite HI; vm_compute; discriminate)
              ltac:(rewrite Hpc; lia) ltac:(rewrite Hpc; lia)
              Hat eq_refl eq_refl eq_refl
              ltac:(right; rewrite HI, Hpc; lia))
    as (m' & Hrun & Hget).
  exists m'. split; [exact Hrun|].
  pose proof (Hget 2 ltac:(vm_compute; split; discriminate)) as H2.
  rewrite HI, Hr in H2. exact H2.
Defined.

(** ** What a cycle leaves alone *)

Lemma keeps_scan_keys {B} (f : Chip8 → B) (candidates : list Z) :
  keeps f (scan_keys candidates).
Proof.
  induction candidates as [|i rest IH]; cbn [scan_keys].
  - apply keeps_ret.
  - apply keeps_bind.
    + unfold get_key. apply keeps_bind; [apply keeps_gets|].
      intros k. apply keeps_lift.
    + intros k. destruct (negb (k =? 0)); [apply keeps_ret | exact IH].
Qed.

Ltac frame_step :=
  first
    [ apply keeps_ret | apply keeps_raise | apply keeps_gets | apply keeps_lift
    | apply keeps_scan_keys
    | apply keeps_for; intros ?
    | apply keeps_bind; [|intros ?]
    | match goal with
      | |- keeps _ (if ?b then _ else _) => destruct b eqn:?
      | |- keeps _ (match ?o with Some _ => _ | None => _ end) => destruct o
      | |- keeps _ (let '(_, _) := ?p in _) => destruct p
      end
    | apply keeps_modify; intros ?; reflexivity ].

Ltac unfold_execute :=
  unfold execute, exec_8, exec_D, exec_E, exec_F, draw_row, plot, get_pixel,
    xor_pixel, getV, setV, mem_read, mem_write, get_key, stack_append,
    stack_pop, pc_add; cbv zeta.

Lemma cycle_frame {B} (f : Chip8 → B) (rnd : Z) (s : Chip8) (opcode : Z) :
  (∀ p s0, f (set_pc p s0) = f s0) →
  fetch s = (Ok opcode, s) →
  keeps f (execute rnd opcode) →
  f (snd (cycle rnd s)) = f s.
Proof.
  intros Hpc Hf Hkeeps.
  rewrite (cycle_fetched _ _ _ Hf), (Hkeeps (set_pc (pc s + 2) s)).
  apply Hpc.
Qed.

Lemma cycle_changed {B} (f : Chip8 → B) (rnd : Z) (s : Chip8) :
  f (snd (cycle rnd s)) ≠ f s → ∃ opcode, fetch s = (Ok opcode, s).
Proof.
  intros Hchange. destruct (fetch s) as [[opcode|e] s0] eqn:Hf.
  - pose proof (fetch_state _ _ _ Hf) as ->. by exists opcode.
  - pose proof (fetch_state _ _ _ Hf) as ->.
    by rewrite (cycle_not_fetched _ _ _ Hf) in Hchange.
Qed.

(** X11.  No cycle writes a key: whatever instruction runs, and whether it returns
    or raises, the sixteen key states are as before. *)
Theorem cycle_keeps_keys (rnd : Z) (s : Chip8) :
  keys (snd (cycle rnd s)) = keys s.
Proof.
  revert s. change (keeps keys (cycle rnd)).
  unfold cycle, fetch. unfold_execute. repeat frame_step.
Qed.

Lemma execute_keeps_delay_timer (rnd opcode : Z) :
  ¬ (Z.land opcode 0xF000 = 0xF000 ∧ Z.land opcode 0x00FF = 0x15) →
  keeps delay_timer (execute rnd opcode).
Proof.
  intros Hn. unfold_execute. repeat frame_step.
  all: exfalso; apply Hn; split; by apply Z.eqb_eq.
Qed.

Lemma execute_keeps_sound_timer (rnd opcode : Z) :
  ¬ (Z.land opcode 0xF000 = 0xF000 ∧ Z.land opcode 0x00FF = 0x18) →
  keeps sound_timer (execute rnd opcode).
Proof.
  intros Hn. unfold_execute. repeat frame_step.
  all: exfalso; apply Hn; split; by apply Z.eqb_eq.
Qed.

(** X12.  The timers are never counted down: a cycle that changes the delay timer
    has run LD DT, Vx, and one that changes the sound timer LD ST, Vx. *)
Theorem timers_only_loaded (rnd : Z) (s : Chip8) :
  (delay_timer (snd (cycle rnd s)) ≠ delay_timer s →
   ∃ opcode, fetch s = (Ok opcode, s)
             ∧ Z.land opcode 0xF000 = 0xF000 ∧ Z.land opcode 0x00FF = 0x15)
  ∧ (sound_timer (snd (cycle rnd s)) ≠ sound_timer s →
     ∃ opcode, fetch s = (Ok opcode, s)
               ∧ Z.land opcode 0xF000 = 0xF000 ∧ Z.land opcode 0x00FF = 0x18).
Proof.
  split; intros Hchange;
    destruct (cycle_changed _ rnd s Hchange) as [opcode Hf];
    exists opcode; (split; [exact Hf|]).
  - destruct (decide (Z.land opcode 0xF000 = 0xF000
                      ∧ Z.land opcode 0x00FF = 0x15)) as [Hop|Hn]; [done|].
    destruct Hchange. apply (cycle_frame delay_timer rnd s opcode); [done..|].
    by apply execute_keeps_delay_timer.
  - destruct (decide (Z.land opcode 0xF000 = 0xF000
                      ∧ Z.land opcode 0x00FF = 0x18)) as [Hop|Hn]; [done|].
    destruct Hchange. apply (cycle_frame sound_timer rnd s opcode); [done..|].
    by apply execute_keeps_sound_timer.
Qed.

Lemma timers_only_loaded_witness :
  ∃ opcode, fetch before_timer = (Ok opcode, before_timer)
            ∧ Z.land opcode 0xF000 = 0xF000 ∧ Z.land opcode 0x00FF = 0x15.
Proof.
  apply (proj1 (timers_only_loaded 0 before_timer)).
  vm_compute. discriminate.
Defined.

Lemma execute_keeps_memory (rnd opcode : Z) :
  ¬ (Z.land opcode 0xF000 = 0xF000
     ∧ (Z.land opcode 0x00FF = 0x33 ∨ Z.land opcode 0x00FF = 0x55)) →
  keeps memory (execute rnd opcode).
Proof.
  intros Hn. unfold_execute. repeat frame_step.
  all: exfalso; apply Hn; split; [by apply Z.eqb_eq|];
    ((left; by apply Z.eqb_eq) || (right; by apply Z.eqb_eq)).
Qed.

Lemma execute_keeps_display (rnd opcode : Z) :
  ¬ (opcode = 0x00E0 ∨ Z.land opcode 0xF000 = 0xD000) →
  keeps display (execute rnd opcode).
Proof.
  intros Hn. unfold_execute. repeat frame_step.
  all: exfalso; apply Hn;
    ((left; by apply Z.eqb_eq) || (right; by apply Z.eqb_eq)).
Qed.

Lemma execute_keeps_stack (rnd opcode : Z) :
  ¬ (opcode = 0x00EE ∨ Z.land opcode 0xF000 = 0x2000) →
  keeps stack (execute rnd opcode).
Proof.
  intros Hn. unfold_execute. repeat frame_step.
  all: exfalso; apply Hn;
    ((left; by apply Z.eqb_eq) || (right; by apply Z.eqb_eq)).
Qed.

Lemma execute_keeps_I (rnd opcode : Z) :
  ¬ (Z.land opcode 0xF000 = 0xA000
     ∨ (Z.land opcode 0xF000 = 0xF000
        ∧ (Z.land opcode 0x00FF = 0x1E ∨ Z.land opcode 0x00FF = 0x29))) →
  keeps I (execute rnd opcode).
Proof.
  intros Hn. unfold_execute. repeat frame_step.
  all: exfalso; apply Hn;
    ((left; by apply Z.eqb_eq)
     || (right; split; [by apply Z.eqb_eq|];
         ((left; by apply Z.eqb_eq) || (right; by apply Z.eqb_eq)))).
Qed.

(** X13.  Which instructions write which part of the machine: a cycle that changes
    the memory has run LD B, Vx or LD [I], Vx (no other instruction can
    change the program); one that changes the display CLS or DRW; one that
    changes the stack RET or CALL; one that changes I LD I, addr or ADD I, Vx
    or LD F, Vx. *)
Theorem cycle_writes_only (rnd : Z) (s : Chip8) (opcode : Z) :
  let s' := snd (cycle rnd s) in
  let group := Z.land opcode 0xF000 in
  let kk := Z.land opcode 0x00FF in
  fetch s = (Ok opcode, s) →
  (memory s' ≠ memory s → group = 0xF000 ∧ (kk = 0x33 ∨ kk = 0x55))
  ∧ (display s' ≠ display s → opcode = 0x00E0 ∨ group = 0xD000)
  ∧ (stack s' ≠ stack s → opcode = 0x00EE ∨ group = 0x2000)
  ∧ (I s' ≠ I s →
     group = 0xA000 ∨ (group = 0xF000 ∧ (kk = 0x1E ∨ kk = 0x29))).
Proof.
  intros s' group kk Hf. subst s' group kk.
  split; [|split; [|split]]; intros Hchange.
  - match goal with |- ?P => destruct (decide P) as [|Hn]; [done|] end.
    destruct Hchange. apply (cycle_frame memory rnd s opcode); [done..|].
    by apply execute_keeps_memory.
  - match goal with |- ?P => destruct (decide P) as [|Hn]; [done|] end.
    destruct Hchange. apply (cycle_frame display rnd s opcode); [done..|].
    by apply execute_keeps_display.
  - match goal with |- ?P => destruct (decide P) as [|Hn]; [done|] end.
    destruct Hchange. apply (cycle_frame stack rnd s opcode); [done..|].
    by apply execute_keeps_stack.
  - match goal with |- ?P => destruct (decide P) as [|Hn]; [done|] end.
    destruct Hchange. apply (cycle_frame I rnd s opcode); [done..|].
    by apply execute_keeps_I.
Qed.

Lemma cycle_writes_only_witness :
  Z.land 0xF255 0xF000 = 0xF000
  ∧ (Z.land 0xF255 0x00FF = 0x33 ∨ Z.land 0xF255 0x00FF = 0x55).
Proof.
  assert (Hf : fetch before_store = (Ok 0xF255, before_store))
    by (vm_compute; reflexivity).
  apply (proj1 (cycle_writes_only 0 before_store 0xF255 Hf)).
  vm_compute. discriminate.
Defined.

(** ** [App.update_loop]: the cycles of one frame *)

(** X14.  The cycles of a frame, run from a valid machine with random bytes at
    hand, leave a valid machine if they all return, and raise nothing but
    IndexError: the exception for an unknown opcode never comes. *)
Theorem update_loop_safe (rnds : list Z) (s : Chip8) :
  valid s →
  Forall byte rnds →
  (∀ s', cycles rnds s = (Ok tt, s') → valid s')
  ∧ (∀ e s', cycles rnds s = (Raise e, s') → e = IndexError).
Proof.
  intros Hs Hrnds. split.
  - intros s' Hrun.
    assert (Hloop : hoare valid (cycles rnds) (λ _, valid)).
    { apply hoare_for. intros rnd Hrnd s0 Hs0 [] s1 Hrun1.
      apply (cycle_valid rnd s0); [|done..].
      by apply (proj1 (Forall_forall _ _) Hrnds). }
    exact (Hloop s Hs tt s' Hrun).
  - intros e s'. apply roi_for. intros rnd. apply cycle_only_IndexError.
Qed.

Lemma update_loop_safe_witness :
  valid (snd (cycles (replicate 10 0) at_se)).
Proof.
  assert (Hload : load_rom [0x30; 0x00] init = (Ok tt, at_se))
    by (vm_compute; reflexivity).
  assert (Hs : valid at_se).
  { apply (load_rom_valid [0x30; 0x00]); [vm_compute; discriminate | | done].
    repeat constructor; unfold byte; lia. }
  assert (Hrnds : Forall byte (replicate 10 0)).
  { repeat constructor; unfold byte; lia. }
  assert (Hrun : cycles (replicate 10 0) at_se
                 = (Ok tt, snd (cycles (replicate 10 0) at_se)))
    by (vm_compute; reflexivity).
  exact (proj1 (update_loop_safe (replicate 10 0) at_se Hs Hrnds) _ Hrun).
Defined.

(** ** [App.disassemble]: the listing *)

Lemma listing_loop_run (s : Chip8) (k : nat) :
  length (memory s) = 4096%nat →
  ∀ (fuel : nat) (pc : Z) (out : list string),
  0 ≤ pc → pc + 2 * Z.of_nat k = 4096 → (k < fuel)%nat →
  listing_loop fuel s pc out =
    Some (Ok (out ++ ((λ i : nat,
                         listing_line (pc + 2 * Z.of_nat i)
                           (opcode_at s (pc + 2 * Z.of_nat i)))
                      <$> seq 0 k))).
Proof.
  intros Hm. induction k as [|k IH]; intros fuel pc out Hpc Hend Hfuel;
    (destruct fuel as [|fuel]; [lia|]); cbn [listing_loop].
  - replace (pc <? MEMORY_SIZE - 1) with false
      by (symmetry; apply Z.ltb_ge; unfold MEMORY_SIZE; lia).
    cbn [seq fmap list_fmap]. by rewrite app_nil_r.
  - replace (pc <? MEMORY_SIZE - 1) with true
      by (symmetry; apply Z.ltb_lt; unfold MEMORY_SIZE; lia).
    rewrite (mem_read_run s pc), (mem_read_run s (pc + 1)) by lia.
    cbn [fst]. rewrite IH by lia.
    do 2 f_equal. rewrite <- app_assoc. f_equal.
    cbn [seq fmap list_fmap app]. f_equal.
    + rewrite Z.mul_0_r, Z.add_0_r. reflexivity.
    + rewrite <- fmap_S_seq, <- list_fmap_compose.
      apply list_fmap_ext. intros _ i _. cbn.
      by replace (pc + 2 + 2 * Z.of_nat i) with (pc + 2 * Z.of_nat (S i))
        by lia.
Qed.

(** X15.  The listing ends and raises nothing: with a machine of 4096 bytes it has
    1792 lines, one for each even address from 0x200 to 0xFFE in this order,
    each made of the two bytes at its address - whatever the length of the
    ROM, and however much fuel above 1792 tests of the loop condition. *)
Theorem disassemble_listing (fuel : nat) (s : Chip8) :
  length (memory s) = 4096%nat →
  (1792 < fuel)%nat →
  ∃ lines, App_disassemble fuel (Some s) = Some (Ok lines)
           ∧ length lines = 1792%nat
           ∧ ∀ k : nat, (k < 1792)%nat →
               lines !! k =
                 Some (listing_line (0x200 + 2 * Z.of_nat k)
                         (opcode_at s (0x200 + 2 * Z.of_nat k))).
Proof.
  intros Hm Hfuel. cbn [App_disassemble].
  rewrite (listing_loop_run s 1792 Hm) by lia.
  eexists. split; [reflexivity|]. split.
  - by rewrite app_nil_l, length_fmap, length_seq.
  - intros k Hk. rewrite app_nil_l, list_lookup_fmap, lookup_seq_lt by done.
    reflexivity.
Qed.

Lemma disassemble_listing_witness :
  ∃ lines, App_disassemble 1793 (Some at_se) = Some (Ok lines)
           ∧ lines !! 0%nat = Some ("200: 3000   SE V0, 00" +:+ newline)%string.
Proof.
  assert (Hm : length (memory at_se) = 4096%nat) by (vm_compute; reflexivity).
  destruct (disassemble_listing 1793 at_se Hm ltac:(lia))
    as (lines & Hrun & _ & Hline).
  exists lines. split; [exact Hrun|].
  rewrite (Hline 0%nat ltac:(lia)). vm_compute. reflexivity.
Defined.

(** ** The key map: [App.key_press], [App.wait_for_key],
    [App.get_key_for_chip8] *)

Section dict_facts.
Context {A : Type}.
Implicit Types (d : dict A) (k : string) (v : A).

Lemma dict_get_set_eq d k v : dict_get (dict_set d k v) k = Some v.
Proof.
  induction d as [|[k' v'] d IH]; cbn [dict_set dict_get].
  - by rewrite decide_True.
  - destruct (decide (k' = k)) as [Heq|Hne]; cbn [dict_get].
    + by rewrite decide_True.
    + by rewrite decide_False.
Qed.

Lemma dict_get_set_ne d k k0 v :
  k0 ≠ k → dict_get (dict_set d k v) k0 = dict_get d k0.
Proof.
  intros Hne. induction d as [|[k' v'] d IH]; cbn [dict_set dict_get].
  - by rewrite decide_False.
  - destruct (decide (k' = k)) as [->|Hne']; cbn [dict_get].
    + by rewrite !decide_False by done.
    + by rewrite IH.
Qed.

Lemma dict_set_fresh d k v :
  dict_get d k = None → dict_set d k v = d ++ [(k, v)].
Proof.
  induction d as [|[k' v'] d IH]; cbn [dict_set dict_get app]; [done|].
  destruct (decide (k' = k)); [done|]. intros H. by rewrite IH.
Qed.

Lemma dict_set_keys d k v :
  (dict_set d k v).*1 =
    match dict_get d k with Some _ => d.*1 | None => d.*1 ++ [k] end.
Proof.
  induction d as [|[k' v'] d IH]; cbn [dict_set dict_get]; [done|].
  destruct (decide (k' = k)) as [->|Hne]; [done|].
  cbn [fmap list_fmap fst]. change (list_fmap _ _ fst ?l) with (l.*1).
  rewrite IH. by destruct (dict_get d k).
Qed.

Lemma dict_get_None d k : dict_get d k = None → k ∉ d.*1.
Proof.
  induction d as [|[k' v'] d IH]; cbn [dict_get]; [by intros _ ?%elem_of_nil|].
  destruct (decide (k' = k)); [done|].
  intros H [->|Hin]%elem_of_cons; [done | by apply IH].
Qed.

Lemma dict_set_NoDup d k v : NoDup d.*1 → NoDup (dict_set d k v).*1.
Proof.
  intros Hd. rewrite dict_set_keys.
  destruct (dict_get d k) eqn:Hget; [done|].
  apply NoDup_app. split; [done|]. split; [|apply NoDup_singleton].
  intros k0 Hin Hk0%list_elem_of_singleton. subst k0.
  by apply (dict_get_None d k).
Qed.

Lemma dict_set_Forall (P : string * A → Prop) d k v :
  Forall P d → P (k, v) → Forall P (dict_set d k v).
Proof.
  intros Hd Hkv. induction Hd as [|[k' v'] d Hx Hd IH];
    cbn [dict_set]; [by repeat constructor|].
  destruct (decide (k' = k)) as [->|Hne]; by constructor.
Qed.

Lemma dict_get_elem_of d k v :
  NoDup d.*1 → (k, v) ∈ d → dict_get d k = Some v.
Proof.
  induction d as [|[k' v'] d IH]; cbn [dict_get]; [by intros _ ?%elem_of_nil|].
  intros [Hnotin Hd]%NoDup_cons [[= -> ->]|Hin]%elem_of_cons.
  - by rewrite decide_True.
  - destruct (decide (k' = k)) as [->|Hne]; [|by apply IH].
    destruct Hnotin. apply list_elem_of_fmap. by exists (k, v).
Qed.
Lemma elem_of_dict_set d k v k0 v0 :
  NoDup d.*1 → (k0, v0) ∈ dict_set d k v →
  (k0 = k ∧ v0 = v) ∨ ((k0, v0) ∈ d ∧ k0 ≠ k).
Proof.
  induction d as [|[k' v'] d IH]; cbn [dict_set].
  - intros _ [= -> ->]%list_elem_of_singleton. by left.
  - intros [Hnotin Hd]%NoDup_cons.
    destruct (decide (k' = k)) as [->|Hne].
    + intros [[= -> ->]|Hin]%elem_of_cons; [by left|].
      right. split; [by right|]. intros ->.
      destruct Hnotin. apply list_elem_of_fmap. by exists (k, v0).
    + intros [[= -> ->]|Hin]%elem_of_cons.
      * right. split; [by left | done].
      * destruct (IH Hd Hin) as [?|[? ?]]; [by left|].
        right. split; [by right | done].
Qed.
End dict_facts.

Lemma keymap_init_ok : keymap_ok keymap_init.
Proof.
  split.
  - apply (bool_decide_unpack _). vm_compute. exact Logic.I.
  - repeat constructor; cbn; lia.
Qed.

Lemma on_press_ok (lower : string → string) (keymap : dict Z)
    (keysym : string) (chip8_key : Z) :
  keymap_ok keymap → 0 ≤ chip8_key ≤ 15 →
  keymap_ok (on_press lower keymap keysym chip8_key).
Proof.
  intros [Hkeys Hvals] Hc. split.
  - by apply dict_set_NoDup.
  - by apply dict_set_Forall.
Qed.

Lemma keymap_reachable_ok (lower : string → string) (keymap : dict Z) :
  keymap_reachable lower keymap → keymap_ok keymap.
Proof.
  induction 1 as [|keymap keysym c _ IH Hc].
  - apply keymap_init_ok.
  - by apply on_press_ok.
Qed.

Lemma dict_get_elem_of_2 {A} (d : dict A) (k : string) (v : A) :
  dict_get d k = Some v → (k, v) ∈ d.
Proof.
  induction d as [|[k' v'] d IH]; cbn [dict_get]; [done|].
  destruct (decide (k' = k)) as [->|Hne].
  - intros [= ->]. by left.
  - intros H. right. by apply IH.
Qed.

(** X16.  With a key map that the application can have, no key event raises: it
    leaves the machine alone or writes one of the sixteen key states. *)
Theorem key_event_never_raises (lower : string → string) (keymap : dict Z)
    (pressed : bool) (char : string) (s : Chip8) :
  keymap_reachable lower keymap →
  length (keys s) = 16%nat →
  App_key_event lower keymap pressed char (Some s) = (Ok tt, Some s)
  ∨ ∃ k, 0 ≤ k ≤ 15
         ∧ dict_get keymap (lower char) = Some k
         ∧ App_key_event lower keymap pressed char (Some s)
           = (Ok tt,
              Some (set_keys (<[Z.to_nat k:=if pressed then 1 else 0]> (keys s))
                      s)).
Proof.
  intros [_ Hvals]%keymap_reachable_ok Hlen. cbn [App_key_event].
  destruct (dict_get keymap (lower char)) as [k|] eqn:Hget; [|by left].
  right. exists k.
  assert (Hk : 0 ≤ k ≤ 15).
  { apply dict_get_elem_of_2 in Hget.
    exact (proj1 (Forall_forall _ _) Hvals _ Hget). }
  split; [exact Hk|]. split; [done|].
  by rewrite (key_event_run s k pressed Hlen Hk).
Qed.

Lemma key_event_never_raises_witness :
  fst (App_key_event lower_ascii
         (on_press lower_ascii keymap_init "P" 5) true "p" (Some init))
  = Ok tt.
Proof.
  assert (Hmap : keymap_reachable lower_ascii
                   (on_press lower_ascii keymap_init "P" 5)).
  { apply keymap_reachable_on_press; [apply keymap_reachable_init | lia]. }
  assert (Hlen : length (keys init) = 16%nat) by (vm_compute; reflexivity).
  destruct (key_event_never_raises lower_ascii _ true "p" init Hmap Hlen)
    as [Hrun | (k & _ & _ & Hrun)]; by rewrite Hrun.
Defined.

(** X17.  A key bound by [on_press] sets, when pressed, the key of the machine it
    was bound to - if the [char] of the event is the [keysym] of the binding,
    up to case.  For an event with another [char] the binding changes
    nothing: a key whose [keysym] is not its [char] (the space bar) is bound
    in vain. *)
Theorem rebind_then_press (lower : string → string) (keymap : dict Z)
    (keysym char : string) (chip8_key : Z) (pressed : bool) (s : Chip8) :
  0 ≤ chip8_key ≤ 15 →
  length (keys s) = 16%nat →
  (lower char = lower keysym →
   App_key_event lower (on_press lower keymap keysym chip8_key) pressed char
     (Some s)
   = (Ok tt,
      Some (set_keys
              (<[Z.to_nat chip8_key:=if pressed then 1 else 0]> (keys s)) s)))
  ∧ (lower char ≠ lower keysym →
     App_key_event lower (on_press lower keymap keysym chip8_key) pressed char
       (Some s)
     = App_key_event lower keymap pressed char (Some s)).
Proof.
  intros Hc Hlen. unfold on_press. cbn [App_key_event]. split.
  - intros ->. rewrite dict_get_set_eq.
    by rewrite (key_event_run s chip8_key pressed Hlen Hc).
  - intros Hne. by rewrite dict_get_set_ne.
Qed.

Lemma rebind_then_press_witness :
  App_key_event lower_ascii (on_press lower_ascii keymap_init "P" 5) true "p"
    (Some init)
  = (Ok tt, Some (set_keys (<[5%nat:=1]> (keys init)) init))
  ∧ App_key_event lower_ascii (on_press lower_ascii keymap_init "space" 5)
      true " " (Some init)
    = (Ok tt, Some init).
Proof.
  assert (Hlen : length (keys init) = 16%nat) by (vm_compute; reflexivity).
  split.
  - exact (proj1 (rebind_then_press lower_ascii keymap_init "P" "p" 5 true
                    init ltac:(lia) Hlen) eq_refl).
  - rewrite (proj2 (rebind_then_press lower_ascii keymap_init "space" " " 5
                      true init ltac:(lia) Hlen))
      by (vm_compute; discriminate).
    reflexivity.
Defined.

Lemma get_key_elem_of (keymap : dict Z) (i : Z) :
  (∃ k, (k, i) ∈ keymap) → (get_key_for_chip8 keymap i, i) ∈ keymap.
Proof.
  induction keymap as [|[k' v'] keymap IH]; cbn [get_key_for_chip8].
  - by intros [k ?%elem_of_nil].
  - destruct (v' =? i) eqn:Hv.
    + apply Z.eqb_eq in Hv as ->. intros _. by left.
    + apply Z.eqb_neq in Hv. intros [k [[= -> ->]|Hin]%elem_of_cons]; [done|].
      right. apply IH. by exists k.
Qed.

Lemma get_key_none (keymap : dict Z) (i : Z) :
  (∀ k, (k, i) ∉ keymap) → get_key_for_chip8 keymap i = "?"%string.
Proof.
  induction keymap as [|[k' v'] keymap IH]; cbn [get_key_for_chip8]; [done|].
  intros Hnone. destruct (v' =? i) eqn:Hv.
  - apply Z.eqb_eq in Hv as ->. destruct (Hnone k'). by left.
  - apply IH. intros k Hin. apply (Hnone k). by right.
Qed.

Lemma get_key_app (keymap rest : dict Z) (i : Z) :
  (∃ k, (k, i) ∈ keymap) →
  get_key_for_chip8 (keymap ++ rest) i = get_key_for_chip8 keymap i.
Proof.
  induction keymap as [|[k' v'] keymap IH]; cbn [get_key_for_chip8 app].
  - by intros [k ?%elem_of_nil].
  - destruct (v' =? i) eqn:Hv; [done|]. apply Z.eqb_neq in Hv.
    intros [k [[= -> ->]|Hin]%elem_of_cons]; [done|]. apply IH. by exists k.
Qed.

(** X18.  The label that the bindings window shows for a key of the machine is a
    key of the map that stands for it, and the question mark when the map has
    none. *)
Theorem key_label_round_trip (keymap : dict Z) (chip8_index : Z) :
  NoDup keymap.*1 →
  ((∃ k, (k, chip8_index) ∈ keymap) →
   dict_get keymap (get_key_for_chip8 keymap chip8_index) = Some chip8_index)
  ∧ ((∀ k, (k, chip8_index) ∉ keymap) →
     get_key_for_chip8 keymap chip8_index = "?"%string).
Proof.
  intros Hkeys. split.
  - intros Hex. apply dict_get_elem_of; [done|]. by apply get_key_elem_of.
  - apply get_key_none.
Qed.

Lemma key_label_round_trip_witness :
  dict_get keymap_init (get_key_for_chip8 keymap_init 0xA) = Some 0xA.
Proof.
  apply (proj1 (key_label_round_trip keymap_init 0xA
                  (proj1 keymap_init_ok))).
  exists "z"%string. vm_compute. repeat constructor.
Defined.

(** X19.  Binding a further key to a key of the machine that has one keeps the old
    binding, and the bindings window goes on showing the old key, the first
    in the order of insertion.  Binding a key away from the only key of the
    machine it stood for leaves that one without a key: the window shows the
    question mark. *)
Theorem rebind_label (lower : string → string) (keymap : dict Z)
    (keysym : string) (chip8_key : Z) :
  NoDup keymap.*1 →
  (dict_get keymap (lower keysym) = None →
   (∃ k0, (k0, chip8_key) ∈ keymap) →
   get_key_for_chip8 (on_press lower keymap keysym chip8_key) chip8_key
   = get_key_for_chip8 keymap chip8_key)
  ∧ (∀ other, other ≠ chip8_key →
       (∀ k, (k, other) ∈ keymap → k = lower keysym) →
       get_key_for_chip8 (on_press lower keymap keysym chip8_key) other
       = "?"%string).
Proof.
  intros Hkeys. unfold on_press. split.
  - intros Hfresh Hex. rewrite dict_set_fresh by done. by apply get_key_app.
  - intros other Hne Honly. apply get_key_none. intros k Hin.
    destruct (elem_of_dict_set _ _ _ _ _ Hkeys Hin) as [[_ ?]|[Hin' Hk]];
      [done|].
    by apply Hk, Honly.
Qed.

Lemma rebind_label_witness :
  get_key_for_chip8 (on_press lower_ascii keymap_init "P" 5) 5 = "w"%string
  ∧ get_key_for_chip8 (on_press lower_ascii keymap_init "X" 1) 0 = "?"%string.
Proof.
  pose proof (rebind_label lower_ascii keymap_init "P" 5
                (proj1 keymap_init_ok)) as [Hold _].
  pose proof (rebind_label lower_ascii keymap_init "X" 1
                (proj1 keymap_init_ok)) as [_ Hnone].
  split.
  - rewrite Hold; [reflexivity | reflexivity |].
    exists "w"%string. vm_compute. repeat constructor.
  - apply Hnone; [discriminate|].
    intros k Hin. unfold keymap_init in Hin.
    repeat match goal with
           | H : _ ∈ _ :: _ |- _ => apply elem_of_cons in H as [[= ->]|H]
           | H : _ ∈ [] |- _ => by apply elem_of_nil in H
           end; try discriminate.
    reflexivity.
Defined.

(** ** DRW twice *)

Lemma draw_cycle (rnd : Z) (s : Chip8) (opcode : Z) :
  let x := Z.shiftr (Z.land opcode 0x0F00) 8 in
  let y := Z.shiftr (Z.land opcode 0x00F0) 4 in
  let n := Z.land opcode 0x000F in
  let pts := sprite_points s (reg s x) (reg s y) n in
  fetch s = (Ok opcode, s) →
  shaped s →
  Z.land opcode 0xF000 = 0xD000 →
  0 ≤ I s →
  I s + n ≤ 4096 →
  ∃ s', cycle rnd s = (Ok tt, s')
    ∧ shaped s'
    ∧ same_but_V_display (set_pc (pc s + 2) s) s'
    ∧ (∀ i, 0 ≤ i < 15 → reg s' i = reg s i)
    ∧ (∀ r c, 0 ≤ r < 32 → 0 ≤ c < 64 →
         pixel s' r c =
           if decide ((r, c) ∈ pts) then Z.lxor (pixel s r c) 1
           else pixel s r c).
Proof.
  intros x y n pts Hf Hs Hop HI Hn.
  pose proof (field_x_range opcode) as Hx.
  pose proof (field_y_range opcode) as Hy.
  pose proof (land_range opcode 0x000F ltac:(lia)) as Hnr.
  rewrite (cycle_fetched _ _ _ Hf), (execute_Dxyn _ _ Hop).
  fold x y n in Hx, Hy, Hnr |- *.
  set (s1 := set_pc (pc s + 2) s).
  assert (Hs1 : shaped s1) by (by apply shaped_set_pc).
  rewrite (exec_D_run s1 x y n Hs1 Hx Hy HI Hn).
  change (sprite_points s1 (reg s1 x) (reg s1 y) n) with pts.
  set (s0 := set_V (<[15%nat:=0]> (V s1)) s1).
  assert (Hs0 : shaped s0).
  { apply shaped_set_V; [done|]. rewrite length_insert. apply Hs. }
  assert (Hnodup : NoDup pts) by (apply sprite_points_NoDup; lia).
  pose proof (sprite_points_on_display s (reg s x) (reg s y) n) as Hpts.
  fold pts in Hpts.
  destruct (plot_all pts s0 Hs0 Hpts) as (_ & Hshaped & Hframe & Hregs).
  destruct (plot_all_pixels pts Hnodup Hpts s0 Hs0) as [Hpix _].
  eexists. split; [reflexivity|]. split; [exact Hshaped|].
  split; [exact Hframe|]. split; [|exact Hpix].
  intros i Hi. rewrite Hregs by done. unfold reg, s0. fields.
  by rewrite (getitem_insert_ne (V s) 15) by lia.
Qed.

(** X20.  Drawing the same sprite at the same place twice gives back the display:
    DRW followed by the same DRW, with neither coordinate in VF, leaves every
    pixel and every register but VF as before the first. *)
Theorem draw_twice (rnd1 rnd2 : Z) (s : Chip8) (opcode : Z) :
  let x := Z.shiftr (Z.land opcode 0x0F00) 8 in
  let y := Z.shiftr (Z.land opcode 0x00F0) 4 in
  let n := Z.land opcode 0x000F in
  fetch s = (Ok opcode, s) →
  fetch (set_pc (pc s + 2) s) = (Ok opcode, set_pc (pc s + 2) s) →
  shaped s →
  Z.land opcode 0xF000 = 0xD000 →
  0 ≤ I s →
  I s + n ≤ 4096 →
  x ≠ 0xF →
  y ≠ 0xF →
  ∃ s'', (cycle rnd1;; cycle rnd2) s = (Ok tt, s'')
    ∧ (∀ py px, 0 ≤ py < 32 → 0 ≤ px < 64 → pixel s'' py px = pixel s py px)
    ∧ (∀ i, 0 ≤ i < 15 → reg s'' i = reg s i)
    ∧ pc s'' = pc s + 4.
Proof.
  intros x y n Hf Hf2 Hs Hop HI Hn Hx15 Hy15.
  pose proof (field_x_range opcode) as Hx.
  pose proof (field_y_range opcode) as Hy.
  fold x in Hx. fold y in Hy.
  destruct (draw_cycle rnd1 s opcode Hf Hs Hop HI Hn)
    as (s' & Hrun1 & Hs' & Hframe1 & Hregs1 & Hpix1).
  rewrite (bind_ok _ _ _ _ _ Hrun1).
  destruct Hframe1 as (Hmem & HI' & Hpc' & Hrest).
  assert (Hf' : fetch s' = (Ok opcode, s')) by exact (fetch_frame _ _ _ Hmem Hpc' Hf2).
  destruct (draw_cycle rnd2 s' opcode Hf' Hs' Hop
              ltac:(rewrite HI'; exact HI) ltac:(rewrite HI'; exact Hn))
    as (s'' & Hrun2 & Hs'' & Hframe2 & Hregs2 & Hpix2).
  fold x y n in Hpix1, Hpix2.
  assert (Hpts : sprite_points s' (reg s' x) (reg s' y) n
                 = sprite_points s (reg s x) (reg s y) n).
  { rewrite !Hregs1 by lia. unfold sprite_points, sprite_row.
    by rewrite Hmem, HI'. }
  rewrite Hpts in Hpix2.
  exists s''. split; [exact Hrun2|]. split; [|split].
  - intros py px Hpy Hpx. rewrite Hpix2, Hpix1 by done.
    case_decide; [|done].
    rewrite Z.lxor_assoc, Z.lxor_nilpotent. apply Z.lxor_0_r.
  - intros i Hi. by rewrite Hregs2, Hregs1.
  - destruct Hframe2 as (_ & _ & Hpc'' & _). rewrite Hpc''. fields.
    rewrite Hpc'. fields. lia.
Qed.

Lemma draw_twice_witness :
  ∃ s'', (cycle 0;; cycle 0) before_draw = (Ok tt, s'')
         ∧ pixel s'' 0 0 = 0 ∧ pc s'' = 0x206.
Proof.
  assert (Hf : fetch before_draw = (Ok 0xD005, before_draw))
    by (vm_compute; reflexivity).
  assert (Hf2 : fetch (set_pc (pc before_draw + 2) before_draw)
                = (Ok 0xD005, set_pc (pc before_draw + 2) before_draw))
    by (vm_compute; reflexivity).
  assert (HI : 0 ≤ I before_draw) by (vm_compute; discriminate).
  assert (Hn : I before_draw + Z.land 0xD005 0x000F ≤ 4096)
    by (vm_compute; discriminate).
  assert (Hx : Z.shiftr (Z.land 0xD005 0x0F00) 8 ≠ 0xF)
    by (vm_compute; discriminate).
  assert (Hy : Z.shiftr (Z.land 0xD005 0x00F0) 4 ≠ 0xF)
    by (vm_compute; discriminate).
  destruct (draw_twice 0 0 before_draw 0xD005 Hf Hf2 before_draw_shaped
              eq_refl HI Hn Hx Hy) as (s'' & Hrun & Hpix & _ & Hpc).
  exists s''. split; [exact Hrun|]. split.
  - rewrite (Hpix 0 0) by lia. vm_compute. reflexivity.
  - rewrite Hpc. vm_compute. reflexivity.
Defined.

(** ** 8xy0 to 8xy3: LD, OR, AND, XOR *)

(** X21.  LD, OR, AND and XOR on registers write Vx and nothing else: VF keeps its
    value (unless it is Vx). *)
Theorem logic_ops (rnd : Z) (s : Chip8) (opcode : Z) :
  let x := Z.shiftr (Z.land opcode 0x0F00) 8 in
  let y := Z.shiftr (Z.land opcode 0x00F0) 4 in
  let n := Z.land opcode 0x000F in
  fetch s = (Ok opcode, s) →
  length (V s) = 16%nat →
  Z.land opcode 0xF000 = 0x8000 →
  n = 0 ∨ n = 1 ∨ n = 2 ∨ n = 3 →
  ∃ s', cycle rnd s = (Ok tt, s')
        ∧ reg s' x = logic_result n (reg s x) (reg s y)
        ∧ (∀ i, 0 ≤ i ≤ 15 → i ≠ x → reg s' i = reg s i).
Proof.
  intros x y n Hf HV Hop Hn.
  pose proof (field_x_range opcode) as Hx.
  pose proof (field_y_range opcode) as Hy.
  rewrite (cycle_fetched _ _ _ Hf), (execute_8xyn _ _ Hop).
  fold x y n in Hx, Hy |- *.
  set (s1 := set_pc (pc s + 2) s).
  assert (HV1 : length (V s1) = 16%nat) by exact HV.
  change (reg s) with (reg s1).
  destruct Hn as [-> | [-> | [-> | ->]]];
    unfold exec_8, logic_result; cbn [Z.eqb Pos.eqb];
    repeat regs_step;
    (eexists; split; [reflexivity|]; split;
     [ by rewrite reg_after_write, decide_True by (done || lia)
     | intros i Hi Hne;
       by rewrite reg_after_write, decide_False by (done || lia) ]).
Qed.

Lemma logic_ops_witness :
  ∃ s', cycle 0 before_xor = (Ok tt, s') ∧ reg s' 1 = 6 ∧ reg s' 0xF = 1.
Proof.
  assert (Hf : fetch before_xor = (Ok 0x8123, before_xor))
    by (vm_compute; reflexivity).
  assert (HV : length (V before_xor) = 16%nat) by (vm_compute; reflexivity).
  destruct (logic_ops 0 before_xor 0x8123 Hf HV eq_refl
              (or_intror (or_intror (or_intror eq_refl))))
    as (s' & Hrun & Hres & Hothers).
  assert (Hne : 0xF ≠ Z.shiftr (Z.land 0x8123 0x0F00) 8)
    by (vm_compute; discriminate).
  pose proof (Hothers 0xF ltac:(lia) Hne) as HF.
  match type of Hres with _ = ?r =>
    assert (E : r = 6) by (vm_compute; reflexivity); rewrite E in Hres end.
  match type of HF with _ = ?r =>
    assert (E' : r = 1) by (vm_compute; reflexivity); rewrite E' in HF end.
  exists s'. split; [exact Hrun|]. split; [exact Hres | exact HF].
Defined.

(** ** The index register: Fx1E and Fx29 *)

(** X22.  ADD I, Vx wraps I around at 4096 and writes no register: no overflow is
    flagged in VF. *)
Theorem add_index_wraps (rnd : Z) (s : Chip8) (opcode : Z) :
  let x := Z.shiftr (Z.land opcode 0x0F00) 8 in
  fetch s = (Ok opcode, s) →
  length (V s) = 16%nat →
  Z.land opcode 0xF000 = 0xF000 →
  Z.land opcode 0x00FF = 0x1E →
  cycle rnd s
  = (Ok tt, set_I ((I s + reg s x) `mod` 4096) (set_pc (pc s + 2) s)).
Proof.
  intros x Hf HV Hop Hkk.
  pose proof (field_x_range opcode) as Hx.
  rewrite (cycle_fetched _ _ _ Hf), (execute_Fxkk _ _ Hop), Hkk.
  fold x in Hx |- *.
  set (s1 := set_pc (pc s + 2) s).
  assert (HV1 : length (V s1) = 16%nat) by exact HV.
  unfold exec_F. cbn [Z.eqb Pos.eqb]. rewrite gets_bind.
  regs_step. cbv [modify]. do 2 f_equal.
  change 0xFFF with (Z.ones 12). by rewrite Z.land_ones by lia.
Qed.

Lemma add_index_wraps_witness :
  ∃ s', cycle 0 before_add_index = (Ok tt, s') ∧ I s' = 0xFE ∧ reg s' 0xF = 0.
Proof.
  assert (Hf : fetch before_add_index = (Ok 0xF01E, before_add_index))
    by (vm_compute; reflexivity).
  assert (HV : length (V before_add_index) = 16%nat)
    by (vm_compute; reflexivity).
  pose proof (add_index_wraps 0 before_add_index 0xF01E Hf HV eq_refl eq_refl)
    as Hrun.
  eexists. split; [exact Hrun|]. split; vm_compute; reflexivity.
Defined.

Lemma getitem_prefix (l prefix : list Z) (a : Z) :
  take (length prefix) l = prefix →
  0 ≤ a < Z.of_nat (length prefix) →
  getitem l a = getitem prefix a.
Proof.
  intros Htake Ha.
  assert (Hlen : (length prefix ≤ length l)%nat).
  { rewrite <- Htake at 1. rewrite length_take. lia. }
  rewrite !getitem_nonneg by lia.
  transitivity (take (length prefix) l !! Z.to_nat a);
    [by rewrite lookup_take_lt by lia | by rewrite Htake].
Qed.

(** X23.  LD F, Vx points I at the glyph of the digit in Vx: with the font where
    [__init__] puts it, the five bytes from I on are the five rows that the
    font has for this digit. *)
Theorem font_glyph (rnd : Z) (s : Chip8) (opcode : Z) :
  let x := Z.shiftr (Z.land opcode 0x0F00) 8 in
  fetch s = (Ok opcode, s) →
  length (V s) = 16%nat →
  Z.land opcode 0xF000 = 0xF000 →
  Z.land opcode 0x00FF = 0x29 →
  take 80 (memory s) = fontset →
  0 ≤ reg s x ≤ 15 →
  ∃ s', cycle rnd s = (Ok tt, s')
        ∧ I s' = 5 * reg s x
        ∧ ∀ row, 0 ≤ row < 5 →
            mem s' (I s' + row)
            = default 0 (getitem fontset (5 * reg s x + row)).
Proof.
  intros x Hf HV Hop Hkk Hfont Hdigit.
  pose proof (field_x_range opcode) as Hx.
  rewrite (cycle_fetched _ _ _ Hf), (execute_Fxkk _ _ Hop), Hkk.
  fold x in Hx |- *.
  set (s1 := set_pc (pc s + 2) s).
  assert (HV1 : length (V s1) = 16%nat) by exact HV.
  unfold exec_F. cbn [Z.eqb Pos.eqb].
  regs_step. cbv [modify]. change (reg s1 x) with (reg s x).
  eexists. split; [reflexivity|]. fields. split; [lia|].
  intros row Hrow. unfold mem. fields.
  replace (reg s x * 5 + row) with (5 * reg s x + row) by lia.
  by rewrite (getitem_prefix (memory s) fontset)
    by (done || (change (length fontset) with 80%nat; lia)).
Qed.

Lemma font_glyph_witness :
  ∃ s', cycle 0 before_font = (Ok tt, s')
        ∧ I s' = 50 ∧ mem s' (I s' + 0) = 0xF0 ∧ mem s' (I s' + 4) = 0x90.
Proof.
  assert (Hf : fetch before_font = (Ok 0xF029, before_font))
    by (vm_compute; reflexivity).
  assert (HV : length (V before_font) = 16%nat) by (vm_compute; reflexivity).
  assert (Hfont : take 80 (memory before_font) = fontset)
    by (vm_compute; reflexivity).
  assert (Hr : reg before_font (Z.shiftr (Z.land 0xF029 0x0F00) 8) = 10)
    by (vm_compute; reflexivity).
  destruct (font_glyph 0 before_font 0xF029 Hf HV eq_refl eq_refl Hfont
              ltac:(rewrite Hr; lia)) as (s' & Hrun & HI & Hrows).
  exists s'. split; [exact Hrun|]. rewrite Hr in HI, Hrows.
  split; [exact HI|]. split.
  - rewrite (Hrows 0) by lia. vm_compute. reflexivity.
  - rewrite (Hrows 4) by lia. vm_compute. reflexivity.
Defined.

(** ** Jumps that leave the memory *)

Lemma execute_Bnnn (rnd opcode : Z) :
  Z.land opcode 0xF000 = 0xB000 →
  execute rnd opcode =
    (v0 ← getV 0; modify (set_pc (Z.land opcode 0x0FFF + v0))).
Proof. intros H. dispatch H. reflexivity. Qed.

(** X24.  JP V0, addr adds V0 to the address without a bound: a target whose
    second byte is beyond the memory is taken, and the next cycle raises
    IndexError at the fetch, the machine staying at the target. *)
Theorem jump_out_of_memory (rnd1 rnd2 : Z) (s : Chip8) (opcode : Z) :
  let nnn := Z.land opcode 0x0FFF in
  fetch s = (Ok opcode, s) →
  length (V s) = 16%nat →
  length (memory s) = 4096%nat →
  Z.land opcode 0xF000 = 0xB000 →
  4095 ≤ nnn + reg s 0 →
  cycle rnd1 s = (Ok tt, set_pc (nnn + reg s 0) s)
  ∧ (cycle rnd1;; cycle rnd2) s = (Raise IndexError, set_pc (nnn + reg s 0) s).
Proof.
  intros nnn Hf HV Hm Hop Hout.
  assert (Hrun : cycle rnd1 s = (Ok tt, set_pc (nnn + reg s 0) s)).
  { rewrite (cycle_fetched _ _ _ Hf), (execute_Bnnn _ _ Hop). fold nnn.
    set (s1 := set_pc (pc s + 2) s).
    assert (HV1 : length (V s1) = 16%nat) by exact HV.
    regs_step. reflexivity. }
  split; [exact Hrun|]. rewrite (bind_ok _ _ _ _ _ Hrun).
  set (s2 := set_pc (nnn + reg s 0) s).
  assert (Hm2 : length (memory s2) = 4096%nat) by exact Hm.
  assert (Hpc2 : pc s2 = nnn + reg s 0) by reflexivity.
  apply cycle_not_fetched. unfold fetch. rewrite gets_bind.
  destruct (decide (4096 ≤ pc s2)) as [Hfar|Hnear].
  - by rewrite (bind_raise _ _ _ _ _
                  (mem_read_beyond s2 (pc s2) ltac:(rewrite Hm2; lia))).
  - rewrite (bind_ok _ _ _ _ _
               (mem_read_run s2 (pc s2) ltac:(rewrite Hm2; lia))).
    rewrite gets_bind.
    by rewrite (bind_raise _ _ _ _ _
                  (mem_read_beyond s2 (pc s2 + 1) ltac:(rewrite Hm2; lia))).
Qed.

Lemma jump_out_of_memory_witness :
  (cycle 0;; cycle 0) before_jump
  = (Raise IndexError, set_pc (0xFFF + 0xFF) before_jump).
Proof.
  assert (Hf : fetch before_jump = (Ok 0xBFFF, before_jump))
    by (vm_compute; reflexivity).
  assert (HV : length (V before_jump) = 16%nat) by (vm_compute; reflexivity).
  assert (Hm : length (memory before_jump) = 4096%nat)
    by (vm_compute; reflexivity).
  assert (Hr : reg before_jump 0 = 0xFF) by (vm_compute; reflexivity).
  pose proof (proj2 (jump_out_of_memory 0 0 before_jump 0xBFFF Hf HV Hm eq_refl
                       ltac:(rewrite Hr; vm_compute; discriminate))) as Hrun.
  rewrite Hr in Hrun. exact Hrun.
Defined.

(** ** From the file to the first fetch *)

(** X25.  [__init__] starts the program counter at 0x200 and [load_rom] puts the
    file there: the first fetch of a machine with a ROM that fits gets the
    first two bytes of the file, the first one in the high byte. *)
Theorem loaded_first_opcode (b0 b1 : Z) (rest : list Z) :
  let rom := b0 :: b1 :: rest in
  let s := snd (load_rom rom init) in
  (length rom ≤ 3584)%nat →
  load_rom rom init = (Ok tt, s)
  ∧ pc s = 0x200
  ∧ fetch s = (Ok (Z.lor (Z.shiftl b0 8) b1), s).
Proof.
  intros rom s Hfit. unfold s.
  rewrite (load_rom_fits rom init) by (rewrite init_memory_length; lia).
  cbn [snd]. split; [reflexivity|]. split; [reflexivity|].
  set (loaded := take 512 (memory init) ++ rom ++ _).
  assert (Hlen : length loaded = 4096%nat).
  { unfold loaded. rewrite !length_app, length_take, length_drop,
      init_memory_length. lia. }
  assert (H0 : getitem loaded 0x200 = Some b0).
  { rewrite getitem_nonneg by lia. unfold loaded.
    rewrite lookup_app_r by (rewrite length_take, init_memory_length; lia).
    rewrite length_take, init_memory_length. reflexivity. }
  assert (H1 : getitem loaded 0x201 = Some b1).
  { rewrite getitem_nonneg by lia. unfold loaded.
    rewrite lookup_app_r by (rewrite length_take, init_memory_length; lia).
    rewrite length_take, init_memory_length. reflexivity. }
  assert (Hpc : pc (set_memory loaded init) = 0x200) by reflexivity.
  rewrite (fetch_opcode_at (set_memory loaded init) Hlen)
    by (rewrite Hpc; lia).
  unfold opcode_at, mem. rewrite Hpc.
  change (memory (set_memory loaded init)) with loaded.
  change (0x200 + 1) with 0x201.
  by rewrite H0, H1.
Qed.

Lemma loaded_first_opcode_witness :
  fetch at_se = (Ok 0x3000, at_se).
Proof.
  exact (proj2 (proj2 (loaded_first_opcode 0x30 0x00 [] ltac:(cbn; lia)))).
Defined.
